(** * ChapterList: bulk import, drag reordering and rendering of a chapter list

    A shallow embedding of [src/components/ChapterList.tsx].

    Conventions of the embedding.
    - A JavaScript string is a [string]: a sequence of code units below 256
      (the Latin-1 block of UTF-16).
    - [crypto.randomUUID()] draws from a counter: every call returns a value
      never returned before.
    - [addChapter] and [reorderChapters] belong to the store hook
      [useEbookStore], which is outside this component.  The import is
      described by the sequence of chapters it hands to [addChapter], in
      call order; the drag handler by the list it hands to
      [reorderChapters].
    - [await file.text()] either yields the text or rejects; a rejection is
      not caught anywhere in the handler, so it ends the handler and becomes
      the rejection of the promise the handler returns.  The calls of
      [addChapter] made before stay made.
    - [localeCompare] is the collation of the browser and a parameter of the
      import; [arrayMove] is the function of @dnd-kit/sortable. *)

From Stdlib Require Import List String Ascii Bool Arith ZArith NArith Lia.
From Stdlib Require Import QArith_base Permutation Sorted.
Import ListNotations.

Local Close Scope Q_scope.
Local Open Scope string_scope.
Local Open Scope list_scope.

(* ------------------------------------------------------------------ *)
(** ** Strings *)

Module Js.

(** Code unit of a character. *)
Definition code (c : ascii) : N := N_of_ascii c.

Definition inRange (lo hi : N) (c : ascii) : bool :=
  (N.leb lo (code c) && N.leb (code c) hi)%bool.

(** [String.prototype.toLowerCase] on the Latin-1 block: A-Z and the
    accented capitals U+00C0..U+00DE (U+00D7, the multiplication sign, apart)
    move 32 places up; everything else is kept. *)
Definition lowerChar (c : ascii) : ascii :=
  if (inRange 65 90 c
      || (inRange 192 222 c && negb (N.eqb (code c) 215)))%bool
  then ascii_of_N (code c + 32)
  else c.

Fixpoint toLowerCase (s : string) : string :=
  match s with
  | EmptyString => EmptyString
  | String c s' => String (lowerChar c) (toLowerCase s')
  end.

(** [s.startsWith(p)], returning what follows the prefix. *)
Fixpoint dropPrefix (p s : string) : option string :=
  match p, s with
  | EmptyString, _ => Some s
  | String _ _, EmptyString => None
  | String a p', String b s' =>
      if Ascii.eqb a b then dropPrefix p' s' else None
  end.

Definition startsWith (p s : string) : bool :=
  match dropPrefix p s with Some _ => true | None => false end.

(** [s.includes(sub)]. *)
Fixpoint includes (s sub : string) : bool :=
  if startsWith sub s then true
  else match s with
       | EmptyString => false
       | String _ s' => includes s' sub
       end.

(** [s.split('/')]: the pieces between slashes; never empty. *)
Fixpoint split_slash (s : string) : list string :=
  match s with
  | EmptyString => [EmptyString]
  | String c s' =>
      if Ascii.eqb c "/"
      then EmptyString :: split_slash s'
      else match split_slash s' with
           | [] => [String c EmptyString]
           | p :: ps => String c p :: ps
           end
  end.

(** A Number that is not negative and has no fraction, or [Infinity]. *)
Inductive Number : Type :=
| Finite (n : N)
| Infinity.

Definition numberLe (a b : Number) : Prop :=
  match a, b with
  | Finite x, Finite y => (x <= y)%N
  | _, Infinity => True
  | Infinity, Finite _ => False
  end.

(** The Number for a non-negative integer: the nearest double, ties to the
    even significand.  Below 2^53 that is the integer itself; above, the
    53 leading bits are kept and the rest is rounded; what rounds to 2^1024
    or more is [Infinity]. *)
Definition toNumber (n : N) : Number :=
  if N.ltb n (2 ^ 53) then Finite n
  else
    let e := (N.log2 n - 52)%N in
    let q := N.shiftr n e in
    let r := (n - N.shiftl q e)%N in
    let half := N.shiftl 1 (e - 1) in
    let q' :=
      if (N.ltb half r || (N.eqb r half && N.odd q))%bool
      then (q + 1)%N else q in
    let v := N.shiftl q' e in
    if N.ltb v (2 ^ 1024) then Finite v else Infinity.

(** [parseInt], which is only ever applied to a capture of [\d+]: the
    integer the digits denote in radix 10, as a Number.  (The standard lets
    an implementation read the digits after the 20th as zeros; the engines
    round the exact integer, as here.) *)
Definition digitValue (c : ascii) : N := code c - 48.

Definition mathInt (s : string) : N :=
  let fix go (acc : N) (s : string) : N :=
    match s with
    | EmptyString => acc
    | String c s' => go (acc * 10 + digitValue c)%N s'
    end
  in go 0%N s.

Definition parseInt (s : string) : Number := toNumber (mathInt s).

End Js.

(* ------------------------------------------------------------------ *)
(** ** Regular expressions

    The two patterns of the component use literals, greedy [+] over a
    character class, capturing groups and [$].  The matcher below is the
    backtracking matcher of ECMAScript restricted to these forms: it tries
    every start position from the left, takes the longest repetition first
    and gives characters back one at a time when the rest fails. *)

Module Regex.

Inductive t : Type :=
| Str (lit : string)            (* a literal run of characters *)
| Plus (cls : ascii -> bool)    (* cls+ , greedy *)
| Cat (r1 r2 : t)
| Group (r : t)                 (* ( r ) *)
| EndOfInput.                   (* $ , no multiline flag *)

(** [\d] *)
Definition digit (c : ascii) : bool := Js.inRange 48 57 c.

(** [\s] on the Latin-1 block: TAB, LF, VT, FF, CR, space, NBSP. *)
Definition space (c : ascii) : bool :=
  (Js.inRange 9 13 c || N.eqb (Js.code c) 32 || N.eqb (Js.code c) 160)%bool.

(** [.] : anything but a line terminator. *)
Definition dot (c : ascii) : bool :=
  negb (N.eqb (Js.code c) 10 || N.eqb (Js.code c) 13)%bool.

Section Matcher.
Context {A : Type}.

(** After one character of the class was taken: take more, else continue
    with [k]; when the longer attempt fails, stop here. *)
Fixpoint more (cls : ascii -> bool) (s : string) (k : string -> option A)
  : option A :=
  match s with
  | String c s' =>
      if cls c
      then match more cls s' k with
           | Some r => Some r
           | None => k s
           end
      else k s
  | EmptyString => k s
  end.

Definition plus (cls : ascii -> bool) (s : string) (k : string -> option A)
  : option A :=
  match s with
  | String c s' => if cls c then more cls s' k else None
  | EmptyString => None
  end.

(** What was consumed between [s] and its suffix [s']. *)
Definition consumed (s s' : string) : string :=
  substring 0 (String.length s - String.length s') s.

(** [run r s caps k]: match [r] at the front of [s]; [caps] are the
    captures closed so far, [k] is the rest of the pattern. *)
Fixpoint run (r : t) (s : string) (caps : list string)
         (k : string -> list string -> option A) : option A :=
  match r with
  | Str lit =>
      match Js.dropPrefix lit s with
      | Some s' => k s' caps
      | None => None
      end
  | Plus cls => plus cls s (fun s' => k s' caps)
  | Cat r1 r2 => run r1 s caps (fun s' caps' => run r2 s' caps' k)
  | Group r1 =>
      run r1 s caps (fun s' caps' => k s' (caps' ++ [consumed s s']))
  | EndOfInput =>
      match s with
      | EmptyString => k s caps
      | String _ _ => None
      end
  end.
End Matcher.

(** [str.match(re)] without the g flag: the array [m0; m1; m2; ...] of the
    leftmost match, or [None] for null. *)
Fixpoint exec (r : t) (s : string) : option (list string) :=
  match run r s [] (fun s' caps => Some (consumed s s' :: caps)) with
  | Some m => Some m
  | None =>
      match s with
      | EmptyString => None
      | String _ s' => exec r s'
      end
  end.

(** [m[i]] of a match array. *)
Definition at_ (m : list string) (i : nat) : string := nth i m EmptyString.

End Regex.

(** [/BAB (\d+) - (.+)/] *)
Definition chapterFolderRegex : Regex.t :=
  Regex.Cat (Regex.Str "BAB ")
    (Regex.Cat (Regex.Group (Regex.Plus Regex.digit))
       (Regex.Cat (Regex.Str " - ")
          (Regex.Group (Regex.Plus Regex.dot)))).

(** [/(\d+\.\d+)\s+(.+)\.txt$/] *)
Definition subChapterRegex : Regex.t :=
  Regex.Cat
    (Regex.Group
       (Regex.Cat (Regex.Plus Regex.digit)
          (Regex.Cat (Regex.Str ".") (Regex.Plus Regex.digit))))
    (Regex.Cat (Regex.Plus Regex.space)
       (Regex.Cat (Regex.Group (Regex.Plus Regex.dot))
          (Regex.Cat (Regex.Str ".txt") Regex.EndOfInput))).

(* ------------------------------------------------------------------ *)
(** ** Data model *)

Inductive ChapterType : Type := frontmatter | chapter | backmatter.

Definition ChapterType_eqb (a b : ChapterType) : bool :=
  match a, b with
  | frontmatter, frontmatter | chapter, chapter | backmatter, backmatter => true
  | _, _ => false
  end.

(** Identifiers: what [crypto.randomUUID()] returned. *)
Definition Id : Type := nat.

Record SubChapter : Type := mkSubChapter {
  sub_id : Id;
  sub_title : string;
  sub_content : string
}.

Record Chapter : Type := mkChapter {
  id : Id;
  title : string;
  content : string;
  images : list string;
  type : ChapterType;
  indentation : Z;
  lineSpacing : Q;
  subChapters : list SubChapter
}.

(** The reason a read was rejected with (a DOMException of the browser). *)
Record DOMException : Type := mkDOMException {
  exn_name : string;
  exn_message : string
}.

(** What [await file.text()] gives. *)
Inductive TextResult : Type :=
| TextOk (text : string)
| TextFail (reason : DOMException).

(** The fields of a browser [File] the handler reads. *)
Record File : Type := mkFile {
  webkitRelativePath : string;
  name : string;
  text : TextResult
}.

(* ------------------------------------------------------------------ *)
(** ** The handler's effects: fresh identifiers, calls of [addChapter],
       rejection *)

Record World : Type := mkWorld {
  uuids_drawn : nat;          (* how many identifiers were generated *)
  added : list Chapter        (* the arguments of addChapter, in call order *)
}.

Inductive Settled (A : Type) : Type :=
| Fulfilled (a : A)
| Rejected (reason : DOMException).
Arguments Fulfilled {A} a.
Arguments Rejected {A} reason.

Definition Async (A : Type) : Type := World -> World * Settled A.

Definition ret {A : Type} (a : A) : Async A := fun w => (w, Fulfilled a).

Definition bind {A B : Type} (m : Async A) (f : A -> Async B) : Async B :=
  fun w =>
    match m w with
    | (w', Fulfilled a) => f a w'
    | (w', Rejected e) => (w', Rejected e)
    end.

Declare Scope async_scope.
Delimit Scope async_scope with async.
Notation "x <- m ;; k" := (bind m (fun x => k))
  (at level 61, m at next level, right associativity) : async_scope.
Notation "m ;; k" := (bind m (fun _ => k))
  (at level 61, right associativity) : async_scope.
Local Open Scope async_scope.

(** [crypto.randomUUID()] *)
Definition randomUUID : Async Id :=
  fun w => (mkWorld (S (uuids_drawn w)) (added w), Fulfilled (uuids_drawn w)).

(** [addChapter(c)] *)
Definition addChapter (c : Chapter) : Async unit :=
  fun w => (mkWorld (uuids_drawn w) (added w ++ [c]), Fulfilled tt).

(** [await r] for the promise of a read. *)
Definition await (r : TextResult) : Async string :=
  fun w =>
    match r with
    | TextOk s => (w, Fulfilled s)
    | TextFail e => (w, Rejected e)
    end.

(** [for (const x of xs) body(x)] *)
Fixpoint forOf {X : Type} (xs : list X) (body : X -> Async unit) : Async unit :=
  match xs with
  | [] => ret tt
  | x :: xs' => body x ;; forOf xs' body
  end.

(* ------------------------------------------------------------------ *)
(** ** [Map<string, File[]>], iterated in insertion order *)

Module FileMap.

Definition t : Type := list (string * list File).

Fixpoint has (k : string) (m : t) : bool :=
  match m with
  | [] => false
  | (k', _) :: m' => if String.eqb k' k then true else has k m'
  end.

Fixpoint get (k : string) (m : t) : option (list File) :=
  match m with
  | [] => None
  | (k', v) :: m' => if String.eqb k' k then Some v else get k m'
  end.

(** [set]: a present key keeps its place, a new key goes last. *)
Fixpoint set (k : string) (v : list File) (m : t) : t :=
  match m with
  | [] => [(k, v)]
  | (k', v') :: m' =>
      if String.eqb k' k then (k', v) :: m' else (k', v') :: set k v m'
  end.

(** [m.get(k)?.push(f)]: the array stored under [k] grows in place. *)
Definition push (k : string) (f : File) (m : t) : t :=
  match get k m with
  | Some arr => set k (arr ++ [f]) m
  | None => m
  end.

End FileMap.

(* ------------------------------------------------------------------ *)
(** ** [handleBulkUpload] *)

(** Lines 52-63: group the files by the second segment of their path. *)
Definition groupStep (fileGroups : FileMap.t) (file : File) : FileMap.t :=
  let path := webkitRelativePath file in
  let parts := Js.split_slash path in
  if (List.length parts <? 2)%nat then fileGroups
  else
    let parentFolder := nth 1 parts EmptyString in
    let fileGroups :=
      if negb (FileMap.has parentFolder fileGroups)
      then FileMap.set parentFolder [] fileGroups
      else fileGroups in
    FileMap.push parentFolder file fileGroups.

Definition groupFiles (files : list File) : FileMap.t :=
  fold_left groupStep files [].

Definition isFrontmatterFile (file : File) : bool :=
  Js.includes (Js.toLowerCase (name file)) "kata pengantar".

Definition isBackmatterFile (file : File) : bool :=
  Js.includes (Js.toLowerCase (name file)) "penutup".

Section Importer.

(** [a.localeCompare(b)]: negative, zero or positive.  The collation is the
    browser's, so it is a parameter. *)
Variable localeCompare : string -> string -> Z.

(** [Array.prototype.sort] with the comparator
    [(a, b) => a.name.localeCompare(b.name)]: a stable sort. *)
Fixpoint sortInsert (file : File) (sorted : list File) : list File :=
  match sorted with
  | [] => [file]
  | g :: rest =>
      if (localeCompare (name file) (name g) <=? 0)%Z
      then file :: sorted
      else g :: sortInsert file rest
  end.

Definition sortByName (files : list File) : list File :=
  fold_right sortInsert [] files.

(** Lines 100-110: the loop over the sorted files of one folder;
    [subChapters] is the array being filled. *)
Fixpoint collectSubChapters (sortedFiles : list File)
         (subChapters : list SubChapter) : Async (list SubChapter) :=
  match sortedFiles with
  | [] => ret subChapters
  | file :: rest =>
      match Regex.exec subChapterRegex (name file) with
      | None => collectSubChapters rest subChapters
      | Some subChapterMatch =>
          content <- await (text file) ;;
          subId <- randomUUID ;;
          collectSubChapters rest
            (subChapters
               ++ [mkSubChapter subId (Regex.at_ subChapterMatch 2) content])
      end
  end.

(** Lines 86-123: the body of the loop over the folders. *)
Definition processFolder (entry : string * list File) : Async unit :=
  let '(folderName, folderFiles) := entry in
  match Regex.exec chapterFolderRegex folderName with
  | None => ret tt
  | Some chapterMatch =>
      let chapterNumber := Js.parseInt (Regex.at_ chapterMatch 1) in
      let chapterTitle := Regex.at_ chapterMatch 2 in
      chapterId <- randomUUID ;;
      let sortedFiles := sortByName folderFiles in
      subChapters <- collectSubChapters sortedFiles [] ;;
      if (0 <? List.length subChapters)%nat
      then addChapter
             (mkChapter chapterId chapterTitle "" [] chapter 0 (Qmake 3 2)
                subChapters)
      else ret tt
  end.

(** Lines 66-82 and 127-143: the marker file, if there is one. *)
Definition processMarker (found : option File) (fixedTitle : string)
           (ty : ChapterType) : Async unit :=
  match found with
  | Some file =>
      content <- await (text file) ;;
      newId <- randomUUID ;;
      addChapter (mkChapter newId fixedTitle content [] ty 0 (Qmake 3 2) [])
  | None => ret tt
  end.

Definition handleBulkUpload (files : list File) : Async unit :=
  if (List.length files =? 0)%nat then ret tt
  else
    let fileGroups := groupFiles files in
    let frontmatterFile := find isFrontmatterFile files in
    processMarker frontmatterFile "Kata Pengantar" frontmatter ;;
    forOf fileGroups processFolder ;;
    let backmatterFile := find isBackmatterFile files in
    processMarker backmatterFile "Penutup" backmatter.

(** One import, started with no identifier drawn and no call made. *)
Definition emptyWorld : World := mkWorld 0 [].

Definition importRun (files : list File) : World * Settled unit :=
  handleBulkUpload files emptyWorld.

(** The chapters handed to [addChapter], in order. *)
Definition importCalls (files : list File) : list Chapter :=
  added (fst (importRun files)).

(** How the promise of the handler settles. *)
Definition importSettled (files : list File) : Settled unit :=
  snd (importRun files).

End Importer.

(** Comparison by code units, an instance of the collation parameter. *)
Fixpoint codeUnitCompare (a b : string) : Z :=
  match a, b with
  | EmptyString, EmptyString => 0
  | EmptyString, String _ _ => -1
  | String _ _, EmptyString => 1
  | String x a', String y b' =>
      match N.compare (Js.code x) (Js.code y) with
      | Lt => -1
      | Gt => 1
      | Eq => codeUnitCompare a' b'
      end
  end.

(* ------------------------------------------------------------------ *)
(** ** Rendering (lines 152-154 and 214-245) *)

Definition isType (ty : ChapterType) (ch : Chapter) : bool :=
  ChapterType_eqb (type ch) ty.

Definition frontmatterChapters (chapters : list Chapter) : list Chapter :=
  filter (isType frontmatter) chapters.

Definition mainChapters (chapters : list Chapter) : list Chapter :=
  filter (isType chapter) chapters.

Definition backmatterChapters (chapters : list Chapter) : list Chapter :=
  filter (isType backmatter) chapters.

(** [arr.findIndex(p)]: the first index, or -1. *)
Fixpoint findIndexFrom {X : Type} (p : X -> bool) (xs : list X) (i : Z) : Z :=
  match xs with
  | [] => (-1)%Z
  | x :: xs' => if p x then i else findIndexFrom p xs' (i + 1)%Z
  end.

Definition findIndex {X : Type} (p : X -> bool) (xs : list X) : Z :=
  findIndexFrom p xs 0%Z.

(** [arr.map((x, index) => f(x, index))] *)
Fixpoint mapWithIndex {X Y : Type} (f : X -> nat -> Y) (from : nat)
         (xs : list X) : list Y :=
  match xs with
  | [] => []
  | x :: xs' => f x from :: mapWithIndex f (S from) xs'
  end.

(** [arr.indexOf(x)]: the first index, or -1.  JavaScript compares objects
    by identity; here two chapters are the same when all their fields
    agree.  For a list whose identifiers are distinct the two coincide: the
    index of the chapter at a position is that position
    ([indexOf_is_the_position]). *)
Definition Chapter_eq_dec (a b : Chapter) : {a = b} + {a <> b}.
Proof. repeat decide equality. Defined.

Definition indexOf (chapters : list Chapter) (ch : Chapter) : Z :=
  findIndex (fun x => if Chapter_eq_dec x ch then true else false) chapters.

(** The properties given to a [ChapterItem]: [chapter], which is the stored
    chapter, with [pageNumber] set for the main chapters, and [index], the
    place of the chapter in the stored list.  ([key] repeats the chapter's
    identifier; [isExpanded] and [onToggleExpand] are constant.) *)
Record ChapterItem : Type := mkChapterItem {
  item_chapter : Chapter;
  item_pageNumber : option nat;
  item_index : Z
}.

(** Front and back matter: [chapters.map(chapter => ...)] without number. *)
Definition plainItem (chapters : list Chapter) (ch : Chapter) : ChapterItem :=
  mkChapterItem ch None (indexOf chapters ch).

(** [mainChapters.map((chapter, index) => ({...chapter, pageNumber: index + 1}))] *)
Definition numberedItem (chapters : list Chapter) (ch : Chapter) (index : nat)
  : ChapterItem :=
  mkChapterItem ch (Some (index + 1)) (indexOf chapters ch).

Definition numberedMainChapters (chapters : list Chapter) : list ChapterItem :=
  mapWithIndex (numberedItem chapters) 0 (mainChapters chapters).

(** The children of the sortable context, top to bottom. *)
Definition render (chapters : list Chapter) : list ChapterItem :=
  map (plainItem chapters) (frontmatterChapters chapters)
  ++ numberedMainChapters chapters
  ++ map (plainItem chapters) (backmatterChapters chapters).

Definition item_type (it : ChapterItem) : ChapterType := type (item_chapter it).

(** Appending creation requests goes through the store's [addChapter],
    one call per request; the store's function is a parameter here. *)
Definition appendAll (storeAdd : list Chapter -> Chapter -> list Chapter)
           (current created : list Chapter) : list Chapter :=
  fold_left storeAdd created current.

(* ------------------------------------------------------------------ *)
(** ** [handleDragEnd] (lines 36-43) *)

(** [arr.splice(start, deleteCount, ...items)]: the array afterwards and the
    removed elements.  A negative [start] counts from the end; both numbers
    are clamped to the array. *)
Definition splice {X : Type} (arr : list X) (start deleteCount : Z)
           (items : list X) : list X * list X :=
  let len := Z.of_nat (List.length arr) in
  let actualStart :=
    if (start <? 0)%Z then Z.max (len + start) 0 else Z.min start len in
  let actualDeleteCount := Z.min (Z.max deleteCount 0) (len - actualStart) in
  let a := Z.to_nat actualStart in
  let d := Z.to_nat actualDeleteCount in
  (firstn a arr ++ items ++ skipn (a + d) arr, firstn d (skipn a arr)).

(** [arrayMove] of @dnd-kit/sortable:
    [const newArray = array.slice();
     newArray.splice(to < 0 ? newArray.length + to : to, 0,
                     newArray.splice(from, 1)[0]);
     return newArray;]
    The first argument of the outer [splice] is evaluated before the inner
    [splice] shortens the array.  A slot is [None] when it holds
    [undefined], which is what [[][0]] gives. *)
Definition arrayMove {X : Type} (array : list X) (from to : Z)
  : list (option X) :=
  let newArray := array in
  let target :=
    if (to <? 0)%Z then (Z.of_nat (List.length newArray) + to)%Z else to in
  let '(newArray, removed) := splice newArray from 1 [] in
  fst (splice (map Some newArray) target 0 [nth_error removed 0]).

(** The drag event: the dragged item and the item it was dropped over,
    which is null when it was dropped outside the list. *)
Record DragEndEvent : Type := mkDragEndEvent {
  active_id : Id;
  over_id : option Id
}.

Inductive DragOutcome : Type :=
| ThrewTypeError                                  (* reading [id] of null *)
| NoCall                                          (* nothing done *)
| ReorderChapters (arg : list (option Chapter)).  (* reorderChapters(arg) *)

Definition handleDragEnd (chapters : list Chapter) (event : DragEndEvent)
  : DragOutcome :=
  match over_id event with
  | None => ThrewTypeError
  | Some over =>
      if negb (Nat.eqb (active_id event) over)
      then
        let oldIndex :=
          findIndex (fun ch => Nat.eqb (id ch) (active_id event)) chapters in
        let newIndex := findIndex (fun ch => Nat.eqb (id ch) over) chapters in
        ReorderChapters (arrayMove chapters oldIndex newIndex)
      else NoCall
  end.

(** The reply of the store to [reorderChapters]: the list it holds
    afterwards, or the refusal with the list unchanged. *)
Inductive StoreReply : Type :=
| Stored (chapters : list Chapter)
| InvalidReorder (unchanged : list Chapter).

(** The same identifiers, each as often. *)
Definition samePopulation (xs ys : list Id) : bool :=
  forallb (fun i => Nat.eqb (count_occ Nat.eq_dec xs i) (count_occ Nat.eq_dec ys i))
          (xs ++ ys).

(** The elements of an array without [undefined] slot. *)
Fixpoint definedSlots {X : Type} (slots : list (option X)) : option (list X) :=
  match slots with
  | [] => Some []
  | None :: _ => None
  | Some x :: rest =>
      match definedSlots rest with
      | Some xs => Some (x :: xs)
      | None => None
      end
  end.

(** Modelled from the spec: the store's [reorderChapters] is not among the
    sources.  Contract B: the list becomes the supplied one, in exactly the
    given order, when the supplied identifiers are a permutation of the
    current ones (none missing, none twice, none unknown); otherwise the
    call fails with [InvalidReorder] and the list stays as it was. *)
Definition reorderChapters (current : list Chapter)
           (supplied : list (option Chapter)) : StoreReply :=
  match definedSlots supplied with
  | Some new =>
      if samePopulation (map id current) (map id new)
      then Stored new
      else InvalidReorder current
  | None => InvalidReorder current
  end.

(** A drag gesture from the event to the store's reply. *)
Definition dragReorder (current : list Chapter) (event : DragEndEvent)
  : option StoreReply :=
  match handleDragEnd current event with
  | ReorderChapters arg => Some (reorderChapters current arg)
  | NoCall | ThrewTypeError => None
  end.

(* ------------------------------------------------------------------ *)
(** ** Vocabulary of the statements *)

(** Front matter, body, back matter: the three segments in reading order. *)
Definition segmentRank (ty : ChapterType) : nat :=
  match ty with
  | frontmatter => 0
  | chapter => 1
  | backmatter => 2
  end.

(** Every item of an earlier segment stands above every item of a later one. *)
Definition segmentOrdered (items : list ChapterItem) : Prop :=
  forall i j a b,
    nth_error items i = Some a ->
    nth_error items j = Some b ->
    segmentRank (item_type a) < segmentRank (item_type b) ->
    i < j.

(** How many main chapters stand strictly before position [p]. *)
Definition mainBefore (chapters : list Chapter) (p : nat) : nat :=
  List.length (mainChapters (firstn p chapters)).

(** The folder a file is grouped under: the second segment of its path. *)
Definition parentFolderOf (file : File) : option string :=
  let parts := Js.split_slash (webkitRelativePath file) in
  if (List.length parts <? 2)%nat then None else Some (nth 1 parts EmptyString).

Definition inFolder (folder : string) (file : File) : bool :=
  match parentFolderOf file with
  | Some k => String.eqb k folder
  | None => false
  end.

(** The distinct elements of a list, each at its first occurrence. *)
Definition firstSeen (keys : list string) : list string :=
  fold_left
    (fun seen k => if existsb (String.eqb k) seen then seen else seen ++ [k])
    keys [].

(** The folders of a batch, in the order in which the batch first shows them. *)
Definition foldersInOrder (files : list File) : list string :=
  firstSeen
    (flat_map
       (fun f => match parentFolderOf f with Some k => [k] | None => [] end)
       files).

(** The map built by the grouping loop, described key by key. *)
Definition groupsOf (files : list File) (keys : list string) : FileMap.t :=
  map (fun k => (k, filter (inFolder k) files)) keys.

(** The title and the number a folder name carries, if it has the form
    of a chapter folder. *)
Definition chapterFolderTitle (folder : string) : option string :=
  match Regex.exec chapterFolderRegex folder with
  | Some m => Some (Regex.at_ m 2)
  | None => None
  end.

Definition chapterFolderNumber (folder : string) : option Js.Number :=
  match Regex.exec chapterFolderRegex folder with
  | Some m => Some (Js.parseInt (Regex.at_ m 1))
  | None => None
  end.

(** A file whose name has the form of a sub-chapter file, and the title
    its name carries. *)
Definition matchesSubChapter (file : File) : bool :=
  match Regex.exec subChapterRegex (name file) with
  | Some _ => true
  | None => false
  end.

Definition subChapterTitle (file : File) : string :=
  match Regex.exec subChapterRegex (name file) with
  | Some m => Regex.at_ m 2
  | None => EmptyString
  end.

(** [sc] is the sub-chapter made from [file]: the title of its name and the
    text that was read from it. *)
Definition subChapterOf (file : File) (sc : SubChapter) : Prop :=
  sub_title sc = subChapterTitle file /\ text file = TextOk (sub_content sc).

(** A folder with at least one sub-chapter file in the batch. *)
Definition hasSubChapterFile (files : list File) (folder : string) : bool :=
  existsb (fun f => (inFolder folder f && matchesSubChapter f)%bool) files.

(** The chapter titles one folder contributes when all its reads succeed. *)
Definition folderTitles (entry : string * list File) : list string :=
  match chapterFolderTitle (fst entry) with
  | Some t => if existsb matchesSubChapter (snd entry) then [t] else []
  | None => []
  end.

(** [cs] is what a marker file contributes: nothing, or one chapter of type
    [ty] with the fixed title, whose content is the text read from the first
    file of the batch that satisfies [isMarker]. *)
Definition markerRequest (files : list File) (isMarker : File -> bool)
           (fixedTitle : string) (ty : ChapterType) (cs : list Chapter) : Prop :=
  cs = []
  \/ exists newId file txt,
      find isMarker files = Some file
      /\ text file = TextOk txt
      /\ cs = [mkChapter newId fixedTitle txt [] ty 0 (Qmake 3 2) []].

(** [c] is the request of a chapter folder of the batch: a main chapter
    without content of its own, with at least one sub-chapter, each made
    from a sub-chapter file of that folder. *)
Definition folderRequest (files : list File) (c : Chapter) : Prop :=
  exists newId folder subs,
    In folder (foldersInOrder files)
    /\ chapterFolderTitle folder = Some (title c)
    /\ subs <> []
    /\ Forall (fun sc => exists f,
                   In f files /\ inFolder folder f = true
                   /\ matchesSubChapter f = true /\ subChapterOf f sc) subs
    /\ c = mkChapter newId (title c) "" [] chapter 0 (Qmake 3 2) subs.

(** The titles of the chapter folders that have a sub-chapter file, in the
    order in which the batch first shows the folders. *)
Definition chapterTitlesInOrder (files : list File) : list string :=
  flat_map
    (fun folder =>
       match chapterFolderTitle folder with
       | Some t => if hasSubChapterFile files folder then [t] else []
       | None => []
       end)
    (foldersInOrder files).

(** A folder that makes a chapter request when its reads succeed: its name
    has the form of a chapter folder and it has a sub-chapter file. *)
Definition makesRequest (files : list File) (folder : string) : bool :=
  match chapterFolderTitle folder with
  | Some _ => hasSubChapterFile files folder
  | None => false
  end.

(** What can be observed of an import: the requests and how the handler's
    promise settled.  A fulfilled promise carries no value. *)
Definition importObserved (localeCompare : string -> string -> Z)
           (files : list File) : list Chapter * Settled unit :=
  (importCalls localeCompare files, importSettled localeCompare files).

(** [f] is not after [g] in the collation of the names. *)
Definition nameNotAfter (localeCompare : string -> string -> Z) (f g : File)
  : Prop :=
  (localeCompare (name f) (name g) <= 0)%Z.

(** The chapter requests [cs] can be traced to folders of the batch whose
    parsed numbers ascend along the sequence. *)
Definition inAscendingNumberOrder (files : list File) (cs : list Chapter) : Prop :=
  exists folders numbers,
    Forall2 (fun folder c =>
               In folder (foldersInOrder files)
               /\ chapterFolderTitle folder = Some (title c))
            folders cs
    /\ map chapterFolderNumber folders = map Some numbers
    /\ Sorted Js.numberLe numbers.


(** The titles the handler gives to front and back matter. *)
Definition hasFixedTitle (c : Chapter) : Prop :=
  match type c with
  | frontmatter => title c = "Kata Pengantar"
  | backmatter => title c = "Penutup"
  | chapter => True
  end.

(* ------------------------------------------------------------------ *)
(** ** Sample batches *)

(** A readable file. *)
Definition readable (path fileName txt : string) : File :=
  mkFile path fileName (TextOk txt).

(** What the browser reports for a file it cannot read. *)
Definition notReadable : DOMException :=
  mkDOMException "NotReadableError" "The requested file could not be read".

(** The two files of the folder "BAB 3 - Awal" beneath the uploaded folder
    [root]. *)
Definition pembuka (root txt : string) : File :=
  readable (root ++ "/BAB 3 - Awal/3.1 Pembuka.txt") "3.1 Pembuka.txt" txt.

Definition lanjutan (root txt : string) : File :=
  readable (root ++ "/BAB 3 - Awal/3.2 Lanjutan.txt") "3.2 Lanjutan.txt" txt.

(** The request the example expects for that folder. *)
Definition awal (txt1 txt2 : string) : Chapter :=
  mkChapter 0 "Awal" "" [] chapter 0 (Qmake 3 2)
            [mkSubChapter 1 "Pembuka" txt1; mkSubChapter 2 "Lanjutan" txt2].

(** Folder 2 is listed before folder 1. *)
Definition batchTwoBeforeOne : list File :=
  [ readable "Buku/BAB 2 - Dua/2.1 Isi.txt" "2.1 Isi.txt" "isi dua";
    readable "Buku/BAB 1 - Satu/1.1 Isi.txt" "1.1 Isi.txt" "isi satu" ].

(** Two folders with the same title; folder 2 is listed first. *)
Definition batchSameTitle : list File :=
  [ readable "Buku/BAB 2 - Isi/2.1 A.txt" "2.1 A.txt" "dari bab 2";
    readable "Buku/BAB 1 - Isi/1.1 A.txt" "1.1 A.txt" "dari bab 1" ].


(** A chapter folder whose only file is not a sub-chapter file. *)
Definition batchNoSubChapter : list File :=
  [ readable "Buku/BAB 2 - X/catatan.md" "catatan.md" "catatan" ].





(** A sub-chapter file whose title is a marker. *)
Definition subChapterNamedFront (txt : string) : File :=
  readable "Buku/BAB 1 - Pendahuluan/1.1 Kata Pengantar.txt"
           "1.1 Kata Pengantar.txt" txt.

Definition subChapterNamedBack (txt : string) : File :=
  readable "Buku/BAB 9 - Akhir/9.1 Penutup.txt" "9.1 Penutup.txt" txt.


(** Marker files whose names are not the titles. *)
Definition batchMarkers : list File :=
  [ readable "Buku/KATA PENGANTAR edisi 2.txt" "KATA PENGANTAR edisi 2.txt" "a";
    readable "Buku/catatan penutup.txt" "catatan penutup.txt" "z" ].

(** Three stored chapters with identifiers 1, 2, 3. *)
Definition stored (i : Id) (ty : ChapterType) : Chapter :=
  mkChapter i "Bab" "" [] ty 0 (Qmake 3 2) [].

Definition threeChapters : list Chapter :=
  [stored 1 chapter; stored 2 chapter; stored 3 chapter].

(* ------------------------------------------------------------------ *)
(** ** [handleAddChapter] (lines 17-34) and the events of the component *)

Definition defaultTitles (ty : ChapterType) : string :=
  match ty with
  | frontmatter => "Kata Pengantar"
  | chapter => "Bab Baru"
  | backmatter => "Penutup"
  end.

Definition handleAddChapter (ty : ChapterType) : Async unit :=
  newId <- randomUUID ;;
  addChapter (mkChapter newId (defaultTitles ty) "" [] ty 0 (Qmake 3 2) []).

(** The two events that lead to calls of [addChapter]: a click on one of
    the three buttons, and the choice of files in the upload input. *)
Inductive UiEvent : Type :=
| AddClicked (ty : ChapterType)
| FilesChosen (files : list File).

Definition handleEvent (localeCompare : string -> string -> Z) (event : UiEvent)
  : Async unit :=
  match event with
  | AddClicked ty => handleAddChapter ty
  | FilesChosen files => handleBulkUpload localeCompare files
  end.

(** The handlers run one after the other; a handler that is rejected ends,
    and the next event is handled as usual. *)
Fixpoint afterEvents (localeCompare : string -> string -> Z)
         (events : list UiEvent) (w : World) : World :=
  match events with
  | [] => w
  | event :: rest =>
      afterEvents localeCompare rest (fst (handleEvent localeCompare event w))
  end.

(** The identifiers of chapters and of their sub-chapters. *)
Definition allIds (cs : list Chapter) : list Id :=
  flat_map (fun c => id c :: map sub_id (subChapters c)) cs.

(** Every character of [s] is in the class. *)
Fixpoint allOf (cls : ascii -> bool) (s : string) : bool :=
  match s with
  | EmptyString => true
  | String c s' => (cls c && allOf cls s')%bool
  end.

(** [s] is empty or starts with a character outside the class. *)
Definition stopsRun (cls : ascii -> bool) (s : string) : bool :=
  match s with
  | EmptyString => true
  | String c _ => negb (cls c)
  end.

(** A line terminator, the complement of [.] *)
Definition lineTerminator (c : ascii) : bool := negb (Regex.dot c).

(** Line 211: the [items] of the sortable context, in stored order. *)
Definition sortableItems (chapters : list Chapter) : list Id :=
  map id chapters.

(** The stored list itself has front matter before main chapters before
    back matter. *)
Definition inSegmentOrder (chapters : list Chapter) : Prop :=
  StronglySorted
    (fun a b => segmentRank (type a) <= segmentRank (type b)) chapters.

(** No identifier is used twice among the chapters handed to [addChapter]
    and their sub-chapters, and each of them was drawn. *)
Definition freshWorld (w : World) : Prop :=
  NoDup (allIds (added w))
  /\ Forall (fun i => i < uuids_drawn w) (allIds (added w)).

(** [w'] comes after [w]: more identifiers were drawn, and the chapters
    added since carry identifiers drawn since, each once. *)
Definition extends (w w' : World) : Prop :=
  uuids_drawn w <= uuids_drawn w'
  /\ exists new,
      added w' = added w ++ new
      /\ NoDup (allIds new)
      /\ Forall (fun i => uuids_drawn w <= i < uuids_drawn w') (allIds new).

(** The attributes every created chapter starts with. *)
Definition hasDefaults (c : Chapter) : Prop :=
  images c = [] /\ indentation c = 0%Z /\ lineSpacing c = Qmake 3 2
  /\ title c <> EmptyString
  /\ hasFixedTitle c
  /\ match type c with
     | chapter => content c = EmptyString
     | frontmatter | backmatter => subChapters c = []
     end.

(** A file that an import reads: the first front-matter file, the first
    back-matter file, and the sub-chapter files of chapter folders. *)
Definition isRead (files : list File) (f : File) : Prop :=
  find isFrontmatterFile files = Some f
  \/ find isBackmatterFile files = Some f
  \/ (matchesSubChapter f = true
      /\ exists folder,
          parentFolderOf f = Some folder
          /\ chapterFolderTitle folder <> None).

(** Between [w] and [w'] chapters were only added, each with property [P]. *)
Definition addsOnly (P : Chapter -> Prop) (w w' : World) : Prop :=
  exists new, added w' = added w ++ new /\ Forall P new.

(** A chapter folder with one sub-chapter file and an image that cannot
    be read. *)
Definition batchWithUnreadableImage : list File :=
  [ mkFile "Buku/BAB 1 - A/gambar.png" "gambar.png" (TextFail notReadable);
    readable "Buku/BAB 1 - A/1.1 Satu.txt" "1.1 Satu.txt" "isi" ].

(** The chapter [c] with all its identifiers moved up by [n]. *)
Definition shiftSubChapter (n : nat) (sc : SubChapter) : SubChapter :=
  mkSubChapter (n + sub_id sc) (sub_title sc) (sub_content sc).

Definition shiftChapter (n : nat) (c : Chapter) : Chapter :=
  mkChapter (n + id c) (title c) (content c) (images c) (type c)
            (indentation c) (lineSpacing c)
            (map (shiftSubChapter n) (subChapters c)).

(** What a handler does from [emptyWorld], done after [w] instead. *)
Definition after (w w0 : World) : World :=
  mkWorld (uuids_drawn w + uuids_drawn w0)
          (added w ++ map (shiftChapter (uuids_drawn w)) (added w0)).

(** The handler [m] looks neither at what was drawn nor at what was added
    before. *)
Definition independent (m : Async unit) : Prop :=
  forall w, m w = (after w (fst (m emptyWorld)), snd (m emptyWorld)).

(** [c] is the request made for the chapter folder [folder] of the batch:
    a main chapter with the folder's title and one sub-chapter for each
    sub-chapter file beneath the folder, in the sorted order of the files. *)
Definition requestOfFolder (localeCompare : string -> string -> Z)
           (files : list File) (folder : string) (c : Chapter) : Prop :=
  type c = chapter
  /\ chapterFolderTitle folder = Some (title c)
  /\ Forall2 subChapterOf
             (filter matchesSubChapter
                     (sortByName localeCompare (filter (inFolder folder) files)))
             (subChapters c).

(** The reason of the first read that fails, when the files are read in
    this order. *)
Fixpoint firstFailure (reads : list File) : option DOMException :=
  match reads with
  | [] => None
  | f :: rest =>
      match text f with
      | TextFail e => Some e
      | TextOk _ => firstFailure rest
      end
  end.

(** The files the import reads, in the order in which it reads them: the
    first file with the front-matter marker; then, folder by folder as the
    batch first shows them, the sub-chapter files of each chapter folder in
    the sorted order of the folder; then the first file with the back-matter
    marker.  Nothing else is read, and a read that fails ends the import, so
    the files after it are not read. *)
Definition markerReads (found : option File) : list File :=
  match found with
  | Some file => [file]
  | None => []
  end.

Definition folderReads (localeCompare : string -> string -> Z)
           (files : list File) (folder : string) : list File :=
  match chapterFolderTitle folder with
  | Some _ =>
      filter matchesSubChapter
             (sortByName localeCompare (filter (inFolder folder) files))
  | None => []
  end.

Definition readsInOrder (localeCompare : string -> string -> Z)
           (files : list File) : list File :=
  markerReads (find isFrontmatterFile files)
  ++ flat_map (folderReads localeCompare files) (foldersInOrder files)
  ++ markerReads (find isBackmatterFile files).

(** How an import settles whose first failing read, if any, is [failure]. *)
Definition settledBy (failure : option DOMException) : Settled unit :=
  match failure with
  | Some e => Rejected e
  | None => Fulfilled tt
  end.

(** The list without its element at position [i]. *)
Definition without {X : Type} (i : nat) (xs : list X) : list X :=
  firstn i xs ++ skipn (S i) xs.

(* ------------------------------------------------------------------ *)
(** * Properties *)

Example chapterFolder_match :
  Regex.exec chapterFolderRegex "BAB 3 - Awal" = Some ["BAB 3 - Awal"; "3"; "Awal"].
Proof. reflexivity. Qed.

Example subChapter_match :
  Regex.exec subChapterRegex "3.1 Pembuka.txt"
  = Some ["3.1 Pembuka.txt"; "3.1"; "Pembuka"].
Proof. reflexivity. Qed.

Example subChapter_backtrack :
  Regex.exec subChapterRegex "x1.2  .txt" = Some ["1.2  .txt"; "1.2"; " "].
Proof. reflexivity. Qed.

Example subChapter_nomatch :
  Regex.exec subChapterRegex "catatan.md" = None.
Proof. reflexivity. Qed.

Example chapterFolder_leftmost :
  Regex.exec chapterFolderRegex "Arsip BAB x, BAB 12 - A - B"
  = Some ["BAB 12 - A - B"; "12"; "A - B"].
Proof. reflexivity. Qed.

Example chapterFolder_two_spaces :
  Regex.exec chapterFolderRegex "BAB  1 - Awal" = None.
Proof. reflexivity. Qed.

Example subChapter_later_start :
  Regex.exec subChapterRegex "1.2.3 x.txt" = Some ["2.3 x.txt"; "2.3"; "x"].
Proof. reflexivity. Qed.

Example subChapter_greedy_title :
  Regex.exec subChapterRegex "1.1 a.txt.txt"
  = Some ["1.1 a.txt.txt"; "1.1"; "a.txt"].
Proof. reflexivity. Qed.

Example subChapter_case_of_extension :
  Regex.exec subChapterRegex "1.1 a.TXT" = None.
Proof. reflexivity. Qed.

(** [parseInt] of a run of digits: exact up to 2^53, then the nearest
    double, ties to the even significand. *)
Example parseInt_rounds_to_a_double :
  Js.parseInt "12" = Js.Finite 12
  /\ Js.parseInt "007" = Js.Finite 7
  /\ Js.parseInt "9007199254740992" = Js.Finite 9007199254740992
  /\ Js.parseInt "9007199254740993" = Js.Finite 9007199254740992
  /\ Js.parseInt "9007199254740995" = Js.Finite 9007199254740996
  /\ Js.parseInt "123456789012345678901234567890"
     = Js.Finite 123456789012345677877719597056.
Proof. repeat split; vm_compute; reflexivity. Qed.

Example split_slash_segments :
  Js.split_slash "Buku/BAB 3 - Awal/3.1 Pembuka.txt"
  = ["Buku"; "BAB 3 - Awal"; "3.1 Pembuka.txt"]
  /\ Js.split_slash "a//b" = ["a"; ""; "b"]
  /\ Js.split_slash "" = [""].
Proof. repeat split; reflexivity. Qed.

Example groupFiles_keeps_first_seen_order :
  map fst (groupFiles batchTwoBeforeOne) = ["BAB 2 - Dua"; "BAB 1 - Satu"].
Proof. reflexivity. Qed.

(* ------------------------------------------------------------------ *)
(** ** Rendering *)

Lemma isType_true (ty : ChapterType) (ch : Chapter) :
  isType ty ch = true <-> type ch = ty.
Proof.
  unfold isType. destruct (type ch), ty; simpl; split; congruence.
Qed.

Lemma mapWithIndex_length {X Y : Type} (f : X -> nat -> Y) (xs : list X) :
  forall from, List.length (mapWithIndex f from xs) = List.length xs.
Proof.
  induction xs as [|x xs IH]; intros from; simpl; [reflexivity|].
  now rewrite IH.
Qed.

Lemma mapWithIndex_nth {X Y : Type} (f : X -> nat -> Y) (xs : list X) :
  forall from n x,
    nth_error xs n = Some x ->
    nth_error (mapWithIndex f from xs) n = Some (f x (from + n)).
Proof.
  induction xs as [|y xs IH]; intros from n x H.
  - destruct n; discriminate.
  - destruct n as [|n]; simpl in *.
    + injection H as ->. now rewrite Nat.add_0_r.
    + rewrite (IH (S from) n x H). f_equal. f_equal. lia.
Qed.

Lemma mapWithIndex_In {X Y : Type} (f : X -> nat -> Y) (xs : list X) :
  forall from y,
    In y (mapWithIndex f from xs) -> exists x n, In x xs /\ y = f x n.
Proof.
  induction xs as [|x xs IH]; intros from y H; simpl in H; [contradiction|].
  destruct H as [<-|H].
  - exists x, from. split; [now left | reflexivity].
  - destruct (IH _ _ H) as (x' & n & Hin & ->).
    exists x', n. split; [now right | reflexivity].
Qed.

Lemma mapWithIndex_fst {X Y Z : Type} (f : X -> nat -> Y) (g : Y -> Z) (h : X -> Z)
      (xs : list X) :
  (forall x n, g (f x n) = h x) ->
  forall from, map g (mapWithIndex f from xs) = map h xs.
Proof.
  intros Hg. induction xs as [|x xs IH]; intros from; simpl; [reflexivity|].
  now rewrite Hg, IH.
Qed.

Lemma mapWithIndex_seq {X Y : Type} (f : X -> nat -> Y) (g : Y -> option nat)
      (xs : list X) :
  (forall x n, g (f x n) = Some (n + 1)) ->
  forall from,
    map g (mapWithIndex f from xs)
    = map Some (seq (from + 1) (List.length xs)).
Proof.
  intros Hg. induction xs as [|x xs IH]; intros from; simpl; [reflexivity|].
  rewrite Hg, IH. reflexivity.
Qed.

(** Where an item of the rendered list comes from. *)
Lemma render_nth (chapters : list Chapter) (i : nat) (a : ChapterItem) :
  nth_error (render chapters) i = Some a ->
  let nf := List.length (frontmatterChapters chapters) in
  let nm := List.length (mainChapters chapters) in
  (i < nf /\ item_type a = frontmatter)
  \/ (nf <= i < nf + nm /\ item_type a = chapter)
  \/ (nf + nm <= i /\ item_type a = backmatter).
Proof.
  intros H nf nm. unfold render in H.
  assert (Hty : forall ty l it,
             In it (map (plainItem chapters) (filter (isType ty) l)) ->
             item_type it = ty).
  { intros ty l it Hin. apply in_map_iff in Hin as (ch & <- & Hch).
    apply filter_In in Hch as [_ Hch]. now apply isType_true in Hch. }
  destruct (Nat.lt_ge_cases i nf) as [Hlt|Hge].
  - left. split; [exact Hlt|].
    rewrite nth_error_app1 in H by (now rewrite length_map).
    apply nth_error_In in H. now apply Hty in H.
  - right. rewrite nth_error_app2 in H by (now rewrite length_map).
    rewrite length_map in H. fold nf in H.
    destruct (Nat.lt_ge_cases (i - nf) nm) as [Hlt|Hge'].
    + left. split; [lia|].
      rewrite nth_error_app1 in H
        by (unfold numberedMainChapters; now rewrite mapWithIndex_length).
      apply nth_error_In in H. unfold numberedMainChapters in H.
      apply mapWithIndex_In in H as (ch & n & Hin & ->).
      apply filter_In in Hin as [_ Hin]. now apply isType_true in Hin.
    + right. split; [lia|].
      rewrite nth_error_app2 in H
        by (unfold numberedMainChapters; now rewrite mapWithIndex_length).
      apply nth_error_In in H. now apply Hty in H.
Qed.

Lemma render_segmentOrdered (chapters : list Chapter) :
  segmentOrdered (render chapters).
Proof.
  intros i j a b Ha Hb Hrank.
  apply render_nth in Ha. apply render_nth in Hb. cbv zeta in Ha, Hb.
  destruct Ha as [[Hi Ta]|[[Hi Ta]|[Hi Ta]]];
    destruct Hb as [[Hj Tb]|[[Hj Tb]|[Hj Tb]]];
    rewrite Ta, Tb in Hrank; simpl in Hrank; lia.
Qed.

(** C2.  Whatever the store's [addChapter] does with each creation request,
    the list that is displayed after the requests were appended keeps the
    segments apart: in the displayed sequence every front-matter item stands
    at a smaller position than every main chapter, and every main chapter at
    a smaller position than every back-matter item (and so every
    front-matter item than every back-matter item). *)
Theorem displayed_after_append_segmentOrdered
        (storeAdd : list Chapter -> Chapter -> list Chapter)
        (current created : list Chapter) :
  let shown := render (appendAll storeAdd current created) in
  (forall i j a b,
      nth_error shown i = Some a -> nth_error shown j = Some b ->
      item_type a = frontmatter -> item_type b = chapter -> i < j)
  /\ (forall i j a b,
      nth_error shown i = Some a -> nth_error shown j = Some b ->
      item_type a = chapter -> item_type b = backmatter -> i < j)
  /\ segmentOrdered shown.
Proof.
  intros shown.
  pose proof (render_segmentOrdered (appendAll storeAdd current created)) as H.
  fold shown in H.
  repeat split; [| |exact H]; intros i j a b Ha Hb Ta Tb;
    apply (H i j a b Ha Hb); rewrite Ta, Tb; simpl; lia.
Qed.

(* ------------------------------------------------------------------ *)
(** ** Page numbers *)

Lemma mainChapters_app (xs ys : list Chapter) :
  mainChapters (xs ++ ys) = mainChapters xs ++ mainChapters ys.
Proof. unfold mainChapters. apply filter_app. Qed.

Lemma firstn_snoc_nth {X : Type} (xs : list X) :
  forall p x, nth_error xs p = Some x -> firstn (S p) xs = firstn p xs ++ [x].
Proof.
  induction xs as [|y xs IH]; intros p x H.
  - destruct p; discriminate.
  - destruct p as [|p]; simpl in *.
    + now injection H as ->.
    + f_equal. now apply IH.
Qed.

(** The main chapter at position [p] is the [mainBefore p]-th main chapter. *)
Lemma mainChapters_nth (chapters : list Chapter) (p : nat) (ch : Chapter) :
  nth_error chapters p = Some ch ->
  type ch = chapter ->
  nth_error (mainChapters chapters) (mainBefore chapters p) = Some ch.
Proof.
  intros Hnth Hty. unfold mainBefore.
  rewrite <- (firstn_skipn (S p) chapters) at 1.
  rewrite mainChapters_app, (firstn_snoc_nth _ _ _ Hnth), mainChapters_app.
  assert (Hone : mainChapters [ch] = [ch]).
  { unfold mainChapters; simpl.
    now rewrite (proj2 (isType_true chapter ch) Hty). }
  rewrite Hone, <- app_assoc.
  rewrite nth_error_app2 by lia. now rewrite Nat.sub_diag.
Qed.

(** C3.  The numbered items are exactly the main chapters in list order, their
    numbers are 1, 2, ..., k, and the main chapter stored at position [p]
    gets one more than the number of main chapters before [p]: front matter
    and back matter take no number wherever they stand, and removing them
    from the list changes no number.  No other rendered item has a number. *)
Theorem pageNumbers_sequential (chapters : list Chapter) :
  let numbered := numberedMainChapters chapters in
  let k := List.length (mainChapters chapters) in
  map item_chapter numbered = mainChapters chapters
  /\ map item_pageNumber numbered = map Some (seq 1 k)
  /\ (forall p ch,
         nth_error chapters p = Some ch ->
         type ch = chapter ->
         exists it,
           nth_error numbered (mainBefore chapters p) = Some it
           /\ item_chapter it = ch
           /\ item_pageNumber it = Some (mainBefore chapters p + 1))
  /\ (forall p ch,
         nth_error chapters p = Some ch ->
         type ch <> chapter ->
         mainBefore chapters (S p) = mainBefore chapters p)
  /\ map item_pageNumber (numberedMainChapters (mainChapters chapters))
     = map item_pageNumber numbered
  /\ (forall it,
         In it (render chapters) ->
         item_pageNumber it <> None -> In it numbered).
Proof.
  intros numbered k. unfold numbered, numberedMainChapters.
  assert (Hmain : mainChapters (mainChapters chapters) = mainChapters chapters).
  { unfold mainChapters. apply forallb_filter_id. apply forallb_forall.
    intros x Hx. now apply filter_In in Hx. }
  repeat split.
  - rewrite (mapWithIndex_fst _ item_chapter (fun ch => ch)) by reflexivity.
    apply map_id.
  - now rewrite (mapWithIndex_seq _ item_pageNumber) by reflexivity.
  - intros p ch Hnth Hty. eexists. split; [|split].
    + apply (mapWithIndex_nth _ _ 0 _ _ (mainChapters_nth _ _ _ Hnth Hty)).
    + reflexivity.
    + reflexivity.
  - intros p ch Hnth Hty. unfold mainBefore.
    rewrite (firstn_snoc_nth _ _ _ Hnth), mainChapters_app, length_app.
    assert (Hnone : mainChapters [ch] = []).
    { unfold mainChapters; simpl.
      destruct (isType chapter ch) eqn:E; [|reflexivity].
      now apply isType_true in E. }
    rewrite Hnone. simpl. lia.
  - rewrite !(mapWithIndex_seq _ item_pageNumber) by reflexivity.
    now rewrite Hmain.
  - intros it Hin Hnum. unfold render in Hin.
    repeat rewrite in_app_iff in Hin.
    destruct Hin as [Hin|[Hin|Hin]]; [|exact Hin|];
      apply in_map_iff in Hin as (ch & <- & _); now elim Hnum.
Qed.

Example pageNumbers_interleaved :
  let c (i : nat) (ty : ChapterType) := mkChapter i "" "" [] ty 0 (Qmake 3 2) [] in
  map (fun it => (id (item_chapter it), item_pageNumber it))
      (numberedMainChapters
         [c 10 backmatter; c 11 chapter; c 12 frontmatter; c 13 chapter;
          c 14 chapter; c 15 backmatter])
  = [(11, Some 1); (13, Some 2); (14, Some 3)].
Proof. reflexivity. Qed.

(* ------------------------------------------------------------------ *)
(** ** Grouping by folder *)

Lemma firstSeen_snoc (keys : list string) (k : string) :
  firstSeen (keys ++ [k])
  = if existsb (String.eqb k) (firstSeen keys)
    then firstSeen keys else firstSeen keys ++ [k].
Proof. unfold firstSeen. now rewrite fold_left_app. Qed.

Lemma existsb_eqb_In (k : string) (l : list string) :
  existsb (String.eqb k) l = true <-> In k l.
Proof.
  rewrite existsb_exists. split.
  - intros (x & Hin & Heq). apply String.eqb_eq in Heq. now subst.
  - intros Hin. exists k. split; [exact Hin | apply String.eqb_refl].
Qed.

Lemma firstSeen_NoDup (keys : list string) : NoDup (firstSeen keys).
Proof.
  induction keys as [|k keys IH] using rev_ind; [constructor|].
  rewrite firstSeen_snoc.
  destruct (existsb (String.eqb k) (firstSeen keys)) eqn:E; [exact IH|].
  apply NoDup_app; [exact IH | repeat constructor; intros [] |].
  intros a Ha [<-|[]].
  apply existsb_eqb_In in Ha. congruence.
Qed.

Lemma firstSeen_In (keys : list string) :
  forall k, In k (firstSeen keys) <-> In k keys.
Proof.
  induction keys as [|k' keys IH] using rev_ind; intros k; [reflexivity|].
  rewrite firstSeen_snoc, in_app_iff.
  destruct (existsb (String.eqb k') (firstSeen keys)) eqn:E.
  - apply existsb_eqb_In in E. rewrite IH in E. rewrite IH.
    split; [now left | intros [H|[<-|[]]]; assumption].
  - rewrite in_app_iff, IH. reflexivity.
Qed.

Section MapFacts.
Variable val : string -> list File.

Lemma has_map (k : string) (keys : list string) :
  FileMap.has k (map (fun k' => (k', val k')) keys)
  = existsb (String.eqb k) keys.
Proof.
  induction keys as [|k' keys IH]; simpl; [reflexivity|].
  rewrite (String.eqb_sym k k'). destruct (String.eqb k' k); simpl; auto.
Qed.

Lemma get_map (k : string) (keys : list string) :
  In k keys ->
  FileMap.get k (map (fun k' => (k', val k')) keys) = Some (val k).
Proof.
  induction keys as [|k' keys IH]; simpl; [contradiction|].
  intros H. destruct (String.eqb k' k) eqn:E.
  - apply String.eqb_eq in E. now subst.
  - destruct H as [->|H]; [now rewrite String.eqb_refl in E | auto].
Qed.

Lemma set_map_fresh (k : string) (v : list File) (keys : list string) :
  ~ In k keys ->
  FileMap.set k v (map (fun k' => (k', val k')) keys)
  = map (fun k' => (k', val k')) keys ++ [(k, v)].
Proof.
  induction keys as [|k' keys IH]; simpl; [reflexivity|].
  intros H. destruct (String.eqb k' k) eqn:E.
  - apply String.eqb_eq in E. subst. elim H. now left.
  - rewrite IH; [reflexivity | tauto].
Qed.

Lemma set_map_present (k : string) (v : list File) (keys : list string) :
  NoDup keys ->
  FileMap.set k v (map (fun k' => (k', val k')) keys)
  = map (fun k' => (k', if String.eqb k' k then v else val k')) keys
    ++ (if existsb (String.eqb k) keys then [] else [(k, v)]).
Proof.
  induction keys as [|k' keys IH]; simpl; [reflexivity|].
  intros Hnd. inversion Hnd as [|? ? Hnotin Hnd']; subst.
  rewrite (String.eqb_sym k k').
  destruct (String.eqb k' k) eqn:E; simpl.
  - apply String.eqb_eq in E. subst k'.
    rewrite app_nil_r. f_equal.
    apply map_ext_in. intros a Ha.
    destruct (String.eqb a k) eqn:E'; [|reflexivity].
    apply String.eqb_eq in E'. subst. contradiction.
  - now rewrite IH.
Qed.
End MapFacts.

Lemma groupStep_groupsOf (files : list File) (file : File) :
  groupStep (groupsOf files (foldersInOrder files)) file
  = groupsOf (files ++ [file]) (foldersInOrder (files ++ [file])).
Proof.
  unfold groupStep, foldersInOrder. rewrite flat_map_app. simpl.
  set (parts := Js.split_slash (webkitRelativePath file)).
  set (keys := firstSeen (flat_map _ files)).
  assert (Hfilter : forall k,
             filter (inFolder k) (files ++ [file])
             = filter (inFolder k) files
               ++ (if inFolder k file then [file] else [])).
  { intros k. rewrite filter_app. simpl. now destruct (inFolder k file). }
  assert (Hpf : parentFolderOf file
                = if (List.length parts <? 2)%nat then None
                  else Some (nth 1 parts EmptyString)) by reflexivity.
  assert (Hin : forall k, inFolder k file
                          = match parentFolderOf file with
                            | Some k' => String.eqb k' k | None => false end)
    by reflexivity.
  rewrite Hpf in Hin |- *.
  destruct (List.length parts <? 2)%nat eqn:Elen.
  - simpl. rewrite app_nil_r. fold keys. unfold groupsOf.
    apply map_ext. intros k. rewrite Hfilter, Hin. now rewrite app_nil_r.
  - set (k := nth 1 parts EmptyString) in *.
    rewrite app_nil_r, firstSeen_snoc. fold keys.
    unfold groupsOf at 1 2. rewrite has_map.
    pose proof (firstSeen_NoDup
                  (flat_map
                     (fun f => match parentFolderOf f with
                               | Some k => [k] | None => [] end) files))
      as Hnd. fold keys in Hnd.
    destruct (existsb (String.eqb k) keys) eqn:Ex; simpl.
    + pose proof (proj1 (existsb_eqb_In _ _) Ex) as Hk.
      unfold FileMap.push, groupsOf. rewrite get_map by exact Hk.
      rewrite set_map_present by exact Hnd. rewrite Ex, app_nil_r.
      apply map_ext. intros k'.
      rewrite Hfilter, Hin.
      destruct (String.eqb k' k) eqn:E.
      * apply String.eqb_eq in E. subst k'. now rewrite String.eqb_refl.
      * rewrite String.eqb_sym, E. now rewrite app_nil_r.
    + assert (Hk : ~ In k keys).
      { intros Hk. apply existsb_eqb_In in Hk. congruence. }
      rewrite set_map_fresh by exact Hk.
      unfold FileMap.push.
      assert (Hget : FileMap.get k
                       (map (fun k0 => (k0, filter (inFolder k0) files)) keys
                            ++ [(k, [])]) = Some []).
      { clear - Hk. induction keys as [|k' keys IH]; simpl.
        - now rewrite String.eqb_refl.
        - destruct (String.eqb k' k) eqn:E.
          + apply String.eqb_eq in E. subst. elim Hk. now left.
          + apply IH. intros H. apply Hk. now right. }
      rewrite Hget. simpl.
      assert (Hset : forall (m : FileMap.t) v0 v,
                 ~ In k (map fst m) ->
                 FileMap.set k v (m ++ [(k, v0)]) = m ++ [(k, v)]).
      { clear. induction m as [|[k' v'] m IH]; simpl; intros v0 v Hk.
        - now rewrite String.eqb_refl.
        - destruct (String.eqb k' k) eqn:E.
          + apply String.eqb_eq in E. subst. elim Hk. now left.
          + rewrite IH; [reflexivity | tauto]. }
      rewrite Hset by (rewrite map_map; simpl; now rewrite map_id).
      unfold groupsOf. rewrite map_app. simpl. f_equal.
      * apply map_ext_in. intros k' Hk'. rewrite Hfilter, Hin.
        destruct (String.eqb k k') eqn:E.
        -- apply String.eqb_eq in E. subst. contradiction.
        -- now rewrite app_nil_r.
      * rewrite Hfilter, Hin, String.eqb_refl.
        assert (Hnone : filter (inFolder k) files = []).
        { destruct (filter (inFolder k) files) as [|f rest] eqn:Ef;
            [reflexivity|].
          assert (Hf : In f (filter (inFolder k) files))
            by (rewrite Ef; now left).
          apply filter_In in Hf as [Hf E].
          elim Hk. unfold keys. apply firstSeen_In, in_flat_map.
          exists f. split; [exact Hf|]. unfold inFolder in E.
          destruct (parentFolderOf f); [|discriminate].
          apply String.eqb_eq in E. subst. now left. }
        now rewrite Hnone.
Qed.

(** The grouping loop lists the folders in the order in which the batch
    first shows them, each with its files in batch order. *)
Lemma groupFiles_groupsOf (files : list File) :
  groupFiles files = groupsOf files (foldersInOrder files).
Proof.
  induction files as [|f files IH] using rev_ind; [reflexivity|].
  unfold groupFiles in *. rewrite fold_left_app. simpl.
  rewrite IH. apply groupStep_groupsOf.
Qed.

(* ------------------------------------------------------------------ *)
(** ** Running the import *)

Section ImporterFacts.
Variable localeCompare : string -> string -> Z.

Lemma sortInsert_perm (f : File) (l : list File) :
  Permutation (sortInsert localeCompare f l) (f :: l).
Proof.
  induction l as [|g l IH]; simpl; [reflexivity|].
  destruct (localeCompare (name f) (name g) <=? 0)%Z; [reflexivity|].
  rewrite IH. apply perm_swap.
Qed.

Lemma sortByName_perm (l : list File) :
  Permutation (sortByName localeCompare l) l.
Proof.
  induction l as [|f l IH]; simpl; [reflexivity|].
  rewrite sortInsert_perm. now constructor.
Qed.

Lemma sortByName_In (l : list File) (f : File) :
  In f (sortByName localeCompare l) <-> In f l.
Proof.
  split; apply Permutation_in;
    [apply sortByName_perm | symmetry; apply sortByName_perm].
Qed.

(** The loop over the files of one folder. *)
Lemma collect_run (files : list File) :
  forall acc w,
    match collectSubChapters files acc w with
    | (w', Fulfilled subs) =>
        exists new,
          subs = acc ++ new
          /\ Forall2 subChapterOf (filter matchesSubChapter files) new
          /\ map sub_id new = seq (uuids_drawn w) (List.length new)
          /\ w' = mkWorld (uuids_drawn w + List.length new) (added w)
    | (w', Rejected e) =>
        added w' = added w
        /\ exists f,
            In f (filter matchesSubChapter files) /\ text f = TextFail e
    end.
Proof.
  induction files as [|file rest IH]; intros acc w.
  - simpl. exists []. rewrite app_nil_r, Nat.add_0_r.
    destruct w. repeat split; constructor.
  - cbn [collectSubChapters filter].
    assert (Hm : matchesSubChapter file
                 = match Regex.exec subChapterRegex (name file) with
                   | Some _ => true | None => false end) by reflexivity.
    destruct (Regex.exec subChapterRegex (name file)) as [m|] eqn:Em;
      rewrite Hm.
    + unfold bind, await, randomUUID.
      destruct (text file) as [txt|e] eqn:Et.
      * cbn [fst snd uuids_drawn added].
        generalize
          (IH (acc ++ [mkSubChapter (uuids_drawn w) (Regex.at_ m 2) txt])
              (mkWorld (S (uuids_drawn w)) (added w))).
        destruct (collectSubChapters rest _ _) as [w' [subs|e]].
        -- intros (new & -> & Hrel & Hids & ->).
           cbn [uuids_drawn added] in *.
           exists (mkSubChapter (uuids_drawn w) (Regex.at_ m 2) txt :: new).
           rewrite <- app_assoc. repeat split.
           ++ constructor; [|exact Hrel].
              split; [|exact Et]. unfold subChapterTitle. now rewrite Em.
           ++ simpl. now rewrite Hids.
           ++ simpl. f_equal. lia.
        -- intros (Hadd & f & Hin & Hf). cbn [added] in Hadd.
           split; [exact Hadd|]. exists f. split; [now right | exact Hf].
      * split; [reflexivity|]. exists file. split; [now left | exact Et].
    + apply IH.
Qed.

(** The body of the loop over the folders. *)
Lemma processFolder_run (folder : string) (folderFiles : list File) (w : World) :
  match processFolder localeCompare (folder, folderFiles) w with
  | (w', Fulfilled _) =>
      match chapterFolderTitle folder with
      | None => w' = w
      | Some t =>
          exists subs,
            Forall2 subChapterOf
                    (filter matchesSubChapter (sortByName localeCompare folderFiles))
                    subs
            /\ map sub_id subs = seq (S (uuids_drawn w)) (List.length subs)
            /\ w' = mkWorld
                      (S (uuids_drawn w) + List.length subs)
                      (added w
                       ++ match subs with
                          | [] => []
                          | _ :: _ =>
                              [mkChapter (uuids_drawn w) t "" [] chapter 0
                                         (Qmake 3 2) subs]
                          end)
      end
  | (w', Rejected e) =>
      added w' = added w
      /\ chapterFolderTitle folder <> None
      /\ exists f,
          In f folderFiles /\ matchesSubChapter f = true /\ text f = TextFail e
  end.
Proof.
  unfold processFolder, chapterFolderTitle.
  destruct (Regex.exec chapterFolderRegex folder) as [m|] eqn:Em;
    [|reflexivity].
  unfold bind, randomUUID. cbn [fst snd].
  generalize (collect_run (sortByName localeCompare folderFiles) []
                          (mkWorld (S (uuids_drawn w)) (added w))).
  destruct (collectSubChapters _ _ _) as [w' [subs|e]]; intros H.
  - destruct H as (new & -> & Hrel & Hids & ->). simpl app.
    cbn [uuids_drawn added] in *.
    destruct new as [|sc new]; cbn [List.length Nat.ltb Nat.leb].
    + exists []. rewrite app_nil_r. repeat split; assumption.
    + unfold addChapter. cbn [uuids_drawn added].
      exists (sc :: new). repeat split; assumption.
  - destruct H as (Hadd & f & Hin & Hf). cbn [added] in Hadd.
    split; [exact Hadd|]. split; [discriminate|].
    apply filter_In in Hin as [Hin Hm].
    apply (proj1 (sortByName_In _ _)) in Hin.
    exists f. split; [|split]; assumption.
Qed.

Lemma Forall2_witness {X Y : Type} (R : X -> Y -> Prop) (xs : list X)
      (ys : list Y) :
  Forall2 R xs ys -> Forall (fun y => exists x, In x xs /\ R x y) ys.
Proof.
  induction 1 as [|x y xs ys HR _ IH]; constructor.
  - exists x. split; [now left | exact HR].
  - eapply Forall_impl; [|exact IH].
    intros b (a & Ha & Hab). exists a. split; [now right | exact Hab].
Qed.

Lemma existsb_sortByName (p : File -> bool) (l : list File) :
  existsb p (sortByName localeCompare l) = existsb p l.
Proof.
  apply eq_true_iff_eq. rewrite !existsb_exists.
  split; intros (x & Hx & Hp); exists x; split; try exact Hp;
    now apply sortByName_In.
Qed.

Lemma existsb_filter_nil {X : Type} (p : X -> bool) (l : list X) :
  existsb p l = match filter p l with [] => false | _ :: _ => true end.
Proof.
  induction l as [|x l IH]; simpl; [reflexivity|].
  destruct (p x); simpl; [reflexivity | exact IH].
Qed.

Variable files : list File.

(** The loop over the folders of the batch. *)
Lemma forOf_run (groups : FileMap.t) :
  incl groups (groupsOf files (foldersInOrder files)) ->
  forall w,
    match forOf groups (processFolder localeCompare) w with
    | (w', st) =>
        exists cs notReached,
          added w' = added w ++ cs
          /\ Forall (folderRequest files) cs
          /\ flat_map folderTitles groups = map title cs ++ notReached
          /\ match st with
             | Fulfilled _ => notReached = []
             | Rejected e => exists f, In f files /\ text f = TextFail e
             end
    end.
Proof.
  induction groups as [|[folder folderFiles] groups IH]; intros Hincl w.
  - simpl. exists [], []. now rewrite app_nil_r.
  - assert (Hentry : In folder (foldersInOrder files)
                     /\ folderFiles = filter (inFolder folder) files).
    { assert (H : In (folder, folderFiles)
                     (groupsOf files (foldersInOrder files)))
        by (apply Hincl; now left).
      unfold groupsOf in H. apply in_map_iff in H as (k & Heq & Hk).
      injection Heq as <- <-. now split. }
    destruct Hentry as [Hfolder Hfiles].
    assert (Hincl' : incl groups (groupsOf files (foldersInOrder files)))
      by (intros x Hx; apply Hincl; now right).
    cbn [forOf]. unfold bind.
    generalize (processFolder_run folder folderFiles w).
    destruct (processFolder localeCompare (folder, folderFiles) w)
      as [w1 [[]|e]].
    + cbn [flat_map]. unfold folderTitles at 1. cbn [fst snd].
      destruct (chapterFolderTitle folder) as [t|] eqn:Et.
      * intros (subs & Hrel & _ & ->).
        generalize (IH Hincl'
                      (mkWorld (S (uuids_drawn w) + List.length subs)
                         (added w
                          ++ match subs with
                             | [] => []
                             | _ :: _ =>
                                 [mkChapter (uuids_drawn w) t "" [] chapter 0
                                            (Qmake 3 2) subs]
                             end))).
        destruct (forOf groups _ _) as [w2 st].
        intros (cs & rest & Hadd & Hall & Htitles & Hst). cbn [added] in Hadd.
        rewrite <- existsb_sortByName, existsb_filter_nil.
        destruct subs as [|sc subs].
        -- inversion Hrel as [Hnil|]. exists cs, rest.
           rewrite app_nil_r in Hadd. repeat split; assumption.
        -- exists (mkChapter (uuids_drawn w) t "" [] chapter 0 (Qmake 3 2)
                             (sc :: subs) :: cs), rest.
           rewrite Hadd, <- app_assoc. split; [reflexivity|]. split.
           ++ constructor; [|exact Hall].
              exists (uuids_drawn w), folder, (sc :: subs).
              repeat split; try assumption; try discriminate.
              apply Forall2_witness in Hrel.
              eapply Forall_impl; [|exact Hrel].
              intros sc' (f & Hf & Hsc). cbn beta in Hsc.
              apply filter_In in Hf as [Hf Hm].
              apply (proj1 (sortByName_In _ _)) in Hf.
              rewrite Hfiles in Hf. apply filter_In in Hf as [Hf Hin].
              exists f. repeat split; try assumption; apply Hsc.
           ++ split; [|exact Hst].
              inversion Hrel; subst. simpl. now rewrite Htitles.
      * intros ->. apply (IH Hincl').
    + intros (Hadd & _ & f & Hin & _ & Hf).
      exists [], (flat_map folderTitles ((folder, folderFiles) :: groups)).
      rewrite app_nil_r. repeat split; try assumption.
      * constructor.
      * exists f. split; [|exact Hf].
        rewrite Hfiles in Hin. now apply filter_In in Hin.
Qed.

(** A marker file. *)
Lemma processMarker_run (isMarker : File -> bool) (fixedTitle : string)
      (ty : ChapterType) (w : World) :
  match processMarker (find isMarker files) fixedTitle ty w with
  | (w', st) =>
      exists cs,
        added w' = added w ++ cs
        /\ markerRequest files isMarker fixedTitle ty cs
        /\ match st with
           | Fulfilled _ => cs = [] <-> find isMarker files = None
           | Rejected e =>
               cs = [] /\ exists f, In f files /\ text f = TextFail e
           end
  end.
Proof.
  unfold processMarker.
  destruct (find isMarker files) as [file|] eqn:Efind.
  - unfold bind, await, randomUUID, addChapter.
    destruct (text file) as [txt|e] eqn:Et; cbn [fst snd uuids_drawn added].
    + eexists. split; [reflexivity|]. split.
      * right. exists (uuids_drawn w), file, txt. now repeat split.
      * split; discriminate.
    + exists []. rewrite app_nil_r. split; [reflexivity|].
      split; [now left|]. split; [reflexivity|].
      exists file. split; [|exact Et]. now apply find_some in Efind.
  - exists []. rewrite app_nil_r. split; [reflexivity|].
    split; [now left | tauto].
Qed.

Lemma flat_map_folderTitles :
  flat_map folderTitles (groupsOf files (foldersInOrder files))
  = chapterTitlesInOrder files.
Proof.
  unfold chapterTitlesInOrder, groupsOf. rewrite flat_map_concat_map, map_map.
  rewrite <- flat_map_concat_map. apply flat_map_ext. intros folder.
  unfold folderTitles. cbn [fst snd].
  destruct (chapterFolderTitle folder); [|reflexivity].
  replace (existsb matchesSubChapter (filter (inFolder folder) files))
    with (hasSubChapterFile files folder); [reflexivity|].
  unfold hasSubChapterFile. clear.
  induction files as [|f l IH]; simpl; [reflexivity|].
  destruct (inFolder folder f); simpl; now rewrite IH.
Qed.

(** The whole import: what was handed to [addChapter] and how the handler
    settled. *)
Lemma import_shape :
  exists front chapters back notReached,
    importCalls localeCompare files = front ++ chapters ++ back
    /\ markerRequest files isFrontmatterFile "Kata Pengantar" frontmatter front
    /\ Forall (folderRequest files) chapters
    /\ markerRequest files isBackmatterFile "Penutup" backmatter back
    /\ chapterTitlesInOrder files = map title chapters ++ notReached
    /\ match importSettled localeCompare files with
       | Fulfilled _ =>
           (front = [] <-> find isFrontmatterFile files = None)
           /\ notReached = []
           /\ (back = [] <-> find isBackmatterFile files = None)
       | Rejected e => exists f, In f files /\ text f = TextFail e
       end.
Proof.
  unfold importCalls, importSettled, importRun, handleBulkUpload.
  destruct files as [|f0 fs] eqn:Efiles.
  - exists [], [], [], []. simpl. repeat split; try (now left); constructor.
  - rewrite <- Efiles. cbn [List.length Nat.eqb].
    replace (List.length files =? 0)%nat with false
      by (rewrite Efiles; reflexivity).
    unfold bind.
    generalize (processMarker_run isFrontmatterFile "Kata Pengantar"
                                  frontmatter emptyWorld).
    destruct (processMarker (find isFrontmatterFile files) _ _ _)
      as [w1 [[]|e]]; intros (front & Hadd1 & Hfront & Hst1).
    + generalize (forOf_run (groupFiles files)
                    ltac:(rewrite groupFiles_groupsOf; apply incl_refl) w1).
      destruct (forOf (groupFiles files) _ _) as [w2 [[]|e]];
        intros (chapters & rest & Hadd2 & Hch & Htitles & Hst2);
        rewrite groupFiles_groupsOf, flat_map_folderTitles in Htitles.
      * generalize (processMarker_run isBackmatterFile "Penutup"
                                      backmatter w2).
        destruct (processMarker (find isBackmatterFile files) _ _ _)
          as [w3 st]; intros (back & Hadd3 & Hback & Hst3).
        exists front, chapters, back, rest. cbn [fst snd].
        rewrite Hadd3, Hadd2, Hadd1. cbn [added emptyWorld app].
        rewrite <- app_assoc. repeat split; try assumption.
        destruct st as [[]|e].
        -- repeat split; try assumption; apply Hst1 || apply Hst3.
        -- apply Hst3.
      * exists front, chapters, [], rest. cbn [fst snd].
        rewrite Hadd2, Hadd1. cbn [added emptyWorld app].
        rewrite app_nil_r. repeat split; try assumption. now left.
    + exists front, [], [], (chapterTitlesInOrder files). cbn [fst snd].
      rewrite Hadd1. cbn [added emptyWorld app]. rewrite app_nil_r.
      repeat split; try assumption; try (now left); try constructor.
      apply Hst1.
Qed.
End ImporterFacts.

(* ------------------------------------------------------------------ *)
(** ** The requests of an import *)

Section ImportTheorems.
Variable localeCompare : string -> string -> Z.
Variable files : list File.

Lemma markerRequest_type (isMarker : File -> bool) (t : string)
      (ty : ChapterType) (cs : list Chapter) :
  markerRequest files isMarker t ty cs ->
  Forall (fun c => type c = ty /\ title c = t /\ subChapters c = []) cs
  /\ List.length cs <= 1
  /\ Forall (fun c => exists f, In f files /\ isMarker f = true
                                /\ text f = TextOk (content c)) cs.
Proof.
  intros [->|(i & f & txt & Hfind & Htxt & ->)].
  - repeat split; auto.
  - apply find_some in Hfind as [Hin Hm].
    repeat split; auto. constructor; [|constructor].
    exists f. now repeat split.
Qed.

Lemma folderRequest_type (c : Chapter) :
  folderRequest files c -> type c = chapter.
Proof. intros (i & k & subs & _ & _ & _ & _ & ->). reflexivity. Qed.

Lemma filter_all {X : Type} (p : X -> bool) (l : list X) :
  Forall (fun x => p x = true) l -> filter p l = l.
Proof.
  induction 1 as [|x l Hx _ IH]; simpl; [reflexivity|].
  now rewrite Hx, IH.
Qed.

Lemma filter_none {X : Type} (p : X -> bool) (l : list X) :
  Forall (fun x => p x = false) l -> filter p l = [].
Proof.
  induction 1 as [|x l Hx _ IH]; simpl; [reflexivity|].
  now rewrite Hx.
Qed.

(** The three segments of the call sequence are the three parts of
    [import_shape]. *)
Lemma import_segments :
  exists front chapters back notReached,
    importCalls localeCompare files = front ++ chapters ++ back
    /\ frontmatterChapters (importCalls localeCompare files) = front
    /\ mainChapters (importCalls localeCompare files) = chapters
    /\ backmatterChapters (importCalls localeCompare files) = back
    /\ markerRequest files isFrontmatterFile "Kata Pengantar" frontmatter front
    /\ Forall (folderRequest files) chapters
    /\ markerRequest files isBackmatterFile "Penutup" backmatter back
    /\ chapterTitlesInOrder files = map title chapters ++ notReached
    /\ match importSettled localeCompare files with
       | Fulfilled _ =>
           (front = [] <-> find isFrontmatterFile files = None)
           /\ notReached = []
           /\ (back = [] <-> find isBackmatterFile files = None)
       | Rejected e => exists f, In f files /\ text f = TextFail e
       end.
Proof.
  destruct (import_shape localeCompare files)
    as (front & chapters & back & rest & Hcalls & Hf & Hc & Hb & Ht & Hst).
  exists front, chapters, back, rest.
  assert (Tf : Forall (fun c => type c = frontmatter) front).
  { eapply Forall_impl; [|apply (proj1 (markerRequest_type _ _ _ _ Hf))].
    now intros c [H _]. }
  assert (Tb : Forall (fun c => type c = backmatter) back).
  { eapply Forall_impl; [|apply (proj1 (markerRequest_type _ _ _ _ Hb))].
    now intros c [H _]. }
  assert (Tc : Forall (fun c => type c = chapter) chapters).
  { eapply Forall_impl; [|exact Hc]. apply folderRequest_type. }
  assert (Hsel : forall ty ty' l,
             Forall (fun c => type c = ty') l ->
             filter (isType ty) l = if ChapterType_eqb ty' ty then l else []).
  { intros ty ty' l H.
    destruct (ChapterType_eqb ty' ty) eqn:E.
    - apply filter_all. eapply Forall_impl; [|exact H].
      intros c Hc'. unfold isType. now rewrite Hc'.
    - apply filter_none. eapply Forall_impl; [|exact H].
      intros c Hc'. unfold isType. now rewrite Hc'. }
  repeat split; try assumption;
    unfold frontmatterChapters, mainChapters, backmatterChapters;
    rewrite Hcalls, !filter_app,
      (Hsel _ _ _ Tf), (Hsel _ _ _ Tc), (Hsel _ _ _ Tb);
    simpl; now rewrite ?app_nil_r.
Qed.
End ImportTheorems.

(** C9.  In every import every front-matter request is titled
    "Kata Pengantar" and every back-matter request is titled "Penutup",
    whatever the batch, hence whatever the name of the marker file; the
    second part shows two marker files whose names differ from these titles. *)
Theorem marker_titles_fixed (localeCompare : string -> string -> Z)
        (files : list File) :
  Forall hasFixedTitle (importCalls localeCompare files)
  /\ map (fun c => (type c, title c)) (importCalls localeCompare batchMarkers)
     = [(frontmatter, "Kata Pengantar"); (backmatter, "Penutup")].
Proof.
  split; [|reflexivity].
  destruct (import_segments localeCompare files)
    as (front & chapters & back & rest & -> & _ & _ & _ & Hf & Hc & Hb & _).
  apply markerRequest_type in Hf as [Hf _].
  apply markerRequest_type in Hb as [Hb _].
  repeat (apply Forall_app; split).
  - eapply Forall_impl; [|exact Hf].
    intros c (Hty & Ht & _). unfold hasFixedTitle. now rewrite Hty.
  - eapply Forall_impl; [|exact Hc].
    intros c Hreq. unfold hasFixedTitle.
    now rewrite (folderRequest_type _ _ Hreq).
  - eapply Forall_impl; [|exact Hb].
    intros c (Hty & Ht & _). unfold hasFixedTitle. now rewrite Hty.
Qed.

(* ------------------------------------------------------------------ *)
(** ** Order of the requests *)

Lemma hasSubChapterFile_group (files : list File) (folder : string) :
  hasSubChapterFile files folder
  = existsb matchesSubChapter (filter (inFolder folder) files).
Proof.
  unfold hasSubChapterFile.
  induction files as [|f l IH]; simpl; [reflexivity|].
  destruct (inFolder folder f); simpl; now rewrite IH.
Qed.

(** *** The reads and the requests, step by step *)

Lemma firstFailure_app (a b : list File) :
  firstFailure (a ++ b)
  = match firstFailure a with
    | Some e => Some e
    | None => firstFailure b
    end.
Proof.
  induction a as [|f a IH]; simpl; [reflexivity|].
  now destruct (text f).
Qed.

Section Trace.
Variable localeCompare : string -> string -> Z.
Variable files : list File.

(** The loop over the files of one folder settles by the first failing read
    among the sub-chapter files. *)
Lemma collect_settled (sortedFiles : list File) :
  forall acc w,
    match snd (collectSubChapters sortedFiles acc w),
          firstFailure (filter matchesSubChapter sortedFiles) with
    | Fulfilled _, None => True
    | Rejected e, Some e' => e = e'
    | _, _ => False
    end.
Proof.
  induction sortedFiles as [|file rest IH]; intros acc w; [exact I|].
  cbn [collectSubChapters filter].
  assert (Hm : matchesSubChapter file
               = match Regex.exec subChapterRegex (name file) with
                 | Some _ => true | None => false end) by reflexivity.
  destruct (Regex.exec subChapterRegex (name file)) as [m|]; rewrite Hm;
    [|apply IH].
  cbn [firstFailure]. unfold bind, await, randomUUID.
  destruct (text file) as [txt|e]; [|reflexivity].
  cbn [fst snd]. apply IH.
Qed.

(** The body of the loop over the folders likewise. *)
Lemma processFolder_settled (folder : string) (w : World) :
  snd (processFolder localeCompare (folder, filter (inFolder folder) files) w)
  = settledBy (firstFailure (folderReads localeCompare files folder)).
Proof.
  unfold processFolder, folderReads, chapterFolderTitle.
  destruct (Regex.exec chapterFolderRegex folder) as [m|]; [|reflexivity].
  unfold bind, randomUUID. cbn [fst snd].
  generalize (collect_settled
                (sortByName localeCompare (filter (inFolder folder) files)) []
                (mkWorld (S (uuids_drawn w)) (added w))).
  destruct (collectSubChapters _ _ _) as [w' [subs|e]]; cbn [snd];
    destruct (firstFailure _) as [e'|]; try contradiction.
  - intros _. now destruct (0 <? List.length subs)%nat.
  - now intros ->.
Qed.

(** A marker file. *)
Lemma processMarker_settled (found : option File) (fixedTitle : string)
      (ty : ChapterType) (w : World) :
  snd (processMarker found fixedTitle ty w)
  = settledBy (firstFailure (markerReads found)).
Proof.
  destruct found as [file|]; [|reflexivity].
  unfold processMarker, bind, await, randomUUID, addChapter. cbn.
  now destruct (text file).
Qed.

(** The loop over the folders: the requests it makes are those of the
    request-making folders it reaches, in their order, and it settles by the
    first failing read. *)
Lemma forOf_trace (keys : list string) :
  forall w,
    exists cs reached notReached,
      added (fst (forOf (groupsOf files keys) (processFolder localeCompare) w))
      = added w ++ cs
      /\ filter (makesRequest files) keys = reached ++ notReached
      /\ Forall2 (requestOfFolder localeCompare files) reached cs
      /\ snd (forOf (groupsOf files keys) (processFolder localeCompare) w)
         = settledBy
             (firstFailure (flat_map (folderReads localeCompare files) keys))
      /\ (firstFailure (flat_map (folderReads localeCompare files) keys) = None
          -> notReached = []).
Proof.
  induction keys as [|k keys IH]; intros w.
  - exists [], [], []. cbn. rewrite app_nil_r. repeat split; constructor.
  - cbn [groupsOf map forOf flat_map]. fold (groupsOf files keys).
    rewrite firstFailure_app. unfold bind.
    generalize (processFolder_run localeCompare k (filter (inFolder k) files) w)
               (processFolder_settled k w).
    destruct (processFolder localeCompare (k, filter (inFolder k) files) w)
      as [w1 [[]|e]]; cbn [snd].
    + intros Hrun Hset.
      destruct (firstFailure (folderReads localeCompare files k)) as [e'|];
        [discriminate|].
      destruct (IH w1) as (cs & reached & rest & Hadd & Hsplit & Hrel & Hst & Hend).
      cbn [filter]. unfold makesRequest at 1.
      destruct (chapterFolderTitle k) as [t|] eqn:Et.
      * destruct Hrun as (subs & Hsubs & _ & ->). cbn [added] in Hadd.
        rewrite hasSubChapterFile_group,
          <- (existsb_sortByName localeCompare), existsb_filter_nil.
        destruct subs as [|sc subs].
        -- inversion Hsubs as [Hnil|]. exists cs, reached, rest.
           rewrite ?app_nil_r in *. repeat split; assumption.
        -- destruct (filter matchesSubChapter
                            (sortByName localeCompare
                                        (filter (inFolder k) files)))
             as [|f0 fs0] eqn:Efil; [inversion Hsubs|].
           exists (mkChapter (uuids_drawn w) t "" [] chapter 0 (Qmake 3 2)
                             (sc :: subs) :: cs), (k :: reached), rest.
           split; [now rewrite Hadd, <- app_assoc|].
           split; [cbn [app]; now rewrite Hsplit|].
           split; [|split; assumption].
           constructor; [|exact Hrel].
           unfold requestOfFolder. cbn [type title subChapters].
           rewrite Efil. now repeat split.
      * subst w1. exists cs, reached, rest. repeat split; assumption.
    + intros (Hadd & _) Hset.
      destruct (firstFailure (folderReads localeCompare files k)) as [e'|];
        [|discriminate].
      exists [], [], (filter (makesRequest files) (k :: keys)).
      cbn [fst]. rewrite app_nil_r.
      split; [exact Hadd|]. split; [reflexivity|]. split; [constructor|].
      split; [exact Hset | discriminate].
Qed.

(** The whole import. *)
Lemma import_trace :
  exists reached notReached,
    filter (makesRequest files) (foldersInOrder files) = reached ++ notReached
    /\ Forall2 (requestOfFolder localeCompare files) reached
               (mainChapters (importCalls localeCompare files))
    /\ (importSettled localeCompare files = Fulfilled tt -> notReached = [])
    /\ importSettled localeCompare files
       = settledBy (firstFailure (readsInOrder localeCompare files)).
Proof.
  unfold importSettled, importCalls, importRun, handleBulkUpload, readsInOrder.
  destruct files as [|f0 fs] eqn:Efiles.
  - exists [], []. cbn. repeat split; constructor.
  - rewrite <- Efiles.
    replace (List.length files =? 0)%nat with false
      by (rewrite Efiles; reflexivity).
    rewrite !firstFailure_app. unfold bind.
    generalize (processMarker_run localeCompare files isFrontmatterFile
                                  "Kata Pengantar" frontmatter emptyWorld)
               (processMarker_settled (find isFrontmatterFile files)
                                      "Kata Pengantar" frontmatter emptyWorld).
    destruct (processMarker (find isFrontmatterFile files) _ _ emptyWorld)
      as [w1 [[]|e]]; cbn [snd]; intros (front & Hadd1 & Hfront & Hst1) Hset1.
    + destruct (firstFailure (markerReads (find isFrontmatterFile files)));
        [discriminate|].
      destruct (forOf_trace (foldersInOrder files) w1)
        as (cs & reached & rest & Hadd2 & Hsplit & Hrel & Hset2 & Hend).
      rewrite <- groupFiles_groupsOf in Hadd2, Hset2.
      assert (Tf : Forall (fun c => isType chapter c = false) front).
      { destruct (markerRequest_type _ _ _ _ _ Hfront) as (T & _).
        eapply Forall_impl; [|exact T]. intros c (Hty & _).
        unfold isType. now rewrite Hty. }
      assert (Tc : Forall (fun c => isType chapter c = true) cs).
      { clear - Hrel. induction Hrel as [|k c ks cs (Hty & _) _ IH]; constructor;
          [unfold isType; now rewrite Hty | exact IH]. }
      destruct (forOf (groupFiles files) (processFolder localeCompare) w1)
        as [w2 [[]|e]]; cbn [fst snd] in Hadd2, Hset2.
      * destruct (firstFailure
                    (flat_map (folderReads localeCompare files)
                              (foldersInOrder files))); [discriminate|].
        generalize (processMarker_run localeCompare files isBackmatterFile
                                      "Penutup" backmatter w2)
                   (processMarker_settled (find isBackmatterFile files)
                                          "Penutup" backmatter w2).
        destruct (processMarker (find isBackmatterFile files) _ _ w2)
          as [w3 st]. cbn [fst snd].
        intros (back & Hadd3 & Hback & _) Hset3.
        assert (Tb : Forall (fun c => isType chapter c = false) back).
        { destruct (markerRequest_type _ _ _ _ _ Hback) as (T & _).
          eapply Forall_impl; [|exact T]. intros c (Hty & _).
          unfold isType. now rewrite Hty. }
        exists reached, rest.
        rewrite Hadd3, Hadd2, Hadd1. cbn [emptyWorld added app].
        unfold mainChapters. rewrite !filter_app.
        rewrite (filter_none _ _ Tf), (filter_none _ _ Tb), (filter_all _ _ Tc).
        rewrite app_nil_r.
        split; [exact Hsplit|]. split; [exact Hrel|].
        split; [intros _; now apply Hend | exact Hset3].
      * destruct (firstFailure
                    (flat_map (folderReads localeCompare files)
                              (foldersInOrder files))) as [e'|];
          [|discriminate].
        exists reached, rest. cbn [fst snd].
        rewrite Hadd2, Hadd1. cbn [emptyWorld added app].
        unfold mainChapters. rewrite !filter_app.
        rewrite (filter_none _ _ Tf), (filter_all _ _ Tc).
        split; [exact Hsplit|]. split; [exact Hrel|].
        split; [discriminate | exact Hset2].
    + destruct (firstFailure (markerReads (find isFrontmatterFile files)))
        as [e'|]; [|discriminate].
      destruct Hst1 as (-> & _).
      exists [], (filter (makesRequest files) (foldersInOrder files)).
      cbn [fst]. rewrite Hadd1. cbn.
      split; [reflexivity|]. split; [constructor|].
      split; [discriminate | exact Hset1].
Qed.
End Trace.


(** C1, as stated, fails.  The batch lists folder "BAB 2 - Dua" before
    folder "BAB 1 - Satu"; the requests come in that order, "Dua" (number 2)
    before "Satu" (number 1), so they cannot be traced to folders with
    ascending numbers. *)
Lemma requests_follow_batch_order_not_numbers :
  map title (importCalls codeUnitCompare batchTwoBeforeOne) = ["Dua"; "Satu"]
  /\ chapterFolderNumber "BAB 2 - Dua" = Some (Js.Finite 2)
  /\ chapterFolderNumber "BAB 1 - Satu" = Some (Js.Finite 1)
  /\ ~ inAscendingNumberOrder
        batchTwoBeforeOne
        (mainChapters (importCalls codeUnitCompare batchTwoBeforeOne)).
Proof.
  repeat split; try reflexivity.
  intros (folders & numbers & Hfol & Hnum & Hsorted).
  assert (Hfolders : folders = ["BAB 2 - Dua"; "BAB 1 - Satu"]).
  { vm_compute in Hfol.
    inversion Hfol as [|k1 c1 ks1 cs1 [Hin1 Ht1] Hrest1]; subst.
    inversion Hrest1 as [|k2 c2 ks2 cs2 [Hin2 Ht2] Hrest2]; subst.
    inversion Hrest2; subst.
    destruct Hin1 as [<-|[<-|[]]]; [|vm_compute in Ht1; discriminate].
    destruct Hin2 as [<-|[<-|[]]]; [vm_compute in Ht2; discriminate|].
    reflexivity. }
  subst folders. vm_compute in Hnum.
  destruct numbers as [|n1 [|n2 [|? ?]]]; try discriminate.
  injection Hnum as <- <-.
  inversion Hsorted as [|? ? _ Hhd]; subst.
  inversion Hhd as [|? ? Hle]; subst.
  now apply Hle.
Qed.

(** C1, amended.  The requests of an import come in segment order: the
    front-matter request (at most one) first, then the chapter requests,
    then the back-matter request (at most one) last.  The chapter requests
    are, one for one and in this order, the requests of the chapter folders
    that have a sub-chapter file, in the order in which the batch first
    shows the folders: of all of them when the import runs to its end, and
    of those reached before the failing read otherwise.  The request of a
    folder has the folder's title and one sub-chapter for each of its
    sub-chapter files, so two folders with the same title are told apart.
    When the import runs to its end, there is a front-matter (back-matter)
    request exactly when some file name carries the marker. *)
Theorem requests_in_segment_and_batch_order
        (localeCompare : string -> string -> Z) (files : list File) :
  let calls := importCalls localeCompare files in
  calls = frontmatterChapters calls ++ mainChapters calls
          ++ backmatterChapters calls
  /\ List.length (frontmatterChapters calls) <= 1
  /\ List.length (backmatterChapters calls) <= 1
  /\ (exists reached notReached,
         filter (makesRequest files) (foldersInOrder files)
         = reached ++ notReached
         /\ Forall2 (requestOfFolder localeCompare files) reached
                    (mainChapters calls)
         /\ (importSettled localeCompare files = Fulfilled tt ->
             notReached = []))
  /\ (importSettled localeCompare files = Fulfilled tt ->
      (frontmatterChapters calls = []
       <-> find isFrontmatterFile files = None)
      /\ (backmatterChapters calls = []
          <-> find isBackmatterFile files = None)).
Proof.
  intros calls.
  destruct (import_segments localeCompare files)
    as (front & chapters & back & rest
        & Hcalls & Ef & Ec & Eb & Hf & _ & Hb & Ht & Hst).
  destruct (import_trace localeCompare files)
    as (reached & notReached & Hsplit & Hrel & Hend & _).
  fold calls in Ef, Ec, Eb, Hrel. rewrite Ef, Eb.
  apply markerRequest_type in Hf as (_ & Hf & _).
  apply markerRequest_type in Hb as (_ & Hb & _).
  split; [now rewrite Ec|]. split; [exact Hf|]. split; [exact Hb|]. split.
  - now exists reached, notReached.
  - intros H. rewrite H in Hst. tauto.
Qed.

(* ------------------------------------------------------------------ *)
(** ** Folders without sub-chapters *)

(** C5, as stated, fails.  The folder "BAB 2 - X" holds one file, which is
    not a sub-chapter file.  No request is made for it, and the handler
    fulfils with no value: what can be observed is what the empty batch
    gives, so nothing observable is zero for the empty batch and nonzero
    here. *)
Lemma dropped_group_gives_no_skip_count :
  chapterFolderTitle "BAB 2 - X" = Some "X"
  /\ hasSubChapterFile batchNoSubChapter "BAB 2 - X" = false
  /\ importObserved codeUnitCompare batchNoSubChapter = ([], Fulfilled tt)
  /\ ~ exists skipped : list Chapter * Settled unit -> nat,
        skipped (importObserved codeUnitCompare []) = 0
        /\ skipped (importObserved codeUnitCompare batchNoSubChapter) <> 0.
Proof.
  repeat split; try reflexivity.
  intros (skipped & Hzero & Hnonzero). apply Hnonzero.
  exact Hzero.
Qed.

Lemma folderRequest_makesRequest (files : list File) (c : Chapter) :
  folderRequest files c ->
  subChapters c <> []
  /\ exists folder,
      In folder (foldersInOrder files)
      /\ chapterFolderTitle folder = Some (title c)
      /\ makesRequest files folder = true.
Proof.
  intros (i & folder & subs & Hin & Ht & Hne & Hsubs & Hc).
  split; [rewrite Hc; exact Hne|].
  exists folder. split; [exact Hin|]. split; [exact Ht|].
  unfold makesRequest. rewrite Ht.
  destruct subs as [|sc subs]; [now elim Hne|].
  inversion Hsubs as [|? ? (f & Hf & Hfolder & Hm & _) _]; subst.
  unfold hasSubChapterFile. apply existsb_exists.
  exists f. split; [exact Hf|]. now rewrite Hfolder, Hm.
Qed.

Lemma chapterTitlesInOrder_length (files : list File) :
  List.length (chapterTitlesInOrder files)
  = List.length (filter (makesRequest files) (foldersInOrder files)).
Proof.
  unfold chapterTitlesInOrder.
  induction (foldersInOrder files) as [|k ks IH]; [reflexivity|].
  cbn [flat_map filter]. rewrite length_app, IH.
  unfold makesRequest at 2.
  destruct (chapterFolderTitle k); [|reflexivity].
  now destruct (hasSubChapterFile files k).
Qed.

(** C5, amended.  The import returns no count.  Every chapter request has at
    least one sub-chapter and stems from a chapter folder of the batch that
    has a sub-chapter file, so a chapter folder whose files yield no
    sub-chapter gets no request; there are at most as many chapter requests
    as chapter folders with a sub-chapter file, and exactly as many when the
    import runs to its end. *)
Theorem no_request_without_subchapters
        (localeCompare : string -> string -> Z) (files : list File) :
  let calls := importCalls localeCompare files in
  Forall (fun c =>
            subChapters c <> []
            /\ exists folder,
                In folder (foldersInOrder files)
                /\ chapterFolderTitle folder = Some (title c)
                /\ makesRequest files folder = true)
         (mainChapters calls)
  /\ List.length (mainChapters calls)
     <= List.length (filter (makesRequest files) (foldersInOrder files))
  /\ (importSettled localeCompare files = Fulfilled tt ->
      List.length (mainChapters calls)
      = List.length (filter (makesRequest files) (foldersInOrder files))).
Proof.
  intros calls.
  destruct (import_segments localeCompare files)
    as (front & chapters & back & rest
        & _ & _ & Ec & _ & _ & Hc & _ & Ht & Hst).
  fold calls in Ec. rewrite Ec.
  apply (f_equal (@List.length string)) in Ht.
  rewrite chapterTitlesInOrder_length, length_app, length_map in Ht.
  split; [|split].
  - eapply Forall_impl; [|exact Hc]. apply folderRequest_makesRequest.
  - lia.
  - intros H. rewrite H in Hst. destruct Hst as (_ & -> & _).
    simpl in Ht. lia.
Qed.

(* ------------------------------------------------------------------ *)
(** ** Reads that fail *)






(* ------------------------------------------------------------------ *)
(** ** Marker files *)

(** C10.  There are batches in which one file is used twice.  A file in the
    chapter folder "BAB 1 - Pendahuluan" whose name is "1.1 Kata
    Pengantar.txt" carries the front-matter marker and has the form of a
    sub-chapter file: the import makes the front-matter request with its
    text and a chapter request whose sub-chapter has the same text.  The
    same holds for the back-matter marker. *)
Theorem marker_file_is_also_a_subchapter
        (localeCompare : string -> string -> Z) (txt : string) :
  (exists file folder,
      parentFolderOf file = Some folder
      /\ chapterFolderTitle folder = Some "Pendahuluan"
      /\ isFrontmatterFile file = true
      /\ matchesSubChapter file = true
      /\ text file = TextOk txt
      /\ importCalls localeCompare [file]
         = [ mkChapter 0 "Kata Pengantar" txt [] frontmatter 0 (Qmake 3 2) [];
             mkChapter 1 "Pendahuluan" "" [] chapter 0 (Qmake 3 2)
                       [mkSubChapter 2 "Kata Pengantar" txt] ])
  /\ (exists file folder,
      parentFolderOf file = Some folder
      /\ chapterFolderTitle folder = Some "Akhir"
      /\ isBackmatterFile file = true
      /\ matchesSubChapter file = true
      /\ text file = TextOk txt
      /\ importCalls localeCompare [file]
         = [ mkChapter 0 "Akhir" "" [] chapter 0 (Qmake 3 2)
                       [mkSubChapter 1 "Penutup" txt];
             mkChapter 2 "Penutup" txt [] backmatter 0 (Qmake 3 2) [] ]).
Proof.
  split.
  - exists (subChapterNamedFront txt), "BAB 1 - Pendahuluan".
    repeat split; reflexivity.
  - exists (subChapterNamedBack txt), "BAB 9 - Akhir".
    repeat split; reflexivity.
Qed.





(* ------------------------------------------------------------------ *)
(** ** Sub-chapters *)

Lemma sortInsert_sorted (localeCompare : string -> string -> Z) :
  (forall a b, (0 < localeCompare a b -> localeCompare b a <= 0)%Z) ->
  forall f l,
    Sorted (nameNotAfter localeCompare) l ->
    Sorted (nameNotAfter localeCompare) (sortInsert localeCompare f l).
Proof.
  intros Hanti f l Hl. induction Hl as [|g l Hl IH Hhd]; simpl.
  - repeat constructor.
  - destruct (localeCompare (name f) (name g) <=? 0)%Z eqn:E.
    + constructor; [now constructor|].
      constructor. unfold nameNotAfter. now apply Z.leb_le.
    + constructor; [exact IH|].
      apply Z.leb_gt in E.
      destruct Hhd as [|h l' Hgh]; simpl.
      * constructor. now apply Hanti.
      * destruct (localeCompare (name f) (name h) <=? 0)%Z;
          constructor; [now apply Hanti | exact Hgh].
Qed.

Lemma sortByName_sorted (localeCompare : string -> string -> Z) :
  (forall a b, (0 < localeCompare a b -> localeCompare b a <= 0)%Z) ->
  forall l, Sorted (nameNotAfter localeCompare) (sortByName localeCompare l).
Proof.
  intros Hanti l. induction l as [|f l IH]; simpl; [constructor|].
  now apply sortInsert_sorted.
Qed.

Lemma codeUnitCompare_antisym (a : string) :
  forall b, codeUnitCompare b a = (- codeUnitCompare a b)%Z.
Proof.
  induction a as [|x a IH]; intros [|y b]; simpl; try reflexivity.
  rewrite (N.compare_antisym (Js.code x) (Js.code y)).
  destruct (Js.code x ?= Js.code y)%N; simpl; auto.
Qed.

Lemma split_slash_root (root rest : string) :
  Js.split_slash root = [root] ->
  Js.split_slash (root ++ String "/" rest) = root :: Js.split_slash rest.
Proof.
  induction root as [|c root IH]; intros Hroot; [reflexivity|].
  cbn [Js.split_slash append] in *. revert Hroot.
  destruct (Ascii.eqb c "/"); [discriminate|].
  destruct (Js.split_slash root) as [|p ps] eqn:E; intros Hroot.
  - injection Hroot as <-. discriminate E.
  - injection Hroot as -> ->. now rewrite IH.
Qed.

Lemma parentFolderOf_beneath_root (root folder fileName : string)
      (nm : string) (txt : TextResult) :
  Js.split_slash root = [root] ->
  Js.split_slash folder = [folder] ->
  Js.split_slash fileName = [fileName] ->
  parentFolderOf
    (mkFile (root ++ String "/" (folder ++ String "/" fileName)) nm txt)
  = Some folder.
Proof.
  intros Hroot Hfolder Hfile. unfold parentFolderOf.
  cbn [webkitRelativePath].
  now rewrite (split_slash_root _ _ Hroot), (split_slash_root _ _ Hfolder),
    Hfile.
Qed.

(** C6.  The folder "BAB 3 - Awal" beneath any uploaded folder, with the
    files "3.1 Pembuka.txt" and "3.2 Lanjutan.txt" in either batch order,
    gives exactly one request: the chapter "Awal" with the sub-chapters
    "Pembuka" and "Lanjutan", in that order, each with the text of its file.
    In general the files of a chapter folder are sorted by name (the sorted
    list is a rearrangement of the folder's files, and it ascends when the
    collation is antisymmetric), and the sub-chapters of the request are
    made, one by one and in that order, from the sorted files whose names
    have the sub-chapter form. *)
Theorem subchapters_follow_sorted_files
        (localeCompare : string -> string -> Z)
        (Hlt : (localeCompare "3.1 Pembuka.txt" "3.2 Lanjutan.txt" < 0)%Z)
        (Hgt : (localeCompare "3.2 Lanjutan.txt" "3.1 Pembuka.txt" > 0)%Z) :
  (forall root txt1 txt2,
      Js.split_slash root = [root] ->
      importCalls localeCompare [pembuka root txt1; lanjutan root txt2]
      = [awal txt1 txt2]
      /\ importCalls localeCompare [lanjutan root txt2; pembuka root txt1]
         = [awal txt1 txt2])
  /\ (forall folder t folderFiles w w',
         chapterFolderTitle folder = Some t ->
         processFolder localeCompare (folder, folderFiles) w
         = (w', Fulfilled tt) ->
         exists subs,
           Forall2 subChapterOf
                   (filter matchesSubChapter
                           (sortByName localeCompare folderFiles))
                   subs
           /\ added w'
              = added w
                ++ match subs with
                   | [] => []
                   | _ :: _ =>
                       [mkChapter (uuids_drawn w) t "" [] chapter 0 (Qmake 3 2)
                                  subs]
                   end)
  /\ (forall folderFiles,
         Permutation (sortByName localeCompare folderFiles) folderFiles)
  /\ ((forall a b, (0 < localeCompare a b -> localeCompare b a <= 0)%Z) ->
      forall folderFiles,
        Sorted (nameNotAfter localeCompare)
               (sortByName localeCompare folderFiles)).
Proof.
  split; [|split; [|split]].
  - intros root txt1 txt2 Hroot.
    assert (Hp1 : parentFolderOf (pembuka root txt1) = Some "BAB 3 - Awal")
      by (apply (parentFolderOf_beneath_root
                   root "BAB 3 - Awal" "3.1 Pembuka.txt");
          [exact Hroot | reflexivity | reflexivity]).
    assert (Hp2 : parentFolderOf (lanjutan root txt2) = Some "BAB 3 - Awal")
      by (apply (parentFolderOf_beneath_root
                   root "BAB 3 - Awal" "3.2 Lanjutan.txt");
          [exact Hroot | reflexivity | reflexivity]).
    unfold importCalls, importRun, handleBulkUpload.
    rewrite !groupFiles_groupsOf.
    unfold foldersInOrder, groupsOf.
    cbn [flat_map app List.length Nat.eqb]. rewrite Hp1, Hp2.
    cbn [app firstSeen fold_left existsb String.eqb Ascii.eqb Bool.eqb orb map
             filter].
    unfold inFolder. rewrite Hp1, Hp2. clear Hp1 Hp2.
    unfold pembuka, lanjutan.
    generalize (root ++ "/BAB 3 - Awal/3.1 Pembuka.txt")%string
               (root ++ "/BAB 3 - Awal/3.2 Lanjutan.txt")%string.
    intros path1 path2. split.
    + cbv -[Z.leb].
      destruct (localeCompare "3.1 Pembuka.txt" "3.2 Lanjutan.txt" <=? 0)%Z
        eqn:E; [reflexivity|].
      apply Z.leb_gt in E. lia.
    + cbv -[Z.leb].
      destruct (localeCompare "3.2 Lanjutan.txt" "3.1 Pembuka.txt" <=? 0)%Z
        eqn:E; [|reflexivity].
      apply Z.leb_le in E. lia.
  - intros folder t folderFiles w w' Ht Hrun.
    pose proof (processFolder_run localeCompare folder folderFiles w) as H.
    rewrite Hrun, Ht in H. destruct H as (subs & Hrel & _ & ->).
    exists subs. split; [exact Hrel | reflexivity].
  - apply sortByName_perm.
  - apply sortByName_sorted.
Qed.

(** The collation by code units puts "3.1 Pembuka.txt" first. *)
Lemma subchapters_follow_sorted_files_example :
  (codeUnitCompare "3.1 Pembuka.txt" "3.2 Lanjutan.txt" < 0)%Z
  /\ (codeUnitCompare "3.2 Lanjutan.txt" "3.1 Pembuka.txt" > 0)%Z
  /\ importCalls codeUnitCompare [lanjutan "Buku" "dua"; pembuka "Buku" "satu"]
     = [awal "satu" "dua"]
  /\ Sorted (nameNotAfter codeUnitCompare)
            (sortByName codeUnitCompare
                        [lanjutan "Buku" "dua"; pembuka "Buku" "satu"]).
Proof.
  assert (Hlt : (codeUnitCompare "3.1 Pembuka.txt" "3.2 Lanjutan.txt" < 0)%Z)
    by reflexivity.
  assert (Hgt : (codeUnitCompare "3.2 Lanjutan.txt" "3.1 Pembuka.txt" > 0)%Z)
    by reflexivity.
  destruct (subchapters_follow_sorted_files codeUnitCompare Hlt Hgt)
    as (Hex & _ & _ & Hsorted).
  split; [exact Hlt|]. split; [exact Hgt|]. split.
  - apply (Hex "Buku" "satu" "dua"). reflexivity.
  - apply Hsorted. intros a b H.
    rewrite (codeUnitCompare_antisym a b). lia.
Defined.

(* ------------------------------------------------------------------ *)
(** ** Reordering by drag *)

Lemma findIndexFrom_spec {X : Type} (p : X -> bool) (xs : list X) :
  forall i,
    findIndexFrom p xs i = (-1)%Z /\ find p xs = None
    \/ exists k x,
        findIndexFrom p xs i = (i + Z.of_nat k)%Z
        /\ nth_error xs k = Some x
        /\ find p xs = Some x.
Proof.
  induction xs as [|y xs IH]; intros i; simpl.
  - now left.
  - destruct (p y) eqn:E.
    + right. exists 0, y. rewrite Z.add_0_r. now repeat split.
    + destruct (IH (i + 1)%Z) as [[H1 H2]|(k & x & H1 & H2 & H3)].
      * now left.
      * right. exists (S k), x. rewrite H1. repeat split; try assumption. lia.
Qed.

Lemma findIndex_spec {X : Type} (p : X -> bool) (xs : list X) :
  findIndex p xs = (-1)%Z /\ find p xs = None
  \/ exists k x,
      findIndex p xs = Z.of_nat k
      /\ nth_error xs k = Some x
      /\ find p xs = Some x.
Proof.
  unfold findIndex.
  destruct (findIndexFrom_spec p xs 0) as [H|(k & x & H1 & H2 & H3)];
    [now left|].
  right. exists k, x. now rewrite H1.
Qed.

Lemma nth_error_split_at {X : Type} (xs : list X) :
  forall a x,
    nth_error xs a = Some x ->
    xs = firstn a xs ++ x :: skipn (S a) xs.
Proof.
  induction xs as [|y xs IH]; intros a x H.
  - destruct a; discriminate.
  - destruct a as [|a]; simpl in *.
    + now injection H as ->.
    + f_equal. now apply IH.
Qed.

(** [arrayMove] with indices as [findIndex] gives them, on a list that is
    not empty: the element at [from] (the last one for -1) is taken out and
    put back at [to] (the last place for -1). *)
Lemma arrayMove_found {X : Type} (xs : list X) (from to : Z) :
  xs <> [] ->
  (-1 <= from < Z.of_nat (List.length xs))%Z ->
  (-1 <= to < Z.of_nat (List.length xs))%Z ->
  let last := (Z.of_nat (List.length xs) - 1)%Z in
  let a := Z.to_nat (if (from <? 0)%Z then last else from) in
  let t := Z.to_nat (if (to <? 0)%Z then last else to) in
  exists x,
    nth_error xs a = Some x
    /\ arrayMove xs from to
       = map Some (firstn t (firstn a xs ++ skipn (S a) xs)
                   ++ x :: skipn t (firstn a xs ++ skipn (S a) xs)).
Proof.
  intros Hne Hfrom Hto last a t.
  assert (Hlen : 0 < List.length xs) by (destruct xs; simpl; [congruence|lia]).
  assert (Ha : a < List.length xs).
  { unfold a, last. destruct (from <? 0)%Z eqn:E; [lia|].
    apply Z.ltb_ge in E. lia. }
  assert (Ht : t < List.length xs).
  { unfold t, last. destruct (to <? 0)%Z eqn:E; [lia|].
    apply Z.ltb_ge in E. lia. }
  destruct (nth_error xs a) as [x|] eqn:Ex;
    [|apply nth_error_None in Ex; lia].
  exists x. split; [reflexivity|].
  unfold arrayMove, splice.
  replace (Z.to_nat (if (from <? 0)%Z
                     then Z.max (Z.of_nat (List.length xs) + from) 0
                     else Z.min from (Z.of_nat (List.length xs)))) with a
    by (unfold a, last; destruct (from <? 0)%Z eqn:E;
        [apply Z.ltb_lt in E | apply Z.ltb_ge in E]; lia).
  replace (Z.to_nat
             (Z.min (Z.max 1 0)
                (Z.of_nat (List.length xs)
                 - (if (from <? 0)%Z
                    then Z.max (Z.of_nat (List.length xs) + from) 0
                    else Z.min from (Z.of_nat (List.length xs)))))) with 1
    by (destruct (from <? 0)%Z eqn:E;
        [apply Z.ltb_lt in E | apply Z.ltb_ge in E]; lia).
  cbn [app].
  assert (Hrem : firstn 1 (skipn a xs) = [x]).
  { rewrite (nth_error_split_at xs a x Ex) at 1.
    rewrite skipn_app, firstn_length_le, Nat.sub_diag by lia.
    rewrite skipn_all2 by (rewrite firstn_length_le; lia). reflexivity. }
  rewrite Hrem. cbn [nth_error].
  set (rest := firstn a xs ++ skipn (a + 1) xs).
  assert (Hrest : List.length rest = List.length xs - 1).
  { unfold rest. rewrite length_app, firstn_length_le, length_skipn by lia.
    lia. }
  rewrite length_map, Hrest.
  set (target := if (to <? 0)%Z then (Z.of_nat (List.length xs) + to)%Z else to).
  assert (Htarget : Z.to_nat target = t /\ (0 <= target)%Z).
  { unfold target, t, last. destruct (to <? 0)%Z eqn:E;
      [apply Z.ltb_lt in E | apply Z.ltb_ge in E]; lia. }
  destruct Htarget as [Htarget Hpos].
  replace (target <? 0)%Z with false by (symmetry; apply Z.ltb_ge; lia).
  replace (Z.to_nat (Z.min target (Z.of_nat (List.length xs - 1)))) with t by lia.
  replace (Z.to_nat
             (Z.min (Z.max 0 0)
                (Z.of_nat (List.length xs - 1)
                 - Z.min target (Z.of_nat (List.length xs - 1))))) with 0 by lia.
  rewrite Nat.add_0_r. cbn [fst].
  rewrite map_app, firstn_map, skipn_map. cbn [map app].
  unfold rest. now rewrite Nat.add_1_r.
Qed.

Lemma definedSlots_map {X : Type} (xs : list X) :
  definedSlots (map Some xs) = Some xs.
Proof.
  induction xs as [|x xs IH]; simpl; [reflexivity|]. now rewrite IH.
Qed.

Lemma samePopulation_perm (xs ys : list Id) :
  Permutation xs ys -> samePopulation xs ys = true.
Proof.
  intros H. unfold samePopulation. apply forallb_forall. intros i _.
  apply Nat.eqb_eq. revert i. now apply Permutation_count_occ.
Qed.

(** The store of Contract B accepts a rearrangement of its list. *)
Lemma reorderChapters_accepts (current moved : list Chapter) :
  Permutation moved current ->
  reorderChapters current (map Some moved) = Stored moved.
Proof.
  intros Hperm. unfold reorderChapters. rewrite definedSlots_map.
  assert (Hids : Permutation (map id current) (map id moved))
    by (apply Permutation_map; now symmetry).
  now rewrite (samePopulation_perm _ _ Hids).
Qed.

(** A drop outside the list reads [id] of null; a drop on the dragged item
    itself does nothing. *)
Lemma handleDragEnd_without_target (chapters : list Chapter) (active : Id) :
  handleDragEnd chapters (mkDragEndEvent active None) = ThrewTypeError
  /\ handleDragEnd chapters (mkDragEndEvent active (Some active)) = NoCall.
Proof.
  unfold handleDragEnd. cbn [over_id active_id].
  now rewrite Nat.eqb_refl.
Qed.

(** The handler takes the dragged and the target identifier and checks
    nothing: for two different identifiers and a list that is not empty it
    always hands the store a rearrangement of the current list, also when an
    identifier is not in the list.  The rearranged list has the same
    chapters, hence the same identifiers, each as often as before; when both
    identifiers are in the list, the dragged chapter stands at the target's
    former position; and the store of Contract B takes the list as it is. *)
Lemma drag_hands_over_a_rearrangement
        (chapters : list Chapter) (active over : Id) :
  active <> over ->
  chapters <> [] ->
  exists moved,
    handleDragEnd chapters (mkDragEndEvent active (Some over))
    = ReorderChapters (map Some moved)
    /\ Permutation moved chapters
    /\ Permutation (map id moved) (map id chapters)
    /\ (NoDup (map id chapters) -> NoDup (map id moved))
    /\ dragReorder chapters (mkDragEndEvent active (Some over))
       = Some (Stored moved)
    /\ (forall dragged j,
           find (fun ch => Nat.eqb (id ch) active) chapters = Some dragged ->
           findIndex (fun ch => Nat.eqb (id ch) over) chapters = Z.of_nat j ->
           nth_error moved j = Some dragged).
Proof.
  intros Hne Hnonempty.
  set (isActive := fun ch : Chapter => Nat.eqb (id ch) active).
  set (isOver := fun ch : Chapter => Nat.eqb (id ch) over).
  assert (Hrange : forall p : Chapter -> bool,
             (-1 <= findIndex p chapters < Z.of_nat (List.length chapters))%Z).
  { intros p. destruct (findIndex_spec p chapters)
      as [[-> _]|(k & x & -> & Hk & _)]; [lia|].
    assert (k < List.length chapters)
      by (apply nth_error_Some; congruence). lia. }
  destruct (arrayMove_found chapters (findIndex isActive chapters)
              (findIndex isOver chapters) Hnonempty
              (Hrange isActive) (Hrange isOver)) as (x & Hx & Hmove).
  cbv zeta in Hx, Hmove.
  set (a := Z.to_nat _) in Hx, Hmove.
  set (t := Z.to_nat _) in Hmove.
  set (rest := firstn a chapters ++ skipn (S a) chapters) in Hmove.
  exists (firstn t rest ++ x :: skipn t rest).
  assert (Hperm : Permutation (firstn t rest ++ x :: skipn t rest) chapters).
  { rewrite <- Permutation_middle, firstn_skipn.
    rewrite (nth_error_split_at chapters a x Hx) at 1.
    unfold rest. now rewrite <- Permutation_middle. }
  assert (Hcall : handleDragEnd chapters (mkDragEndEvent active (Some over))
                  = ReorderChapters
                      (map Some (firstn t rest ++ x :: skipn t rest))).
  { unfold handleDragEnd. cbn [over_id active_id].
    replace (Nat.eqb active over) with false
      by (symmetry; now apply Nat.eqb_neq).
    cbn [negb]. fold isActive isOver. now rewrite Hmove. }
  split; [exact Hcall|]. split; [exact Hperm|].
  split; [now apply Permutation_map|]. split; [|split].
  - intros Hnd. eapply Permutation_NoDup; [|exact Hnd].
    apply Permutation_map. now symmetry.
  - unfold dragReorder. rewrite Hcall.
    now rewrite (reorderChapters_accepts _ _ Hperm).
  - intros dragged j Hdragged Hindex.
    fold isActive in Hdragged. fold isOver in Hindex.
    assert (Hxd : x = dragged).
    { destruct (findIndex_spec isActive chapters)
        as [[_ Hnone]|(k & y & Hk & Hy & Hfind)]; [congruence|].
      unfold a in Hx. rewrite Hk in Hx.
      replace (Z.of_nat k <? 0)%Z with false in Hx
        by (symmetry; apply Z.ltb_ge; lia).
      rewrite Nat2Z.id in Hx. congruence. }
    assert (Htj : t = j).
    { unfold t. rewrite Hindex.
      replace (Z.of_nat j <? 0)%Z with false
        by (symmetry; apply Z.ltb_ge; lia).
      apply Nat2Z.id. }
    assert (Hjlt : j < List.length chapters)
      by (pose proof (Hrange isOver); lia).
    assert (Halt : a < List.length chapters)
      by (apply nth_error_Some; congruence).
    assert (Hrest : List.length rest = List.length chapters - 1).
    { unfold rest. rewrite length_app, firstn_length_le, length_skipn by lia.
      lia. }
    rewrite Htj, nth_error_app2 by (rewrite firstn_length_le; lia).
    rewrite firstn_length_le, Nat.sub_diag by lia.
    now rewrite Hxd.
Qed.

Lemma definedSlots_Some {X : Type} (slots : list (option X)) :
  forall xs, definedSlots slots = Some xs -> slots = map Some xs.
Proof.
  induction slots as [|[x|] slots IH]; intros xs H; simpl in H.
  - now injection H as <-.
  - destruct (definedSlots slots) as [ys|]; [|discriminate].
    injection H as <-. simpl. now rewrite (IH ys eq_refl).
  - discriminate.
Qed.

Lemma samePopulation_complete (xs ys : list Id) :
  samePopulation xs ys = true -> Permutation xs ys.
Proof.
  unfold samePopulation. intros H.
  apply (Permutation_count_occ Nat.eq_dec). intros i.
  destruct (in_dec Nat.eq_dec i (xs ++ ys)) as [Hin|Hout].
  - apply Nat.eqb_eq. exact (proj1 (forallb_forall _ _) H i Hin).
  - rewrite (proj1 (count_occ_not_In Nat.eq_dec xs i)),
      (proj1 (count_occ_not_In Nat.eq_dec ys i)); [reflexivity| |];
      intros Hi; apply Hout, in_or_app; tauto.
Qed.

Lemma reorderChapters_refuses (current : list Chapter)
      (supplied : list (option Chapter)) :
  (forall new,
      supplied = map Some new ->
      ~ Permutation (map id new) (map id current)) ->
  reorderChapters current supplied = InvalidReorder current.
Proof.
  intros H. unfold reorderChapters.
  destruct (definedSlots supplied) as [new|] eqn:E; [|reflexivity].
  destruct (samePopulation (map id current) (map id new)) eqn:Es;
    [|reflexivity].
  elim (H new (definedSlots_Some _ _ E)).
  symmetry. now apply samePopulation_complete.
Qed.

Lemma map_Some_inj {X : Type} (xs ys : list X) :
  map Some xs = map Some ys -> xs = ys.
Proof.
  revert ys. induction xs as [|x xs IH]; intros [|y ys] H;
    try discriminate; [reflexivity|].
  injection H as -> H. now rewrite (IH ys H).
Qed.

(** C4.  The reorder of Contract B takes exactly the permutations.  A
    supplied sequence whose identifiers are not a permutation of the
    identifiers of the current list (an undefined slot, a missing, an
    unknown or a repeated identifier) is refused with [InvalidReorder] and
    the stored list stays as it was.  A sequence whose identifiers are a
    permutation of the current ones is stored as it is, in the given order,
    with the same identifiers as before, each once when they were distinct.
    The drag handler, which is what feeds this operation, validates nothing
    itself: for a list that is not empty it always supplies a rearrangement
    of the current list, which is stored; on the empty list it supplies one
    undefined slot, which is refused. *)
Theorem reorder_takes_exactly_the_permutations (current : list Chapter) :
  (forall supplied,
      (forall new,
          supplied = map Some new ->
          ~ Permutation (map id new) (map id current)) ->
      reorderChapters current supplied = InvalidReorder current)
  /\ (forall new,
         (exists i, In i (map id current) /\ ~ In i (map id new))
         \/ (exists i, In i (map id new) /\ ~ In i (map id current))
         \/ (NoDup (map id current) /\ ~ NoDup (map id new)) ->
         reorderChapters current (map Some new) = InvalidReorder current)
  /\ (forall new,
         Permutation (map id new) (map id current) ->
         reorderChapters current (map Some new) = Stored new
         /\ (forall i, In i (map id new) <-> In i (map id current))
         /\ (NoDup (map id current) -> NoDup (map id new)))
  /\ (forall active over,
         active <> over ->
         match current with
         | [] =>
             handleDragEnd current (mkDragEndEvent active (Some over))
             = ReorderChapters [None]
             /\ dragReorder current (mkDragEndEvent active (Some over))
                = Some (InvalidReorder current)
         | _ :: _ =>
             exists moved,
               handleDragEnd current (mkDragEndEvent active (Some over))
               = ReorderChapters (map Some moved)
               /\ Permutation (map id moved) (map id current)
               /\ dragReorder current (mkDragEndEvent active (Some over))
                  = Some (Stored moved)
         end).
Proof.
  split; [apply reorderChapters_refuses|]. split; [|split].
  - intros new Hkind. apply reorderChapters_refuses.
    intros new' Heq Hperm. apply map_Some_inj in Heq. subst new'.
    destruct Hkind as [(i & Hin & Hout)|[(i & Hin & Hout)|(Hnd & Hdup)]].
    + apply Hout. eapply Permutation_in; [symmetry; exact Hperm | exact Hin].
    + apply Hout. eapply Permutation_in; [exact Hperm | exact Hin].
    + apply Hdup. eapply Permutation_NoDup; [symmetry; exact Hperm | exact Hnd].
  - intros new Hperm. split; [|split].
    + unfold reorderChapters. rewrite definedSlots_map.
      now rewrite (samePopulation_perm _ _ (Permutation_sym Hperm)).
    + intros i. split; apply Permutation_in;
        [exact Hperm | symmetry; exact Hperm].
    + intros Hnd. eapply Permutation_NoDup; [symmetry; exact Hperm | exact Hnd].
  - intros active over Hne. destruct current as [|c0 cs] eqn:Ecurrent.
    + unfold dragReorder, handleDragEnd. cbn [over_id active_id].
      replace (Nat.eqb active over) with false
        by (symmetry; now apply Nat.eqb_neq).
      split; reflexivity.
    + rewrite <- Ecurrent.
      destruct (drag_hands_over_a_rearrangement current active over Hne)
        as (moved & Hcall & _ & Hids & _ & Hstore & _);
        [rewrite Ecurrent; discriminate|].
      now exists moved.
Qed.

(** The reorder at sample sequences for the list [1; 2; 3]: a permutation;
    a missing, an unknown and a repeated identifier; and what the handler
    supplies for an unknown dragged identifier and on the empty list. *)
Example reorder_at_sample_sequences :
  reorderChapters threeChapters
    (map Some [stored 3 chapter; stored 1 chapter; stored 2 chapter])
  = Stored [stored 3 chapter; stored 1 chapter; stored 2 chapter]
  /\ reorderChapters threeChapters
       (map Some [stored 1 chapter; stored 2 chapter])
     = InvalidReorder threeChapters
  /\ reorderChapters threeChapters
       (map Some [stored 1 chapter; stored 2 chapter; stored 4 chapter])
     = InvalidReorder threeChapters
  /\ reorderChapters threeChapters
       (map Some [stored 1 chapter; stored 1 chapter; stored 2 chapter;
                  stored 3 chapter])
     = InvalidReorder threeChapters
  /\ dragReorder threeChapters (mkDragEndEvent 99 (Some 1))
     = Some (Stored [stored 3 chapter; stored 1 chapter; stored 2 chapter])
  /\ dragReorder [] (mkDragEndEvent 1 (Some 2)) = Some (InvalidReorder []).
Proof. repeat split. Qed.

(** In the list [1; 2; 3]: a sequence without identifier 3 is refused, and
    the permutation [3; 1; 2] is stored. *)
Lemma reorder_takes_exactly_the_permutations_example :
  reorderChapters threeChapters (map Some [stored 1 chapter; stored 2 chapter])
  = InvalidReorder threeChapters
  /\ reorderChapters threeChapters
       (map Some [stored 3 chapter; stored 1 chapter; stored 2 chapter])
     = Stored [stored 3 chapter; stored 1 chapter; stored 2 chapter].
Proof.
  destruct (reorder_takes_exactly_the_permutations threeChapters)
    as (_ & Hkind & Hperm & _).
  split.
  - apply Hkind. left. exists 3. split.
    + simpl. tauto.
    + simpl. intros [H|[H|[]]]; discriminate.
  - apply Hperm. apply (Permutation_cons_append [1; 2] 3).
Defined.

Example drag_first_onto_last :
  handleDragEnd threeChapters (mkDragEndEvent 1 (Some 3))
  = ReorderChapters
      (map Some [stored 2 chapter; stored 3 chapter; stored 1 chapter]).
Proof. reflexivity. Qed.

(* ------------------------------------------------------------------ *)
(** ** The statements at sample batches *)

(** Folder 2 before folder 1: the import runs to its end and the chapter
    requests follow the batch. *)
Lemma requests_in_segment_and_batch_order_example :
  importSettled codeUnitCompare batchTwoBeforeOne = Fulfilled tt
  /\ filter (makesRequest batchTwoBeforeOne) (foldersInOrder batchTwoBeforeOne)
     = ["BAB 2 - Dua"; "BAB 1 - Satu"]
  /\ Forall2 (requestOfFolder codeUnitCompare batchTwoBeforeOne)
             ["BAB 2 - Dua"; "BAB 1 - Satu"]
             (mainChapters (importCalls codeUnitCompare batchTwoBeforeOne)).
Proof.
  destruct (requests_in_segment_and_batch_order
              codeUnitCompare batchTwoBeforeOne)
    as (_ & _ & _ & (reached & rest & Hsplit & Hrel & Hrest) & _).
  split; [reflexivity|]. split; [reflexivity|].
  rewrite (Hrest eq_refl), app_nil_r in Hsplit. subst reached.
  exact Hrel.
Defined.

(** Two folders with the same title, the second in the batch with the
    smaller number: the first request is the one of the first folder, since
    it carries that folder's text. *)
Example same_title_folders_keep_batch_order :
  map (fun c => (title c, map sub_content (subChapters c)))
      (importCalls codeUnitCompare batchSameTitle)
  = [("Isi", ["dari bab 2"]); ("Isi", ["dari bab 1"])]
  /\ ~ Forall2 (requestOfFolder codeUnitCompare batchSameTitle)
               ["BAB 1 - Isi"; "BAB 2 - Isi"]
               (mainChapters (importCalls codeUnitCompare batchSameTitle)).
Proof.
  split; [reflexivity|].
  intros H. inversion H as [|k c ks cs (_ & _ & Hsubs) _]; subst.
  vm_compute in Hsubs.
  inversion Hsubs as [|f sc fs scs (_ & Htext) _]; subst.
  discriminate.
Qed.

(** The folder without sub-chapter file: no chapter request. *)
Lemma no_request_without_subchapters_example :
  importSettled codeUnitCompare batchNoSubChapter = Fulfilled tt
  /\ List.length (mainChapters (importCalls codeUnitCompare batchNoSubChapter))
     = List.length (filter (makesRequest batchNoSubChapter)
                           (foldersInOrder batchNoSubChapter))
  /\ filter (makesRequest batchNoSubChapter) (foldersInOrder batchNoSubChapter)
     = [].
Proof.
  destruct (no_request_without_subchapters
              codeUnitCompare batchNoSubChapter) as (_ & _ & H).
  split; [reflexivity|]. split; [|reflexivity].
  apply H. reflexivity.
Defined.


(* ------------------------------------------------------------------ *)
(** * Further properties of the component *)

(** ** Strings and the matcher *)

Lemma append_assoc (a b c : string) : ((a ++ b) ++ c = a ++ (b ++ c))%string.
Proof. induction a as [|x a IH]; simpl; [reflexivity | now rewrite IH]. Qed.

Lemma append_nil_r (a : string) : (a ++ "" = a)%string.
Proof. induction a as [|x a IH]; simpl; [reflexivity | now rewrite IH]. Qed.

Lemma length_append (a b : string) :
  String.length (a ++ b) = String.length a + String.length b.
Proof. induction a as [|x a IH]; simpl; [reflexivity | now rewrite IH]. Qed.

Lemma substring_prefix (a b : string) :
  substring 0 (String.length a) (a ++ b) = a.
Proof.
  induction a as [|x a IH]; simpl; [now destruct b | now rewrite IH].
Qed.

Lemma consumed_append (a b : string) : Regex.consumed (a ++ b)%string b = a.
Proof.
  unfold Regex.consumed. rewrite length_append.
  replace (String.length a + String.length b - String.length b)
    with (String.length a) by lia.
  apply substring_prefix.
Qed.

Lemma allOf_append (cls : ascii -> bool) (a b : string) :
  allOf cls (a ++ b) = (allOf cls a && allOf cls b)%bool.
Proof.
  induction a as [|x a IH]; simpl; [reflexivity|].
  now rewrite IH, andb_assoc.
Qed.

Lemma dropPrefix_append (p s : string) : Js.dropPrefix p (p ++ s) = Some s.
Proof.
  induction p as [|x p IH]; simpl; [reflexivity|].
  now rewrite Ascii.eqb_refl.
Qed.

Lemma dropPrefix_inv (p : string) :
  forall s s', Js.dropPrefix p s = Some s' -> s = (p ++ s')%string.
Proof.
  induction p as [|x p IH]; intros s s' H; simpl in H.
  - now injection H as ->.
  - destruct s as [|y s]; [discriminate|].
    destruct (Ascii.eqb x y) eqn:E; [|discriminate].
    apply Ascii.eqb_eq in E. subst y. simpl. f_equal. now apply IH.
Qed.

Section MatcherFacts.
Context {A : Type}.
Variable cls : ascii -> bool.
Variable k : string -> option A.

(** A success after fewer characters is found again after more. *)
Lemma more_prefix (xs : string) :
  forall ys r,
    allOf cls xs = true ->
    Regex.more cls ys k = Some r ->
    Regex.more cls (xs ++ ys) k = Some r.
Proof.
  induction xs as [|x xs IH]; intros ys r Hxs Hys; [exact Hys|].
  simpl in Hxs. apply andb_prop in Hxs as [Hx Hxs].
  cbn [append Regex.more]. rewrite Hx.
  now rewrite (IH ys r Hxs Hys).
Qed.

Lemma more_at_stop (s : string) :
  stopsRun cls s = true -> Regex.more cls s k = k s.
Proof.
  destruct s as [|c s]; simpl; [reflexivity|].
  intros H. apply negb_true_iff in H. now rewrite H.
Qed.

(** The longest run is tried first: when the rest of the pattern accepts
    what follows the whole run, that is the match. *)
Lemma plus_longest (xs rest : string) (r : A) :
  xs <> EmptyString ->
  allOf cls xs = true ->
  stopsRun cls rest = true ->
  k rest = Some r ->
  Regex.plus cls (xs ++ rest) k = Some r.
Proof.
  intros Hne Hxs Hstop Hk.
  destruct xs as [|x xs]; [now elim Hne|].
  simpl in Hxs. apply andb_prop in Hxs as [Hx Hxs].
  cbn [append Regex.plus]. rewrite Hx.
  apply more_prefix; [exact Hxs|].
  now rewrite more_at_stop.
Qed.

(** What a success of a repetition tells. *)
Lemma more_inv (s : string) :
  forall r,
    Regex.more cls s k = Some r ->
    exists pre s',
      s = (pre ++ s')%string /\ allOf cls pre = true /\ k s' = Some r.
Proof.
  induction s as [|c s IH]; intros r H; cbn [Regex.more] in H.
  - exists EmptyString, EmptyString. now repeat split.
  - destruct (cls c) eqn:Ec.
    + destruct (Regex.more cls s k) as [r'|] eqn:Em.
      * injection H as ->.
        destruct (IH r eq_refl) as (pre & s' & -> & Hpre & Hk).
        exists (String c pre), s'. simpl. rewrite Ec, Hpre. now repeat split.
      * exists EmptyString, (String c s). now repeat split.
    + exists EmptyString, (String c s). now repeat split.
Qed.

Lemma plus_inv (s : string) (r : A) :
  Regex.plus cls s k = Some r ->
  exists pre s',
    s = (pre ++ s')%string /\ pre <> EmptyString
    /\ allOf cls pre = true /\ k s' = Some r.
Proof.
  destruct s as [|c s]; cbn [Regex.plus]; [discriminate|].
  destruct (cls c) eqn:Ec; [|discriminate].
  intros H. apply more_inv in H as (pre & s' & -> & Hpre & Hk).
  exists (String c pre), s'. simpl. rewrite Ec, Hpre.
  repeat split; [discriminate | exact Hk].
Qed.

(** When the rest of the pattern accepts everything, the repetition takes
    the whole run. *)
Lemma more_total (s : string) :
  (forall s', k s' <> None) ->
  exists pre s',
    s = (pre ++ s')%string /\ allOf cls pre = true
    /\ stopsRun cls s' = true /\ Regex.more cls s k = k s'.
Proof.
  intros Hk. induction s as [|c s IH].
  - exists EmptyString, EmptyString. now repeat split.
  - cbn [Regex.more]. destruct (cls c) eqn:Ec.
    + destruct IH as (pre & s' & -> & Hpre & Hstop & Hm).
      exists (String c pre), s'. simpl. rewrite Ec, Hpre, Hm.
      destruct (k s') eqn:E; [now repeat split | now elim (Hk s')].
    + exists EmptyString, (String c s). simpl. rewrite Ec. now repeat split.
Qed.
End MatcherFacts.

Lemma exec_inv (r : Regex.t) (s : string) :
  forall m,
    Regex.exec r s = Some m ->
    exists pre s0,
      s = (pre ++ s0)%string
      /\ Regex.run r s0 [] (fun s' caps => Some (Regex.consumed s0 s' :: caps))
         = Some m.
Proof.
  induction s as [|c s IH]; intros m H; cbn [Regex.exec] in H.
  - exists EmptyString, EmptyString. split; [reflexivity|].
    now destruct (Regex.run r "" [] _).
  - destruct (Regex.run r (String c s) [] _) as [m'|] eqn:E.
    + injection H as ->. exists EmptyString, (String c s). now split.
    + destruct (IH m H) as (pre & s0 & -> & Hrun).
      exists (String c pre), s0. now split.
Qed.

Lemma exec_at_start (r : Regex.t) (s : string) (m : list string) :
  Regex.run r s [] (fun s' caps => Some (Regex.consumed s s' :: caps)) = Some m ->
  Regex.exec r s = Some m.
Proof.
  intros H. destruct s; cbn [Regex.exec]; now rewrite H.
Qed.

Lemma plus_prefix {A : Type} (cls : ascii -> bool) (k : string -> option A)
      (xs ys : string) (r : A) :
  xs <> EmptyString ->
  allOf cls xs = true ->
  Regex.more cls ys k = Some r ->
  Regex.plus cls (xs ++ ys) k = Some r.
Proof.
  intros Hne Hxs Hys. destruct xs as [|x xs]; [now elim Hne|].
  simpl in Hxs. apply andb_prop in Hxs as [Hx Hxs].
  cbn [append Regex.plus]. rewrite Hx. now apply more_prefix.
Qed.

Lemma plus_total {A : Type} (cls : ascii -> bool) (k : string -> option A)
      (s : string) (r : A) :
  (forall s', k s' <> None) ->
  Regex.plus cls s k = Some r ->
  exists pre s',
    s = (pre ++ s')%string /\ pre <> EmptyString /\ allOf cls pre = true
    /\ stopsRun cls s' = true /\ k s' = Some r.
Proof.
  intros Hk. destruct s as [|c s]; cbn [Regex.plus]; [discriminate|].
  destruct (cls c) eqn:Ec; [|discriminate].
  destruct (more_total cls k s Hk) as (pre & s' & -> & Hpre & Hstop & ->).
  intros H. exists (String c pre), s'. simpl. rewrite Ec, Hpre.
  repeat split; [discriminate | exact Hstop | exact H].
Qed.

Lemma consumed_all (s : string) : Regex.consumed s EmptyString = s.
Proof.
  rewrite <- (append_nil_r s) at 1. apply consumed_append.
Qed.

Lemma stopsRun_append (cls : ascii -> bool) (a b : string) :
  a <> EmptyString -> stopsRun cls (a ++ b) = stopsRun cls a.
Proof. destruct a; [congruence | reflexivity]. Qed.

Lemma space_is_no_digit (c : ascii) :
  Regex.space c = true -> Regex.digit c = false.
Proof.
  unfold Regex.space, Regex.digit, Js.inRange.
  intros H. apply andb_false_iff.
  repeat (apply orb_prop in H as [H|H]).
  - apply andb_prop in H as [_ H]. apply N.leb_le in H.
    left. apply N.leb_gt. lia.
  - apply N.eqb_eq in H. left. apply N.leb_gt. lia.
  - apply N.eqb_eq in H. right. apply N.leb_gt. lia.
Qed.

Lemma stopsRun_space_digit (s : string) :
  s <> EmptyString -> allOf Regex.space s = true ->
  stopsRun Regex.digit s = true.
Proof.
  destruct s as [|c s]; [congruence|]. simpl. intros _ H.
  apply andb_prop in H as [H _]. now rewrite (space_is_no_digit c H).
Qed.

(* ------------------------------------------------------------------ *)
(** ** The names of chapter folders and sub-chapter files *)

(** A folder named "BAB <digits> - <title>" is a chapter folder with that
    title and that number. *)
Theorem chapter_folder_name_parses (digits t : string) :
  digits <> EmptyString ->
  allOf Regex.digit digits = true ->
  t <> EmptyString ->
  allOf Regex.dot t = true ->
  let folder := ("BAB " ++ digits ++ " - " ++ t)%string in
  Regex.exec chapterFolderRegex folder = Some [folder; digits; t]
  /\ chapterFolderTitle folder = Some t
  /\ chapterFolderNumber folder = Some (Js.parseInt digits).
Proof.
  intros Hd Hdigits Ht Hdots folder.
  assert (Hexec : Regex.exec chapterFolderRegex folder = Some [folder; digits; t]).
  { apply exec_at_start. unfold chapterFolderRegex, folder.
    cbn [Regex.run]. change ("BAB " ++ digits ++ " - " ++ t)%string
      with ("BAB " ++ (digits ++ " - " ++ t))%string.
    rewrite dropPrefix_append.
    apply plus_longest; [exact Hd | exact Hdigits | reflexivity |].
    rewrite dropPrefix_append.
    rewrite <- (append_nil_r t) at 1.
    apply plus_longest; [exact Ht | exact Hdots | reflexivity |].
    cbv beta. rewrite !consumed_all, consumed_append.
    reflexivity. }
  unfold chapterFolderTitle, chapterFolderNumber. rewrite Hexec.
  repeat split.
Qed.

Lemma chapter_folder_name_parses_example :
  chapterFolderTitle "BAB 12 - Dasar Teori" = Some "Dasar Teori"
  /\ chapterFolderNumber "BAB 12 - Dasar Teori" = Some (Js.Finite 12).
Proof.
  destruct (chapter_folder_name_parses "12" "Dasar Teori")
    as (_ & Ht & Hn); try reflexivity; try discriminate.
  split; [exact Ht | exact Hn].
Defined.

Lemma chapterFolderTitle_shape (folder t : string) :
  chapterFolderTitle folder = Some t ->
  exists before digits after,
    folder = (before ++ "BAB " ++ digits ++ " - " ++ t ++ after)%string
    /\ digits <> EmptyString /\ allOf Regex.digit digits = true
    /\ t <> EmptyString /\ allOf Regex.dot t = true
    /\ stopsRun Regex.dot after = true
    /\ chapterFolderNumber folder = Some (Js.parseInt digits).
Proof.
  unfold chapterFolderTitle, chapterFolderNumber.
  destruct (Regex.exec chapterFolderRegex folder) as [m|] eqn:E;
    [|discriminate].
  intros Ht. injection Ht as Ht.
  apply exec_inv in E as (before & s0 & -> & Hrun).
  unfold chapterFolderRegex in Hrun. cbn [Regex.run] in Hrun.
  destruct (Js.dropPrefix "BAB " s0) as [s1|] eqn:E1; [|discriminate].
  apply dropPrefix_inv in E1. subst s0.
  apply plus_inv in Hrun as (digits & s2 & -> & Hd & Hdigits & Hrun).
  destruct (Js.dropPrefix " - " s2) as [s3|] eqn:E2; [|discriminate].
  apply dropPrefix_inv in E2. subst s2.
  apply plus_total in Hrun as (t' & after & -> & Ht' & Hdots & Hstop & Hrun);
    [|discriminate].
  injection Hrun as <-. cbn [app Regex.at_ nth] in Ht |- *.
  rewrite !consumed_append in Ht |- *. subst t'.
  exists before, digits, after. now repeat split.
Qed.


(** What the title of a chapter folder is: the folder name has "BAB ", a
    run of digits, " - " and then the title, which is not empty and runs up
    to the end of the name or to the first line terminator. *)
Theorem chapter_folder_title_is_part_of_name (folder t : string) :
  chapterFolderTitle folder = Some t ->
  exists before digits after,
    folder = (before ++ "BAB " ++ digits ++ " - " ++ t ++ after)%string
    /\ digits <> EmptyString /\ allOf Regex.digit digits = true
    /\ t <> EmptyString /\ allOf Regex.dot t = true
    /\ stopsRun Regex.dot after = true
    /\ chapterFolderNumber folder = Some (Js.parseInt digits).
Proof. exact (chapterFolderTitle_shape folder t). Qed.

Lemma chapter_folder_title_is_part_of_name_example :
  exists before digits after,
    "Arsip BAB 7 - Hasil" = (before ++ "BAB " ++ digits ++ " - " ++ "Hasil" ++ after)%string
    /\ digits <> EmptyString /\ allOf Regex.digit digits = true
    /\ "Hasil" <> EmptyString /\ allOf Regex.dot "Hasil" = true
    /\ stopsRun Regex.dot after = true
    /\ chapterFolderNumber "Arsip BAB 7 - Hasil" = Some (Js.parseInt digits).
Proof.
  apply (chapter_folder_title_is_part_of_name "Arsip BAB 7 - Hasil" "Hasil").
  reflexivity.
Defined.

(** A file named "<digits>.<digits><white space><title>.txt", the title
    starting with a visible character, is a sub-chapter file with that
    title; the title may itself contain dots, also ".txt". *)
Theorem subchapter_file_name_parses
        (d1 d2 ws t : string) (path : string) (txt : TextResult) :
  d1 <> EmptyString -> allOf Regex.digit d1 = true ->
  d2 <> EmptyString -> allOf Regex.digit d2 = true ->
  ws <> EmptyString -> allOf Regex.space ws = true ->
  t <> EmptyString -> allOf Regex.dot t = true ->
  stopsRun Regex.space t = true ->
  let fileName := (d1 ++ "." ++ d2 ++ ws ++ t ++ ".txt")%string in
  Regex.exec subChapterRegex fileName
  = Some [fileName; (d1 ++ "." ++ d2)%string; t]
  /\ matchesSubChapter (mkFile path fileName txt) = true
  /\ subChapterTitle (mkFile path fileName txt) = t.
Proof.
  intros H1 Hd1 H2 Hd2 Hw Hws Ht Hdots Hstart fileName.
  assert (Hexec : Regex.exec subChapterRegex fileName
                  = Some [fileName; (d1 ++ "." ++ d2)%string; t]).
  { apply exec_at_start. unfold subChapterRegex, fileName.
    cbn [Regex.run].
    apply plus_longest; [exact H1 | exact Hd1 | reflexivity |].
    change ("." ++ d2 ++ ws ++ t ++ ".txt")%string
      with ("." ++ (d2 ++ ws ++ t ++ ".txt"))%string.
    rewrite dropPrefix_append.
    apply plus_longest; [exact H2 | exact Hd2 | |].
    { rewrite stopsRun_append by exact Hw.
      now apply stopsRun_space_digit. }
    apply plus_longest; [exact Hw | exact Hws | |].
    { now rewrite stopsRun_append by exact Ht. }
    apply plus_prefix; [exact Ht | exact Hdots |].
    cbn [Regex.more Regex.dot Js.code N_of_ascii N.eqb orb negb
         N_of_digits Js.dropPrefix Ascii.eqb Bool.eqb andb].
    cbn.
    rewrite consumed_all, consumed_append.
    assert (Hgroup : Regex.consumed
                       (d1 ++ String "." (d2 ++ ws ++ t ++ ".txt"))
                       (ws ++ t ++ ".txt")
                     = (d1 ++ String "." d2)%string).
    { replace (d1 ++ String "." (d2 ++ ws ++ t ++ ".txt"))%string
        with ((d1 ++ String "." d2) ++ (ws ++ t ++ ".txt"))%string
        by (now rewrite append_assoc).
      apply consumed_append. }
    now rewrite Hgroup. }
  unfold matchesSubChapter, subChapterTitle. cbn [name]. rewrite Hexec.
  repeat split.
Qed.

Lemma subchapter_file_name_parses_example :
  subChapterTitle
    (mkFile "Buku/BAB 1 - A/1.10  Apa itu .txt.txt" "1.10  Apa itu .txt.txt"
            (TextOk "isi"))
  = "Apa itu .txt".
Proof.
  apply (subchapter_file_name_parses "1" "10" "  " "Apa itu .txt");
    reflexivity || discriminate.
Defined.

Lemma subChapterTitle_shape (file : File) :
  matchesSubChapter file = true ->
  exists before d1 d2 ws,
    name file
    = (before ++ d1 ++ "." ++ d2 ++ ws ++ subChapterTitle file ++ ".txt")%string
    /\ d1 <> EmptyString /\ allOf Regex.digit d1 = true
    /\ d2 <> EmptyString /\ allOf Regex.digit d2 = true
    /\ ws <> EmptyString /\ allOf Regex.space ws = true
    /\ subChapterTitle file <> EmptyString
    /\ allOf Regex.dot (subChapterTitle file) = true.
Proof.
  unfold matchesSubChapter, subChapterTitle.
  destruct (Regex.exec subChapterRegex (name file)) as [m|] eqn:E;
    [intros _|discriminate].
  apply exec_inv in E as (before & s0 & -> & Hrun).
  unfold subChapterRegex in Hrun. cbn [Regex.run] in Hrun.
  apply plus_inv in Hrun as (d1 & s1 & -> & H1 & Hd1 & Hrun).
  destruct (Js.dropPrefix "." s1) as [s2|] eqn:E1; [|discriminate].
  apply dropPrefix_inv in E1. subst s1.
  apply plus_inv in Hrun as (d2 & s3 & -> & H2 & Hd2 & Hrun).
  apply plus_inv in Hrun as (ws & s4 & -> & Hw & Hws & Hrun).
  apply plus_inv in Hrun as (t & s5 & -> & Ht & Hdots & Hrun).
  destruct (Js.dropPrefix ".txt" s5) as [s6|] eqn:E2; [|discriminate].
  apply dropPrefix_inv in E2. subst s5.
  destruct s6; [|discriminate].
  injection Hrun as <-. cbn [Regex.at_ nth app].
  rewrite consumed_append.
  exists before, d1, d2, ws. now repeat split.
Qed.


(** What the title of a sub-chapter file is: the name ends in ".txt"; before
    that stands the title, which is not empty and has no line terminator,
    and before the title white space, and before that "<digits>.<digits>". *)
Theorem subchapter_title_is_part_of_name (file : File) :
  matchesSubChapter file = true ->
  exists before d1 d2 ws,
    name file
    = (before ++ d1 ++ "." ++ d2 ++ ws ++ subChapterTitle file ++ ".txt")%string
    /\ d1 <> EmptyString /\ allOf Regex.digit d1 = true
    /\ d2 <> EmptyString /\ allOf Regex.digit d2 = true
    /\ ws <> EmptyString /\ allOf Regex.space ws = true
    /\ subChapterTitle file <> EmptyString
    /\ allOf Regex.dot (subChapterTitle file) = true.
Proof. exact (subChapterTitle_shape file). Qed.

Lemma subchapter_title_is_part_of_name_example :
  exists before d1 d2 ws,
    "Bagian 2.3   Metode.txt"
    = (before ++ d1 ++ "." ++ d2 ++ ws ++ "Metode" ++ ".txt")%string
    /\ d1 <> EmptyString /\ allOf Regex.digit d1 = true
    /\ d2 <> EmptyString /\ allOf Regex.digit d2 = true
    /\ ws <> EmptyString /\ allOf Regex.space ws = true
    /\ "Metode" <> EmptyString
    /\ allOf Regex.dot "Metode" = true.
Proof.
  apply (subchapter_title_is_part_of_name
           (mkFile "Buku/BAB 2 - B/Bagian 2.3   Metode.txt"
                   "Bagian 2.3   Metode.txt" (TextOk "isi"))).
  reflexivity.
Defined.

(** No request has an empty title or a title with a line break, and neither
    has any sub-chapter. *)
Theorem requests_have_single_line_titles
        (localeCompare : string -> string -> Z) (files : list File) :
  Forall (fun c =>
            title c <> EmptyString
            /\ allOf Regex.dot (title c) = true
            /\ Forall (fun sc =>
                         sub_title sc <> EmptyString
                         /\ allOf Regex.dot (sub_title sc) = true)
                      (subChapters c))
         (importCalls localeCompare files).
Proof.
  destruct (import_shape localeCompare files)
    as (front & chapters & back & rest & -> & Hf & Hc & Hb & _).
  assert (Hmarker : forall isMarker t ty cs,
             t <> EmptyString -> allOf Regex.dot t = true ->
             markerRequest files isMarker t ty cs ->
             Forall (fun c =>
                       title c <> EmptyString
                       /\ allOf Regex.dot (title c) = true
                       /\ Forall (fun sc =>
                                    sub_title sc <> EmptyString
                                    /\ allOf Regex.dot (sub_title sc) = true)
                                 (subChapters c)) cs).
  { intros isMarker t ty cs Hne Hdots [->|(i & f & txt & _ & _ & ->)];
      constructor; [|constructor].
    cbn [title subChapters]. now repeat split. }
  repeat (apply Forall_app; split).
  - apply (Hmarker isFrontmatterFile "Kata Pengantar" frontmatter front);
      [discriminate | reflexivity | exact Hf].
  - eapply Forall_impl; [|exact Hc].
    intros c (i & folder & subs & _ & Ht & _ & Hsubs & Hc').
    apply chapterFolderTitle_shape in Ht
      as (_ & _ & _ & _ & _ & _ & Hne & Hdots & _).
    split; [exact Hne|]. split; [exact Hdots|].
    rewrite Hc'. cbn [subChapters].
    eapply Forall_impl; [|exact Hsubs].
    intros sc (f & _ & _ & Hm & Htitle & _).
    apply subChapterTitle_shape in Hm
      as (_ & _ & _ & _ & _ & _ & _ & _ & _ & _ & _ & Hne' & Hdots').
    now rewrite Htitle.
  - apply (Hmarker isBackmatterFile "Penutup" backmatter back);
      [discriminate | reflexivity | exact Hb].
Qed.

(* ------------------------------------------------------------------ *)
(** ** Marker files *)

Lemma includes_iff (sub : string) (s : string) :
  Js.includes s sub = true <-> exists a b, s = (a ++ sub ++ b)%string.
Proof.
  split.
  - induction s as [|c s IH]; cbn [Js.includes]; unfold Js.startsWith.
    + destruct (Js.dropPrefix sub "") as [s'|] eqn:E; [|discriminate].
      intros _. apply dropPrefix_inv in E. now exists EmptyString, s'.
    + destruct (Js.dropPrefix sub (String c s)) as [s'|] eqn:E.
      * intros _. apply dropPrefix_inv in E. now exists EmptyString, s'.
      * intros H. destruct (IH H) as (a & b & ->).
        now exists (String c a), b.
  - intros (a & b & ->). induction a as [|c a IH].
    + cbn [append]. destruct (sub ++ b)%string eqn:E;
        cbn [Js.includes]; unfold Js.startsWith;
        rewrite <- E, dropPrefix_append; reflexivity.
    + cbn [append Js.includes]. rewrite IH.
      now destruct (Js.startsWith sub _).
Qed.

Lemma toLowerCase_append (a b : string) :
  Js.toLowerCase (a ++ b) = (Js.toLowerCase a ++ Js.toLowerCase b)%string.
Proof. induction a as [|c a IH]; simpl; [reflexivity | now rewrite IH]. Qed.

Lemma toLowerCase_split (x : string) :
  forall s y,
    Js.toLowerCase s = (x ++ y)%string ->
    exists s1 s2,
      s = (s1 ++ s2)%string /\ Js.toLowerCase s1 = x /\ Js.toLowerCase s2 = y.
Proof.
  induction x as [|c x IH]; intros s y H.
  - now exists EmptyString, s.
  - destruct s as [|d s]; [discriminate|].
    cbn [Js.toLowerCase append] in H. injection H as Hc H.
    destruct (IH s y H) as (s1 & s2 & -> & H1 & H2).
    exists (String d s1), s2. cbn [Js.toLowerCase append].
    now rewrite Hc, H1.
Qed.

Lemma marker_in_name (marker : string) (fileName : string) :
  Js.includes (Js.toLowerCase fileName) marker = true
  <-> exists before m after,
      fileName = (before ++ m ++ after)%string /\ Js.toLowerCase m = marker.
Proof.
  rewrite includes_iff. split.
  - intros (a & b & H).
    apply toLowerCase_split in H as (s1 & s2 & -> & _ & H).
    apply toLowerCase_split in H as (m & s3 & -> & Hm & _).
    now exists s1, m, s3.
  - intros (before & m & after & -> & <-).
    exists (Js.toLowerCase before), (Js.toLowerCase after).
    now rewrite !toLowerCase_append.
Qed.

(** A file is a front-matter (back-matter) file exactly when its name
    contains "kata pengantar" ("penutup") in some mix of upper and lower
    case, anywhere in the name; the path plays no part. *)
Theorem marker_is_found_in_any_case (file : File) :
  (isFrontmatterFile file = true
   <-> exists before m after,
       name file = (before ++ m ++ after)%string
       /\ Js.toLowerCase m = "kata pengantar")
  /\ (isBackmatterFile file = true
      <-> exists before m after,
          name file = (before ++ m ++ after)%string
          /\ Js.toLowerCase m = "penutup").
Proof.
  split; apply marker_in_name.
Qed.

Example marker_in_capitals :
  isFrontmatterFile (readable "Buku/00 KATA Pengantar (baru).TXT"
                              "00 KATA Pengantar (baru).TXT" "isi") = true
  /\ isBackmatterFile (readable "Buku/PenuTUP.docx" "PenuTUP.docx" "isi") = true
  /\ isFrontmatterFile (readable "Kata Pengantar/catatan.txt" "catatan.txt" "isi")
     = false.
Proof. repeat split. Qed.

Lemma find_first {X : Type} (p : X -> bool) (before : list X) (x : X)
      (after : list X) :
  Forall (fun y => p y = false) before ->
  p x = true ->
  find p (before ++ x :: after) = Some x.
Proof.
  induction 1 as [|y before Hy _ IH]; intros Hx; simpl.
  - now rewrite Hx.
  - rewrite Hy. now apply IH.
Qed.

(** Of several files that carry the front-matter marker only the first in
    batch order is used.  When it can be read, the import begins with the
    front-matter request made from it, with the first identifier, and makes
    no other front-matter request; when it cannot be read, the import ends
    at once, rejected, with nothing added. *)
Theorem first_front_matter_file_wins
        (localeCompare : string -> string -> Z)
        (before : list File) (file : File) (after : list File) :
  Forall (fun f => isFrontmatterFile f = false) before ->
  isFrontmatterFile file = true ->
  match text file with
  | TextOk txt =>
      exists rest,
        importCalls localeCompare (before ++ file :: after)
        = mkChapter 0 "Kata Pengantar" txt [] frontmatter 0 (Qmake 3 2) []
          :: rest
        /\ Forall (fun c => type c <> frontmatter) rest
  | TextFail e =>
      importRun localeCompare (before ++ file :: after)
      = (emptyWorld, Rejected e)
  end.
Proof.
  intros Hbefore Hfile.
  set (files := before ++ file :: after).
  assert (Hlen : (List.length files =? 0)%nat = false)
    by (unfold files; rewrite length_app; simpl; apply Nat.eqb_neq; lia).
  assert (Hfind : find isFrontmatterFile files = Some file)
    by (apply find_first; assumption).
  unfold importCalls, importRun, handleBulkUpload. rewrite Hlen, Hfind.
  assert (Hfront :
            processMarker (Some file) "Kata Pengantar" frontmatter emptyWorld
            = match text file with
              | TextOk txt =>
                  (mkWorld 1 [mkChapter 0 "Kata Pengantar" txt [] frontmatter 0
                                        (Qmake 3 2) []],
                   Fulfilled tt)
              | TextFail e => (emptyWorld, Rejected e)
              end).
  { unfold processMarker, bind, await, randomUUID, addChapter.
    now destruct (text file). }
  unfold bind. rewrite Hfront. clear Hfront.
  destruct (text file) as [txt|e]; [|reflexivity].
  set (w1 := mkWorld 1 _).
  generalize (forOf_run localeCompare files (groupFiles files)
                ltac:(rewrite groupFiles_groupsOf; apply incl_refl) w1).
  destruct (forOf (groupFiles files) _ w1) as [w2 st2].
  intros (chapters & notReached & Hadd2 & Hch & _).
  assert (Tc : Forall (fun c => type c <> frontmatter) chapters).
  { eapply Forall_impl; [|exact Hch].
    intros c Hc. rewrite (folderRequest_type _ _ Hc). discriminate. }
  destruct st2 as [[]|e].
  - generalize (processMarker_run localeCompare files isBackmatterFile
                                  "Penutup" backmatter w2).
    destruct (processMarker (find isBackmatterFile files) _ _ w2) as [w3 st3].
    intros (back & Hadd3 & Hback & _). cbn [fst].
    exists (chapters ++ back). rewrite Hadd3, Hadd2.
    split; [now rewrite <- app_assoc|].
    apply Forall_app. split; [exact Tc|].
    destruct (markerRequest_type _ _ _ _ _ Hback) as (Tb & _).
    eapply Forall_impl; [|exact Tb].
    intros c (Hty & _). rewrite Hty. discriminate.
  - cbn [fst]. exists chapters. now rewrite Hadd2.
Qed.

Lemma first_front_matter_file_wins_example :
  exists rest,
    importCalls codeUnitCompare
      ([readable "Buku/daftar.txt" "daftar.txt" "d"]
         ++ readable "Buku/Kata Pengantar.txt" "Kata Pengantar.txt" "pertama"
         :: [readable "Buku/Kata Pengantar lama.txt" "Kata Pengantar lama.txt"
                      "kedua"])
    = mkChapter 0 "Kata Pengantar" "pertama" [] frontmatter 0 (Qmake 3 2) []
      :: rest
    /\ Forall (fun c => type c <> frontmatter) rest.
Proof.
  apply (first_front_matter_file_wins
           codeUnitCompare
           [readable "Buku/daftar.txt" "daftar.txt" "d"]
           (readable "Buku/Kata Pengantar.txt" "Kata Pengantar.txt" "pertama")
           [readable "Buku/Kata Pengantar lama.txt" "Kata Pengantar lama.txt"
                     "kedua"]).
  - repeat constructor.
  - reflexivity.
Defined.

(* ------------------------------------------------------------------ *)
(** ** The groups of a batch *)

Lemma inFolder_true (folder : string) (f : File) :
  inFolder folder f = true <-> parentFolderOf f = Some folder.
Proof.
  unfold inFolder. destruct (parentFolderOf f) as [k|]; split; intros H;
    try discriminate.
  - apply String.eqb_eq in H. now subst.
  - injection H as ->. apply String.eqb_refl.
Qed.

Lemma foldersInOrder_In (files : list File) (folder : string) :
  In folder (foldersInOrder files)
  <-> exists f, In f files /\ parentFolderOf f = Some folder.
Proof.
  unfold foldersInOrder. rewrite firstSeen_In, in_flat_map. split.
  - intros (f & Hf & Hin). exists f. split; [exact Hf|].
    destruct (parentFolderOf f) as [k|]; [|contradiction].
    destruct Hin as [->|[]]. reflexivity.
  - intros (f & Hf & Hp). exists f. split; [exact Hf|].
    rewrite Hp. now left.
Qed.

Lemma groups_member (files : list File) (folder : string)
      (group : list File) (f : File) :
  In (folder, group) (groupFiles files) ->
  In f group ->
  In f files /\ parentFolderOf f = Some folder.
Proof.
  rewrite groupFiles_groupsOf. unfold groupsOf. intros Hin Hf.
  apply in_map_iff in Hin as (k & Heq & _). injection Heq as <- <-.
  apply filter_In in Hf as [Hf Hfolder].
  split; [exact Hf | now apply inFolder_true].
Qed.

(** The grouping loop makes one group per folder, the folder being the
    second segment of the path however deep the file lies.  The groups come
    in the order in which the batch first shows the folders, no folder
    twice; a group holds exactly the files of the batch beneath its folder,
    in batch order, and is never empty; a file lies in a group exactly when
    it is in the batch beneath that folder, so files whose path has fewer
    than two segments lie in no group. *)
Theorem groups_partition_the_batch (files : list File) :
  map fst (groupFiles files) = foldersInOrder files
  /\ NoDup (map fst (groupFiles files))
  /\ (forall folder group,
         In (folder, group) (groupFiles files) ->
         group = filter (inFolder folder) files /\ group <> [])
  /\ (forall f folder,
         (exists group, In (folder, group) (groupFiles files) /\ In f group)
         <-> In f files /\ parentFolderOf f = Some folder)
  /\ (forall f,
         List.length (Js.split_slash (webkitRelativePath f)) < 2 ->
         forall folder group,
           In (folder, group) (groupFiles files) -> ~ In f group).
Proof.
  rewrite groupFiles_groupsOf. unfold groupsOf.
  assert (Hkeys : map fst (map (fun k => (k, filter (inFolder k) files))
                               (foldersInOrder files))
                  = foldersInOrder files)
    by (rewrite map_map; apply map_id).
  assert (Hgroup : forall folder group,
             In (folder, group)
                (map (fun k => (k, filter (inFolder k) files))
                     (foldersInOrder files)) ->
             In folder (foldersInOrder files)
             /\ group = filter (inFolder folder) files).
  { intros folder group H. apply in_map_iff in H as (k & Heq & Hk).
    injection Heq as <- <-. now split. }
  assert (Hmember : forall f folder,
             (exists group,
                 In (folder, group)
                    (map (fun k => (k, filter (inFolder k) files))
                         (foldersInOrder files))
                 /\ In f group)
             <-> In f files /\ parentFolderOf f = Some folder).
  { intros f folder. split.
    - intros (group & Hin & Hf). apply Hgroup in Hin as (_ & ->).
      apply filter_In in Hf as [Hf Hfolder].
      split; [exact Hf | now apply inFolder_true].
    - intros (Hf & Hp). exists (filter (inFolder folder) files). split.
      + apply in_map_iff. exists folder. split; [reflexivity|].
        apply foldersInOrder_In. now exists f.
      + apply filter_In. split; [exact Hf | now apply inFolder_true]. }
  split; [exact Hkeys|]. split; [rewrite Hkeys; apply firstSeen_NoDup|].
  split; [|split; [exact Hmember|]].
  - intros folder group H. destruct (Hgroup _ _ H) as (Hfolder & ->).
    split; [reflexivity|].
    apply foldersInOrder_In in Hfolder as (f & Hf & Hp).
    intros Hnil.
    assert (Hin : In f (filter (inFolder folder) files))
      by (apply filter_In; split; [exact Hf | now apply inFolder_true]).
    rewrite Hnil in Hin. contradiction.
  - intros f Hshort folder group Hin Hf.
    assert (H : In f files /\ parentFolderOf f = Some folder)
      by (apply Hmember; now exists group).
    destruct H as (_ & Hp). unfold parentFolderOf in Hp.
    apply Nat.ltb_lt in Hshort. rewrite Hshort in Hp. discriminate.
Qed.

Example nested_file_goes_to_top_folder :
  groupFiles
    [ readable "Buku/BAB 1 - A/draf/1.1 X.txt" "1.1 X.txt" "x";
      readable "Buku/catatan.txt" "catatan.txt" "c";
      readable "lepas.txt" "lepas.txt" "l";
      readable "Buku/BAB 1 - A/1.2 Y.txt" "1.2 Y.txt" "y" ]
  = [ ("BAB 1 - A",
       [ readable "Buku/BAB 1 - A/draf/1.1 X.txt" "1.1 X.txt" "x";
         readable "Buku/BAB 1 - A/1.2 Y.txt" "1.2 Y.txt" "y" ]);
      ("catatan.txt", [readable "Buku/catatan.txt" "catatan.txt" "c"]) ].
Proof. reflexivity. Qed.

(* ------------------------------------------------------------------ *)
(** ** Sorting the files of a folder *)

(** The sort is stable: files with the same name stay in batch order, for
    every collation that does not put a name after itself. *)
Theorem sortByName_keeps_equal_names_in_order
        (localeCompare : string -> string -> Z) (folderFiles : list File)
        (fileName : string) :
  (forall a, (localeCompare a a <= 0)%Z) ->
  filter (fun f => String.eqb (name f) fileName)
         (sortByName localeCompare folderFiles)
  = filter (fun f => String.eqb (name f) fileName) folderFiles.
Proof.
  intros Hrefl.
  set (p := fun f : File => String.eqb (name f) fileName).
  assert (Hins : forall f l,
             filter p (sortInsert localeCompare f l)
             = filter p (f :: l)).
  { intros f l. induction l as [|g l IH]; [reflexivity|].
    cbn [sortInsert].
    destruct (localeCompare (name f) (name g) <=? 0)%Z eqn:E;
      [reflexivity|].
    cbn [filter] in *. rewrite IH.
    destruct (p f) eqn:Ef; [|reflexivity].
    destruct (p g) eqn:Eg; [|reflexivity].
    unfold p in Ef, Eg. apply String.eqb_eq in Ef, Eg.
    rewrite Ef, Eg in E. apply Z.leb_gt in E.
    specialize (Hrefl fileName). lia. }
  induction folderFiles as [|f l IH]; [reflexivity|].
  cbn [sortByName fold_right]. fold (sortByName localeCompare l).
  rewrite Hins. cbn [filter]. now rewrite IH.
Qed.

Lemma codeUnitCompare_refl (a : string) : codeUnitCompare a a = 0%Z.
Proof.
  induction a as [|x a IH]; simpl; [reflexivity|].
  now rewrite N.compare_refl.
Qed.

Lemma sortByName_keeps_equal_names_in_order_example :
  filter (fun f => String.eqb (name f) "1.1 X.txt")
         (sortByName codeUnitCompare
            [ readable "Buku/BAB 1 - A/b/1.1 X.txt" "1.1 X.txt" "dari b";
              readable "Buku/BAB 1 - A/1.0 W.txt" "1.0 W.txt" "w";
              readable "Buku/BAB 1 - A/a/1.1 X.txt" "1.1 X.txt" "dari a" ])
  = [ readable "Buku/BAB 1 - A/b/1.1 X.txt" "1.1 X.txt" "dari b";
      readable "Buku/BAB 1 - A/a/1.1 X.txt" "1.1 X.txt" "dari a" ].
Proof.
  rewrite sortByName_keeps_equal_names_in_order.
  - reflexivity.
  - intros a. rewrite codeUnitCompare_refl. lia.
Defined.

(* ------------------------------------------------------------------ *)
(** ** What is displayed *)

Lemma segments_rearrange (chapters : list Chapter) :
  Permutation
    (frontmatterChapters chapters ++ mainChapters chapters
     ++ backmatterChapters chapters)
    chapters.
Proof.
  unfold frontmatterChapters, mainChapters, backmatterChapters, isType.
  induction chapters as [|ch l IH]; [constructor|].
  cbn [filter]. destruct (type ch); cbn [ChapterType_eqb app].
  - now constructor.
  - rewrite <- Permutation_middle. now constructor.
  - rewrite app_assoc, <- Permutation_middle, <- app_assoc. now constructor.
Qed.

Lemma filter_twice {X : Type} (p q : X -> bool) (l : list X) :
  filter p (filter q l) = filter (fun x => (q x && p x)%bool) l.
Proof.
  induction l as [|x l IH]; [reflexivity|]. cbn [filter].
  destruct (q x); cbn [filter andb]; now rewrite IH.
Qed.

Lemma render_chapters (chapters : list Chapter) :
  map item_chapter (render chapters)
  = frontmatterChapters chapters ++ mainChapters chapters
    ++ backmatterChapters chapters.
Proof.
  unfold render, numberedMainChapters. rewrite !map_app, !map_map.
  cbn [item_chapter plainItem]. rewrite !map_id.
  rewrite (mapWithIndex_fst _ item_chapter (fun ch => ch)) by reflexivity.
  now rewrite map_id.
Qed.

(** Every stored chapter is displayed exactly once, whatever the order of the
    stored list: the displayed chapters are a rearrangement of the stored
    ones, and within a segment they keep their stored order. *)
Theorem render_shows_every_chapter_once (chapters : list Chapter) :
  Permutation (map item_chapter (render chapters)) chapters
  /\ List.length (render chapters) = List.length chapters
  /\ (forall ty,
         filter (isType ty) (map item_chapter (render chapters))
         = filter (isType ty) chapters).
Proof.
  assert (Hperm : Permutation (map item_chapter (render chapters)) chapters)
    by (rewrite render_chapters; apply segments_rearrange).
  split; [exact Hperm|]. split.
  - rewrite <- (length_map item_chapter). now apply Permutation_length.
  - intros ty. rewrite render_chapters.
    unfold frontmatterChapters, mainChapters, backmatterChapters.
    rewrite !filter_app.
    assert (Hsel : forall ty',
               filter (isType ty) (filter (isType ty') chapters)
               = if ChapterType_eqb ty' ty
                 then filter (isType ty) chapters else []).
    { intros ty'. rewrite filter_twice.
      destruct (ChapterType_eqb ty' ty) eqn:E.
      - apply filter_ext. intros ch. unfold isType.
        destruct (type ch), ty', ty; try reflexivity; discriminate.
      - rewrite <- (filter_false chapters). apply filter_ext.
        intros ch. unfold isType.
        destruct (type ch), ty', ty; try reflexivity; discriminate. }
    rewrite !Hsel. destruct ty; cbn [ChapterType_eqb app];
      now rewrite ?app_nil_r.
Qed.

Lemma indexOf_found (chapters : list Chapter) (ch : Chapter) :
  In ch chapters ->
  exists i,
    indexOf chapters ch = Z.of_nat i /\ nth_error chapters i = Some ch.
Proof.
  intros Hin. unfold indexOf.
  set (same := fun x : Chapter => if Chapter_eq_dec x ch then true else false).
  destruct (findIndex_spec same chapters)
    as [(_ & Hnone)|(i & x & Hi & Hnth & Hfind)].
  - pose proof (find_none _ _ Hnone ch Hin) as H. unfold same in H.
    now destruct (Chapter_eq_dec ch ch).
  - exists i. split; [exact Hi|].
    apply find_some in Hfind as (_ & Hx). unfold same in Hx.
    destruct (Chapter_eq_dec x ch); [now subst | discriminate].
Qed.

Lemma indexOf_missing (chapters : list Chapter) (ch : Chapter) :
  ~ In ch chapters -> indexOf chapters ch = (-1)%Z.
Proof.
  intros Hnot. unfold indexOf.
  set (same := fun x : Chapter => if Chapter_eq_dec x ch then true else false).
  destruct (findIndex_spec same chapters)
    as [(H & _)|(i & x & _ & _ & Hfind)]; [exact H|].
  apply find_some in Hfind as (Hin & Hx). unfold same in Hx.
  destruct (Chapter_eq_dec x ch); [now subst | discriminate].
Qed.

(** With distinct identifiers, comparing all fields finds the very chapter:
    the index of the chapter stored at position [i] is [i]. *)
Lemma indexOf_is_the_position (chapters : list Chapter) :
  NoDup (map id chapters) ->
  forall i ch,
    nth_error chapters i = Some ch -> indexOf chapters ch = Z.of_nat i.
Proof.
  intros Hnd i ch Hi. unfold indexOf.
  destruct (findIndex_spec
              (fun x => if Chapter_eq_dec x ch then true else false) chapters)
    as [(_ & Hnone)|(k & x & -> & Hk & Hfind)].
  - pose proof (find_none _ _ Hnone ch (nth_error_In _ _ Hi)) as H.
    cbv beta in H. now destruct (Chapter_eq_dec ch ch).
  - apply find_some in Hfind as (_ & Hx).
    destruct (Chapter_eq_dec x ch) as [->|]; [|discriminate].
    f_equal. apply (proj1 (NoDup_nth_error (map id chapters)) Hnd).
    + rewrite length_map. apply nth_error_Some. congruence.
    + now rewrite (map_nth_error id _ _ Hk), (map_nth_error id _ _ Hi).
Qed.

(** The [index] given to a displayed item is a position of the stored list,
    and the chapter stored there is the chapter of the item: no item gets
    the index -1 of a chapter that is not found. *)
Theorem rendered_index_is_a_stored_position (chapters : list Chapter) :
  Forall (fun it =>
            exists i,
              item_index it = Z.of_nat i
              /\ nth_error chapters i = Some (item_chapter it))
         (render chapters).
Proof.
  apply Forall_forall. intros it Hin.
  assert (H : item_index it = indexOf chapters (item_chapter it)
              /\ In (item_chapter it) chapters).
  { unfold render in Hin. rewrite !in_app_iff in Hin.
    destruct Hin as [Hin|[Hin|Hin]].
    - apply in_map_iff in Hin as (ch & <- & Hch).
      apply filter_In in Hch as [Hch _]. now split.
    - unfold numberedMainChapters in Hin.
      apply mapWithIndex_In in Hin as (ch & n & Hch & ->).
      apply filter_In in Hch as [Hch _]. now split.
    - apply in_map_iff in Hin as (ch & <- & Hch).
      apply filter_In in Hch as [Hch _]. now split. }
  destruct H as (-> & Hch). now apply indexOf_found.
Qed.

Lemma segments_of_ordered (chapters : list Chapter) :
  inSegmentOrder chapters ->
  frontmatterChapters chapters ++ mainChapters chapters
  ++ backmatterChapters chapters = chapters.
Proof.
  unfold frontmatterChapters, mainChapters, backmatterChapters.
  induction 1 as [|ch l Hl IH Hall]; [reflexivity|].
  assert (Hnone : forall ty,
             segmentRank ty < segmentRank (type ch) ->
             filter (isType ty) l = []).
  { intros ty Hlt. apply filter_none.
    eapply Forall_impl; [|exact Hall].
    intros c Hc. cbv beta in Hc. unfold isType. revert Hc Hlt.
    destruct (type c), ty, (type ch); simpl; intros; try reflexivity; lia. }
  assert (Ht : forall ty, isType ty ch = ChapterType_eqb (type ch) ty)
    by reflexivity.
  cbn [filter]. rewrite !Ht.
  destruct (type ch) eqn:E; cbn [ChapterType_eqb app].
  - now rewrite IH.
  - rewrite (Hnone frontmatter) in IH |- * by (simpl; lia).
    cbn [app] in *. now rewrite IH.
  - rewrite (Hnone frontmatter), (Hnone chapter) in IH |- * by (simpl; lia).
    cbn [app] in *. now rewrite IH.
Qed.

Lemma segments_are_ordered (chapters : list Chapter) :
  inSegmentOrder
    (frontmatterChapters chapters ++ mainChapters chapters
     ++ backmatterChapters chapters).
Proof.
  assert (Hin : forall ty ch,
             In ch (filter (isType ty) chapters) -> type ch = ty).
  { intros ty ch H. apply filter_In in H as [_ H]. now apply isType_true. }
  assert (Hseg : forall ty l,
             Forall (fun ch => type ch = ty) l ->
             forall tl,
               Forall (fun b => segmentRank ty <= segmentRank (type b)) tl ->
               inSegmentOrder tl -> inSegmentOrder (l ++ tl)).
  { intros ty l Hl tl Htl Hsorted.
    induction Hl as [|ch l Hch Hl' IH]; [exact Hsorted|].
    cbn [app]. constructor; [exact IH|].
    apply Forall_app. split.
    - eapply Forall_impl; [|exact Hl']. intros b Hb.
      cbv beta. rewrite Hch, Hb. lia.
    - eapply Forall_impl; [|exact Htl]. intros b Hb.
      cbv beta. now rewrite Hch. }
  assert (Hty : forall ty,
             Forall (fun ch => type ch = ty) (filter (isType ty) chapters))
    by (intros ty; apply Forall_forall; intros ch; apply Hin).
  unfold frontmatterChapters, mainChapters, backmatterChapters.
  apply (Hseg frontmatter); [apply Hty | |].
  - apply Forall_forall. intros b Hb. simpl. lia.
  - apply (Hseg chapter); [apply Hty | |].
    + apply Forall_forall. intros b Hb.
      rewrite (Hin _ _ Hb). simpl. lia.
    + rewrite <- (app_nil_r (filter (isType backmatter) chapters)).
      apply (Hseg backmatter); [apply Hty | constructor | constructor].
Qed.

(** Line 211 hands the sortable context the identifiers in stored order,
    while the items are displayed in segment order.  The two orders are the
    same exactly when the stored list is itself in segment order. *)
Theorem display_order_is_stored_order_iff_ordered (chapters : list Chapter) :
  (map item_chapter (render chapters) = chapters <-> inSegmentOrder chapters)
  /\ (inSegmentOrder chapters ->
      map (fun it => id (item_chapter it)) (render chapters)
      = sortableItems chapters).
Proof.
  assert (Hiff : map item_chapter (render chapters) = chapters
                 <-> inSegmentOrder chapters).
  { rewrite render_chapters. split.
    - intros H. rewrite <- H. apply segments_are_ordered.
    - apply segments_of_ordered. }
  split; [exact Hiff|].
  intros H. apply Hiff in H. unfold sortableItems.
  rewrite <- H at 2. now rewrite map_map.
Qed.

Example display_order_differs_from_stored_order :
  map (fun it => id (item_chapter it))
      (render [stored 1 backmatter; stored 2 chapter; stored 3 frontmatter])
  = [3; 2; 1]
  /\ sortableItems [stored 1 backmatter; stored 2 chapter; stored 3 frontmatter]
     = [1; 2; 3].
Proof. split; reflexivity. Qed.

(* ------------------------------------------------------------------ *)
(** ** More on reordering by drag *)

Lemma without_length {X : Type} (xs : list X) (a : nat) :
  a < List.length xs -> List.length (without a xs) = List.length xs - 1.
Proof.
  intros H. unfold without.
  rewrite length_app, firstn_length_le, length_skipn by lia. lia.
Qed.

Lemma without_inserted {X : Type} (rest : list X) (t : nat) (x : X) :
  t <= List.length rest ->
  without t (firstn t rest ++ x :: skipn t rest) = rest
  /\ nth_error (firstn t rest ++ x :: skipn t rest) t = Some x.
Proof.
  intros H. unfold without.
  assert (Hlen : List.length (firstn t rest) = t)
    by (apply firstn_length_le; exact H).
  split.
  - rewrite firstn_app, Hlen, Nat.sub_diag, firstn_O, app_nil_r.
    rewrite firstn_all2 by lia.
    rewrite skipn_app, Hlen.
    rewrite skipn_all2 by lia.
    replace (S t - t) with 1 by lia. cbn [skipn app].
    apply firstn_skipn.
  - rewrite nth_error_app2 by lia. now rewrite Hlen, Nat.sub_diag.
Qed.

Lemma inserted_back {X : Type} (xs : list X) (a : nat) (x : X) :
  nth_error xs a = Some x ->
  firstn a (without a xs) ++ x :: skipn a (without a xs) = xs.
Proof.
  intros H. unfold without.
  assert (Ha : a < List.length xs) by (apply nth_error_Some; congruence).
  assert (Hlen : List.length (firstn a xs) = a)
    by (apply firstn_length_le; lia).
  rewrite firstn_app, Hlen, Nat.sub_diag, firstn_O, app_nil_r.
  rewrite firstn_all2 by lia.
  rewrite skipn_app, Hlen, Nat.sub_diag.
  rewrite skipn_all2 by lia. cbn [skipn app].
  symmetry. now apply nth_error_split_at.
Qed.

(** The slot a result of [findIndex] stands for in [arrayMove]: -1 is the
    last slot. *)
Lemma handleDragEnd_moves (chapters : list Chapter) (active over : Id) :
  active <> over ->
  chapters <> [] ->
  let last := (Z.of_nat (List.length chapters) - 1)%Z in
  let slot := fun i : Z => Z.to_nat (if (i <? 0)%Z then last else i) in
  let a := slot (findIndex (fun ch => Nat.eqb (id ch) active) chapters) in
  let t := slot (findIndex (fun ch => Nat.eqb (id ch) over) chapters) in
  a < List.length chapters
  /\ t < List.length chapters
  /\ exists x,
      nth_error chapters a = Some x
      /\ handleDragEnd chapters (mkDragEndEvent active (Some over))
         = ReorderChapters
             (map Some (firstn t (without a chapters)
                        ++ x :: skipn t (without a chapters))).
Proof.
  intros Hne Hnonempty last slot a t.
  assert (Hlen : 0 < List.length chapters)
    by (destruct chapters; simpl; [congruence | lia]).
  assert (Hrange : forall p : Chapter -> bool,
             (-1 <= findIndex p chapters < Z.of_nat (List.length chapters))%Z).
  { intros p. destruct (findIndex_spec p chapters)
      as [[-> _]|(k & x & -> & Hk & _)]; [lia|].
    assert (k < List.length chapters)
      by (apply nth_error_Some; congruence). lia. }
  assert (Hslot : forall p : Chapter -> bool,
             slot (findIndex p chapters) < List.length chapters).
  { intros p. unfold slot, last. pose proof (Hrange p).
    destruct (findIndex p chapters <? 0)%Z eqn:E;
      [apply Z.ltb_lt in E | apply Z.ltb_ge in E]; lia. }
  split; [apply Hslot|]. split; [apply Hslot|].
  destruct (arrayMove_found chapters
              (findIndex (fun ch => Nat.eqb (id ch) active) chapters)
              (findIndex (fun ch => Nat.eqb (id ch) over) chapters)
              Hnonempty (Hrange _) (Hrange _)) as (x & Hx & Hmove).
  exists x. split; [exact Hx|].
  unfold handleDragEnd. cbn [over_id active_id].
  replace (Nat.eqb active over) with false
    by (symmetry; now apply Nat.eqb_neq).
  cbn [negb]. now rewrite Hmove.
Qed.

(** A drag moves one chapter and leaves the others in their order: with the
    moved chapter taken out, the list handed to the store and the current
    list are the same. *)
Theorem drag_keeps_the_others_in_order
        (chapters : list Chapter) (active over : Id) :
  active <> over ->
  chapters <> [] ->
  exists moved from to x,
    handleDragEnd chapters (mkDragEndEvent active (Some over))
    = ReorderChapters (map Some moved)
    /\ nth_error chapters from = Some x
    /\ nth_error moved to = Some x
    /\ without to moved = without from chapters
    /\ List.length moved = List.length chapters.
Proof.
  intros Hne Hnonempty.
  destruct (handleDragEnd_moves chapters active over Hne Hnonempty)
    as (Ha & Ht & x & Hx & Hcall).
  cbv zeta in Ha, Ht, Hx, Hcall.
  set (a := Z.to_nat _) in Ha, Hx, Hcall.
  set (t := Z.to_nat _) in Ht, Hcall.
  assert (Hrest : t <= List.length (without a chapters))
    by (rewrite without_length by exact Ha; lia).
  destruct (without_inserted (without a chapters) t x Hrest) as (Hw & Hn).
  exists (firstn t (without a chapters) ++ x :: skipn t (without a chapters)),
    a, t, x.
  repeat split; try assumption.
  rewrite length_app, firstn_length_le by exact Hrest.
  cbn [List.length]. rewrite length_skipn, without_length by exact Ha. lia.
Qed.

Lemma drag_keeps_the_others_in_order_example :
  exists moved from to x,
    handleDragEnd threeChapters (mkDragEndEvent 3 (Some 1))
    = ReorderChapters (map Some moved)
    /\ nth_error threeChapters from = Some x
    /\ nth_error moved to = Some x
    /\ without to moved = without from threeChapters
    /\ List.length moved = List.length threeChapters.
Proof.
  apply (drag_keeps_the_others_in_order threeChapters 3 1); discriminate.
Defined.

Lemma findIndex_none {X : Type} (p : X -> bool) (xs : list X) :
  find p xs = None -> findIndex p xs = (-1)%Z.
Proof.
  intros H. destruct (findIndex_spec p xs) as [(Hi & _)|(k & x & _ & _ & Hf)];
    [exact Hi | congruence].
Qed.

(** A dragged identifier that is not in the list is not refused.  On the
    empty list the handler hands the store a list with one undefined slot.
    Otherwise the last chapter is the one that moves: to the place of the
    target, or, when the target is unknown too, to the last place, which
    leaves the list as it is. *)
Theorem drag_with_unknown_dragged_id
        (chapters : list Chapter) (active over : Id) :
  active <> over ->
  find (fun ch => Nat.eqb (id ch) active) chapters = None ->
  match chapters with
  | [] =>
      handleDragEnd chapters (mkDragEndEvent active (Some over))
      = ReorderChapters [None]
  | _ :: _ =>
      exists init lastChapter,
        chapters = init ++ [lastChapter]
        /\ (find (fun ch => Nat.eqb (id ch) over) chapters = None ->
            handleDragEnd chapters (mkDragEndEvent active (Some over))
            = ReorderChapters (map Some chapters))
        /\ (forall j,
               findIndex (fun ch => Nat.eqb (id ch) over) chapters
               = Z.of_nat j ->
               handleDragEnd chapters (mkDragEndEvent active (Some over))
               = ReorderChapters
                   (map Some (firstn j init ++ lastChapter :: skipn j init)))
  end.
Proof.
  intros Hne Hactive.
  destruct chapters as [|c0 cs] eqn:Echapters.
  - unfold handleDragEnd. cbn [over_id active_id].
    replace (Nat.eqb active over) with false
      by (symmetry; now apply Nat.eqb_neq).
    reflexivity.
  - rewrite <- Echapters in *.
    assert (Hnonempty : chapters <> []) by (rewrite Echapters; discriminate).
    destruct (exists_last Hnonempty) as (init & lastChapter & Hsplit).
    exists init, lastChapter. split; [exact Hsplit|].
    destruct (handleDragEnd_moves chapters active over Hne Hnonempty)
      as (_ & _ & x & Hx & Hcall).
    cbv zeta in Hx, Hcall.
    rewrite (findIndex_none _ _ Hactive) in Hx, Hcall.
    assert (Hlen : List.length chapters = S (List.length init))
      by (rewrite Hsplit, length_app; simpl; lia).
    replace (Z.to_nat (if (-1 <? 0)%Z
                       then (Z.of_nat (List.length chapters) - 1)%Z
                       else (-1)%Z))
      with (List.length init) in Hx, Hcall by (cbn; lia).
    assert (Hinit : without (List.length init) chapters = init).
    { unfold without. rewrite Hsplit.
      rewrite firstn_app, Nat.sub_diag, firstn_O, app_nil_r, firstn_all.
      rewrite skipn_all2; [apply app_nil_r|].
      rewrite length_app. simpl. lia. }
    assert (Hlast : x = lastChapter).
    { rewrite Hsplit, nth_error_app2, Nat.sub_diag in Hx by lia.
      now injection Hx. }
    rewrite Hinit, Hlast in Hcall. split.
    + intros Hover. rewrite (findIndex_none _ _ Hover) in Hcall.
      replace (Z.to_nat (if (-1 <? 0)%Z
                         then (Z.of_nat (List.length chapters) - 1)%Z
                         else (-1)%Z))
        with (List.length init) in Hcall by (cbn; lia).
      rewrite firstn_all, skipn_all in Hcall.
      now rewrite Hcall, Hsplit.
    + intros j Hj. rewrite Hj in Hcall.
      replace (Z.of_nat j <? 0)%Z with false in Hcall
        by (symmetry; apply Z.ltb_ge; lia).
      now rewrite Nat2Z.id in Hcall.
Qed.

Lemma drag_with_unknown_dragged_id_example :
  exists init lastChapter,
    threeChapters = init ++ [lastChapter]
    /\ (find (fun ch => Nat.eqb (id ch) 77) threeChapters = None ->
        handleDragEnd threeChapters (mkDragEndEvent 99 (Some 77))
        = ReorderChapters (map Some threeChapters))
    /\ (forall j,
           findIndex (fun ch => Nat.eqb (id ch) 77) threeChapters
           = Z.of_nat j ->
           handleDragEnd threeChapters (mkDragEndEvent 99 (Some 77))
           = ReorderChapters
               (map Some (firstn j init ++ lastChapter :: skipn j init))).
Proof.
  apply (drag_with_unknown_dragged_id threeChapters 99 77).
  - discriminate.
  - reflexivity.
Defined.

Lemma findIndex_of_id (l : list Chapter) :
  NoDup (map id l) ->
  forall k x,
    nth_error l k = Some x ->
    findIndex (fun ch => Nat.eqb (id ch) (id x)) l = Z.of_nat k.
Proof.
  intros Hnd k x Hk.
  destruct (findIndex_spec (fun ch => Nat.eqb (id ch) (id x)) l)
    as [(_ & Hnone)|(k' & x' & -> & Hk' & Hfind)].
  - pose proof (find_none _ _ Hnone x (nth_error_In _ _ Hk)) as H.
    cbv beta in H. now rewrite Nat.eqb_refl in H.
  - apply find_some in Hfind as (_ & Hid). apply Nat.eqb_eq in Hid.
    f_equal. apply (proj1 (NoDup_nth_error (map id l)) Hnd).
    + rewrite length_map. apply nth_error_Some. congruence.
    + now rewrite (map_nth_error id _ _ Hk'), (map_nth_error id _ _ Hk), Hid.
Qed.

Lemma id_position (l : list Chapter) (i : Id) :
  In i (map id l) -> exists k x, nth_error l k = Some x /\ id x = i.
Proof.
  intros H. apply in_map_iff in H as (x & Hx & Hin).
  apply In_nth_error in Hin as (k & Hk). now exists k, x.
Qed.

(** With distinct identifiers a drag can be undone by a drag: after the
    dragged chapter went to the target's place, dragging it onto the chapter
    that now stands at its old place gives back the list as it was.  That
    chapter, [back], is a chapter of the list and not the dragged one. *)
Theorem drag_can_be_undone (chapters : list Chapter) (active over : Id) :
  NoDup (map id chapters) ->
  In active (map id chapters) ->
  In over (map id chapters) ->
  active <> over ->
  exists moved back,
    handleDragEnd chapters (mkDragEndEvent active (Some over))
    = ReorderChapters (map Some moved)
    /\ back <> active
    /\ handleDragEnd moved (mkDragEndEvent active (Some back))
       = ReorderChapters (map Some chapters)
    /\ In back (map id moved)
    /\ In back (map id chapters)
    /\ exists from c,
        findIndex (fun ch => Nat.eqb (id ch) active) chapters = Z.of_nat from
        /\ nth_error moved from = Some c
        /\ id c = back.
Proof.
  intros Hnd Hactive Hover Hne.
  apply id_position in Hactive as (i & x & Hi & Hx).
  apply id_position in Hover as (j & y & Hj & Hy).
  assert (Hnonempty : chapters <> []) by (destruct chapters, i; discriminate).
  assert (Hilt : i < List.length chapters)
    by (apply nth_error_Some; congruence).
  assert (Hjlt : j < List.length chapters)
    by (apply nth_error_Some; congruence).
  destruct (handleDragEnd_moves chapters active over Hne Hnonempty)
    as (_ & _ & x' & Hx' & Hcall).
  cbv zeta in Hx', Hcall. subst active over.
  rewrite (findIndex_of_id _ Hnd _ _ Hi) in Hx', Hcall.
  rewrite (findIndex_of_id _ Hnd _ _ Hj) in Hcall.
  replace (Z.of_nat i <? 0)%Z with false in Hx', Hcall
    by (symmetry; apply Z.ltb_ge; lia).
  replace (Z.of_nat j <? 0)%Z with false in Hcall
    by (symmetry; apply Z.ltb_ge; lia).
  rewrite Nat2Z.id in Hx', Hcall. rewrite Nat2Z.id in Hcall.
  assert (x' = x) by congruence. subst x'.
  set (rest := without i chapters) in Hcall.
  set (moved := firstn j rest ++ x :: skipn j rest) in Hcall.
  assert (Hrest : List.length rest = List.length chapters - 1)
    by (apply without_length; exact Hilt).
  destruct (without_inserted rest j x ltac:(lia)) as (Hw & Hn).
  fold moved in Hw, Hn.
  assert (Hperm : Permutation moved chapters).
  { unfold moved. rewrite <- Permutation_middle, firstn_skipn.
    rewrite (nth_error_split_at chapters i x Hi) at 1.
    unfold rest, without. now rewrite <- Permutation_middle. }
  assert (Hnd' : NoDup (map id moved)).
  { eapply Permutation_NoDup; [|exact Hnd].
    apply Permutation_map. now symmetry. }
  assert (Hlen : List.length moved = List.length chapters)
    by (now apply Permutation_length).
  destruct (nth_error moved i) as [c|] eqn:Hc;
    [|apply nth_error_None in Hc; lia].
  assert (Hij : i <> j).
  { intros ->. apply Hne. congruence. }
  assert (Hback : id c <> id x).
  { intros Heq. apply Hij.
    apply (proj1 (NoDup_nth_error (map id moved)) Hnd').
    - rewrite length_map. lia.
    - now rewrite (map_nth_error id _ _ Hc), (map_nth_error id _ _ Hn), Heq. }
  assert (Hin : In (id c) (map id moved))
    by (apply in_map; eapply nth_error_In; exact Hc).
  exists moved, (id c). split; [exact Hcall|]. split; [exact Hback|].
  split; [|split; [exact Hin|split]].
  - assert (Hnonempty' : moved <> [])
      by (intros Hm; rewrite Hm in Hn; destruct j; discriminate).
    destruct (handleDragEnd_moves moved (id x) (id c)
                ltac:(congruence) Hnonempty') as (_ & _ & x2 & Hx2 & Hcall').
    cbv zeta in Hx2, Hcall'.
    rewrite (findIndex_of_id _ Hnd' _ _ Hn) in Hx2, Hcall'.
    rewrite (findIndex_of_id _ Hnd' _ _ Hc) in Hcall'.
    replace (Z.of_nat j <? 0)%Z with false in Hx2, Hcall'
      by (symmetry; apply Z.ltb_ge; lia).
    replace (Z.of_nat i <? 0)%Z with false in Hcall'
      by (symmetry; apply Z.ltb_ge; lia).
    rewrite Nat2Z.id in Hx2, Hcall'. rewrite Nat2Z.id in Hcall'.
    assert (x2 = x) by congruence. subst x2.
    rewrite Hw in Hcall'. unfold rest in Hcall'.
    now rewrite (inserted_back chapters i x Hi) in Hcall'.
  - eapply Permutation_in; [apply Permutation_map; exact Hperm | exact Hin].
  - exists i, c. split; [|now split].
    apply (findIndex_of_id _ Hnd _ _ Hi).
Qed.

Lemma drag_can_be_undone_example :
  exists moved back,
    handleDragEnd threeChapters (mkDragEndEvent 1 (Some 3))
    = ReorderChapters (map Some moved)
    /\ back <> 1
    /\ handleDragEnd moved (mkDragEndEvent 1 (Some back))
       = ReorderChapters (map Some threeChapters)
    /\ In back (map id moved)
    /\ In back (map id threeChapters)
    /\ exists from c,
        findIndex (fun ch => Nat.eqb (id ch) 1) threeChapters = Z.of_nat from
        /\ nth_error moved from = Some c
        /\ id c = back.
Proof.
  apply (drag_can_be_undone threeChapters 1 3).
  - repeat constructor; simpl; intuition discriminate.
  - simpl. tauto.
  - simpl. tauto.
  - discriminate.
Defined.

(* ------------------------------------------------------------------ *)
(** ** Identifiers *)

Lemma allIds_app (xs ys : list Chapter) :
  allIds (xs ++ ys) = allIds xs ++ allIds ys.
Proof. unfold allIds. apply flat_map_app. Qed.

Lemma extends_refl (w : World) : extends w w.
Proof.
  split; [lia|]. exists []. rewrite app_nil_r.
  repeat split; constructor.
Qed.

Lemma extends_trans (w1 w2 w3 : World) :
  extends w1 w2 -> extends w2 w3 -> extends w1 w3.
Proof.
  intros (H12 & new1 & Ha1 & Hn1 & Hr1) (H23 & new2 & Ha2 & Hn2 & Hr2).
  split; [lia|]. exists (new1 ++ new2).
  split; [now rewrite Ha2, Ha1, app_assoc|].
  rewrite allIds_app. split.
  - apply NoDup_app; [exact Hn1 | exact Hn2 |].
    intros i Hi1 Hi2.
    pose proof (proj1 (Forall_forall _ _) Hr1 i Hi1) as P1.
    pose proof (proj1 (Forall_forall _ _) Hr2 i Hi2) as P2.
    cbv beta in P1, P2. lia.
  - apply Forall_app. split; (eapply Forall_impl; [|eassumption]);
      intros i Hi; cbv beta in *; lia.
Qed.

Lemma extends_fresh (w w' : World) :
  freshWorld w -> extends w w' -> freshWorld w'.
Proof.
  intros (Hnd & Hlt) (Hle & new & Ha & Hn & Hr).
  unfold freshWorld. rewrite Ha, allIds_app. split.
  - apply NoDup_app; [exact Hnd | exact Hn |].
    intros i Hi1 Hi2.
    pose proof (proj1 (Forall_forall _ _) Hlt i Hi1) as P1.
    pose proof (proj1 (Forall_forall _ _) Hr i Hi2) as P2.
    cbv beta in P1, P2. lia.
  - apply Forall_app. split; (eapply Forall_impl; [|eassumption]);
      intros i Hi; cbv beta in *; lia.
Qed.

(** One chapter whose identifiers are the ones drawn since [w]. *)
Lemma extends_one (w : World) (c : Chapter) (n : nat) :
  allIds [c] = seq (uuids_drawn w) n ->
  extends w (mkWorld (uuids_drawn w + n) (added w ++ [c])).
Proof.
  intros Hids. split; [cbn; lia|]. exists [c].
  split; [reflexivity|]. rewrite Hids. split; [apply seq_NoDup|].
  apply Forall_forall. intros i Hi. apply in_seq in Hi. cbn. lia.
Qed.

Lemma extends_drawn (w : World) (n : nat) :
  extends w (mkWorld (uuids_drawn w + n) (added w)).
Proof.
  split; [cbn; lia|]. exists []. cbn [added]. rewrite app_nil_r.
  repeat split; constructor.
Qed.

Section Freshness.
Variable localeCompare : string -> string -> Z.

Lemma collect_world (files : list File) :
  forall acc w,
    added (fst (collectSubChapters files acc w)) = added w
    /\ uuids_drawn w <= uuids_drawn (fst (collectSubChapters files acc w)).
Proof.
  induction files as [|file rest IH]; intros acc w; [now split|].
  cbn [collectSubChapters].
  destruct (Regex.exec subChapterRegex (name file)); [|apply IH].
  unfold bind, await, randomUUID.
  destruct (text file); [|now split]. cbn [fst snd].
  destruct (IH (acc ++ [mkSubChapter (uuids_drawn w) (Regex.at_ l 2) text0])
               (mkWorld (S (uuids_drawn w)) (added w))) as (Ha & Hu).
  destruct (collectSubChapters rest _ _) as [w' st].
  cbn [fst uuids_drawn added] in *. destruct st; cbn [fst]; split;
    try assumption; lia.
Qed.

Lemma processFolder_extends (entry : string * list File) (w : World) :
  extends w (fst (processFolder localeCompare entry w)).
Proof.
  destruct entry as [folder folderFiles].
  generalize (processFolder_run localeCompare folder folderFiles w).
  destruct (processFolder localeCompare (folder, folderFiles) w)
    as [w' [[]|e]] eqn:Erun; cbn [fst].
  - destruct (chapterFolderTitle folder) as [t|].
    + intros (subs & _ & Hids & ->).
      destruct subs as [|sc subs].
      * rewrite app_nil_r. cbn [List.length].
        replace (S (uuids_drawn w) + 0) with (uuids_drawn w + 1) by lia.
        apply extends_drawn.
      * replace (S (uuids_drawn w) + List.length (sc :: subs))
          with (uuids_drawn w + S (List.length (sc :: subs))) by lia.
        apply extends_one. unfold allIds. cbn [flat_map id subChapters].
        rewrite app_nil_r, Hids. reflexivity.
    + intros ->. apply extends_refl.
  - intros (Hadd & _).
    assert (Hu : uuids_drawn w <= uuids_drawn w').
    { unfold processFolder in Erun.
      destruct (Regex.exec chapterFolderRegex folder); [|discriminate].
      unfold bind, randomUUID in Erun. cbn [fst snd] in Erun.
      pose proof (collect_world (sortByName localeCompare folderFiles) []
                                (mkWorld (S (uuids_drawn w)) (added w)))
        as (_ & Hle).
      destruct (collectSubChapters _ _ _) as [w1 [subs|e1]].
      - destruct (0 <? List.length subs)%nat; discriminate.
      - injection Erun as <- _. cbn [fst uuids_drawn] in Hle. lia. }
    split; [exact Hu|]. exists []. rewrite app_nil_r.
    repeat split; [exact Hadd | constructor | constructor].
Qed.

Lemma forOf_extends (groups : FileMap.t) :
  forall w, extends w (fst (forOf groups (processFolder localeCompare) w)).
Proof.
  induction groups as [|entry groups IH]; intros w; [apply extends_refl|].
  cbn [forOf]. unfold bind.
  pose proof (processFolder_extends entry w) as H.
  destruct (processFolder localeCompare entry w) as [w1 [[]|e]];
    cbn [fst] in *; [|exact H].
  eapply extends_trans; [exact H | apply IH].
Qed.

Lemma processMarker_extends (found : option File) (t : string)
      (ty : ChapterType) (w : World) :
  extends w (fst (processMarker found t ty w)).
Proof.
  unfold processMarker. destruct found as [file|]; [|apply extends_refl].
  unfold bind, await, randomUUID, addChapter.
  destruct (text file); cbn [fst snd uuids_drawn added];
    [|apply extends_refl].
  replace (S (uuids_drawn w)) with (uuids_drawn w + 1) by lia.
  apply extends_one. reflexivity.
Qed.

Lemma handleBulkUpload_extends (files : list File) (w : World) :
  extends w (fst (handleBulkUpload localeCompare files w)).
Proof.
  unfold handleBulkUpload.
  destruct (List.length files =? 0)%nat; [apply extends_refl|].
  unfold bind.
  pose proof (processMarker_extends (find isFrontmatterFile files)
                                    "Kata Pengantar" frontmatter w) as H1.
  destruct (processMarker (find isFrontmatterFile files) _ _ w)
    as [w1 [[]|e]]; cbn [fst] in *; [|exact H1].
  pose proof (forOf_extends (groupFiles files) w1) as H2.
  destruct (forOf (groupFiles files) _ w1) as [w2 [[]|e]];
    cbn [fst] in *; [|eapply extends_trans; eassumption].
  pose proof (processMarker_extends (find isBackmatterFile files)
                                    "Penutup" backmatter w2) as H3.
  eapply extends_trans; [exact H1|].
  eapply extends_trans; [exact H2 | exact H3].
Qed.

Lemma handleAddChapter_extends (ty : ChapterType) (w : World) :
  extends w (fst (handleAddChapter ty w)).
Proof.
  unfold handleAddChapter, bind, randomUUID, addChapter.
  cbn [fst snd uuids_drawn added].
  replace (S (uuids_drawn w)) with (uuids_drawn w + 1) by lia.
  apply extends_one. reflexivity.
Qed.

Lemma afterEvents_extends (events : list UiEvent) :
  forall w, extends w (afterEvents localeCompare events w).
Proof.
  induction events as [|event events IH]; intros w; [apply extends_refl|].
  cbn [afterEvents]. eapply extends_trans; [|apply IH].
  destruct event; [apply handleAddChapter_extends
                  | apply handleBulkUpload_extends].
Qed.
End Freshness.

Lemma emptyWorld_fresh : freshWorld emptyWorld.
Proof. split; constructor. Qed.

(** Within one import every chapter and every sub-chapter gets an identifier
    of its own, also when the import is cut short by a read that fails. *)
Theorem import_identifiers_are_distinct
        (localeCompare : string -> string -> Z) (files : list File) :
  NoDup (allIds (importCalls localeCompare files))
  /\ Forall (fun i => i < uuids_drawn (fst (importRun localeCompare files)))
            (allIds (importCalls localeCompare files)).
Proof.
  apply (extends_fresh emptyWorld); [apply emptyWorld_fresh|].
  apply handleBulkUpload_extends.
Qed.

(** Whatever the user does, clicks on the add buttons and uploads in any
    order, uploads cut short by a failing read among them: no identifier
    is ever given to two chapters or sub-chapters. *)
Theorem identifiers_stay_distinct_across_events
        (localeCompare : string -> string -> Z) (events : list UiEvent) :
  NoDup (allIds (added (afterEvents localeCompare events emptyWorld))).
Proof.
  apply (extends_fresh emptyWorld); [apply emptyWorld_fresh|].
  apply afterEvents_extends.
Qed.

Example identifiers_after_three_events :
  allIds (added (afterEvents codeUnitCompare
                   [ AddClicked chapter;
                     FilesChosen (batchNoSubChapter
                                    ++ [pembuka "Buku" "a"; lanjutan "Buku" "b"]);
                     AddClicked backmatter ]
                   emptyWorld))
  = [0; 2; 3; 4; 5].
Proof. reflexivity. Qed.

(* ------------------------------------------------------------------ *)
(** ** What every created chapter starts with *)

Lemma addsOnly_refl (P : Chapter -> Prop) (w : World) : addsOnly P w w.
Proof. exists []. now rewrite app_nil_r. Qed.

Lemma addsOnly_trans (P : Chapter -> Prop) (w1 w2 w3 : World) :
  addsOnly P w1 w2 -> addsOnly P w2 w3 -> addsOnly P w1 w3.
Proof.
  intros (new1 & Ha1 & H1) (new2 & Ha2 & H2). exists (new1 ++ new2).
  split; [now rewrite Ha2, Ha1, app_assoc | now apply Forall_app].
Qed.

Section Defaults.
Variable localeCompare : string -> string -> Z.

Lemma processFolder_defaults (entry : string * list File) (w : World) :
  addsOnly hasDefaults w (fst (processFolder localeCompare entry w)).
Proof.
  destruct entry as [folder folderFiles].
  generalize (processFolder_run localeCompare folder folderFiles w).
  destruct (processFolder localeCompare (folder, folderFiles) w)
    as [w' [[]|e]]; cbn [fst].
  - destruct (chapterFolderTitle folder) as [t|] eqn:Et.
    + intros (subs & _ & _ & ->). cbn [added].
      exists (match subs with
              | [] => []
              | _ :: _ => [mkChapter (uuids_drawn w) t "" [] chapter 0
                                     (Qmake 3 2) subs]
              end).
      split; [reflexivity|].
      destruct subs; constructor; [|constructor].
      apply chapterFolderTitle_shape in Et
        as (_ & _ & _ & _ & _ & _ & Hne & _).
      now repeat split.
    + intros ->. apply addsOnly_refl.
  - intros (Hadd & _). exists []. now rewrite app_nil_r.
Qed.

Lemma forOf_defaults (groups : FileMap.t) :
  forall w,
    addsOnly hasDefaults w (fst (forOf groups (processFolder localeCompare) w)).
Proof.
  induction groups as [|entry groups IH]; intros w; [apply addsOnly_refl|].
  cbn [forOf]. unfold bind.
  pose proof (processFolder_defaults entry w) as H.
  destruct (processFolder localeCompare entry w) as [w1 [[]|e]];
    cbn [fst] in *; [|exact H].
  eapply addsOnly_trans; [exact H | apply IH].
Qed.

Lemma processMarker_defaults (found : option File) (t : string)
      (ty : ChapterType) (w : World) :
  t = defaultTitles ty -> ty <> chapter ->
  addsOnly hasDefaults w (fst (processMarker found t ty w)).
Proof.
  intros -> Hty. unfold processMarker.
  destruct found as [file|]; [|apply addsOnly_refl].
  unfold bind, await, randomUUID, addChapter.
  destruct (text file); cbn [fst snd uuids_drawn added];
    [|apply addsOnly_refl].
  eexists. split; [reflexivity|]. constructor; [|constructor].
  unfold hasDefaults, hasFixedTitle.
  cbn [images indentation lineSpacing title type subChapters].
  destruct ty; [|now elim Hty|]; repeat split; discriminate.
Qed.

Lemma handleBulkUpload_defaults (files : list File) (w : World) :
  addsOnly hasDefaults w (fst (handleBulkUpload localeCompare files w)).
Proof.
  unfold handleBulkUpload.
  destruct (List.length files =? 0)%nat; [apply addsOnly_refl|].
  unfold bind.
  pose proof (processMarker_defaults (find isFrontmatterFile files)
                "Kata Pengantar" frontmatter w
                eq_refl ltac:(discriminate)) as H1.
  destruct (processMarker (find isFrontmatterFile files) _ _ w)
    as [w1 [[]|e]]; cbn [fst] in *; [|exact H1].
  pose proof (forOf_defaults (groupFiles files) w1) as H2.
  destruct (forOf (groupFiles files) _ w1) as [w2 [[]|e]];
    cbn [fst] in *; [|eapply addsOnly_trans; eassumption].
  pose proof (processMarker_defaults (find isBackmatterFile files)
                "Penutup" backmatter w2
                eq_refl ltac:(discriminate)) as H3.
  eapply addsOnly_trans; [exact H1|].
  eapply addsOnly_trans; [exact H2 | exact H3].
Qed.

Lemma handleAddChapter_defaults (ty : ChapterType) (w : World) :
  addsOnly hasDefaults w (fst (handleAddChapter ty w)).
Proof.
  unfold handleAddChapter, bind, randomUUID, addChapter.
  cbn [fst snd uuids_drawn added].
  eexists. split; [reflexivity|]. constructor; [|constructor].
  unfold hasDefaults, hasFixedTitle.
  cbn [images indentation lineSpacing title type subChapters content].
  destruct ty; repeat split; discriminate.
Qed.

Lemma afterEvents_defaults (events : list UiEvent) :
  forall w, addsOnly hasDefaults w (afterEvents localeCompare events w).
Proof.
  induction events as [|event events IH]; intros w; [apply addsOnly_refl|].
  cbn [afterEvents]. eapply addsOnly_trans; [|apply IH].
  destruct event; [apply handleAddChapter_defaults
                  | apply handleBulkUpload_defaults].
Qed.
End Defaults.

(** Every chapter the component creates, by a click or by an upload, starts
    with no images, indentation 0, line spacing 1.5 and a title that is not
    empty; front matter is titled "Kata Pengantar" and back matter "Penutup"
    on both ways; a main chapter has no content of its own, and front and
    back matter have no sub-chapters. *)
Theorem created_chapters_have_defaults
        (localeCompare : string -> string -> Z) (events : list UiEvent) :
  Forall hasDefaults (added (afterEvents localeCompare events emptyWorld)).
Proof.
  destruct (afterEvents_defaults localeCompare events emptyWorld)
    as (new & -> & H).
  exact H.
Qed.

(* ------------------------------------------------------------------ *)
(** ** Which files are read *)

Lemma forOf_rejected (localeCompare : string -> string -> Z)
      (groups : FileMap.t) :
  forall w w' e,
    forOf groups (processFolder localeCompare) w = (w', Rejected e) ->
    exists folder folderFiles f,
      In (folder, folderFiles) groups
      /\ chapterFolderTitle folder <> None
      /\ In f folderFiles
      /\ matchesSubChapter f = true
      /\ text f = TextFail e.
Proof.
  induction groups as [|[folder folderFiles] groups IH]; intros w w' e H.
  - discriminate.
  - cbn [forOf] in H. unfold bind in H.
    generalize (processFolder_run localeCompare folder folderFiles w).
    destruct (processFolder localeCompare (folder, folderFiles) w)
      as [w1 [[]|e1]].
    + intros _. destruct (IH _ _ _ H) as (k & v & f & Hin & Hrest).
      exists k, v, f. split; [now right | exact Hrest].
    + injection H as -> ->. intros (_ & Ht & f & Hf & Hm & Hfail).
      exists folder, folderFiles, f.
      repeat split; try assumption. now left.
Qed.

(** An import fails only on a file it reads: the first front-matter file,
    the first back-matter file, or a sub-chapter file of a chapter folder.
    So when these can be read the import runs to its end, whatever the
    state of the other files of the batch. *)
Theorem import_fails_only_on_files_it_reads
        (localeCompare : string -> string -> Z) (files : list File) :
  (forall e,
      importSettled localeCompare files = Rejected e ->
      exists f, In f files /\ isRead files f /\ text f = TextFail e)
  /\ ((forall f, In f files -> isRead files f ->
                 exists txt, text f = TextOk txt) ->
      importSettled localeCompare files = Fulfilled tt).
Proof.
  assert (Hrej : forall e,
             importSettled localeCompare files = Rejected e ->
             exists f, In f files /\ isRead files f /\ text f = TextFail e).
  { intros e. unfold importSettled, importRun, handleBulkUpload.
    destruct (List.length files =? 0)%nat; [discriminate|].
    assert (Hmarker : forall isMarker t ty w w' e',
               processMarker (find isMarker files) t ty w = (w', Rejected e') ->
               exists f, find isMarker files = Some f /\ In f files
                         /\ text f = TextFail e').
    { intros isMarker t ty w w' e' H. unfold processMarker in H.
      destruct (find isMarker files) as [f|] eqn:Ef; [|discriminate].
      exists f. split; [reflexivity|].
      split; [now apply find_some in Ef|].
      unfold bind, await, randomUUID, addChapter in H.
      destruct (text f); [discriminate|]. now injection H as _ ->. }
    unfold bind.
    destruct (processMarker (find isFrontmatterFile files) _ _ emptyWorld)
      as [w1 [[]|e1]] eqn:E1.
    - destruct (forOf (groupFiles files) _ w1) as [w2 [[]|e2]] eqn:E2.
      + destruct (processMarker (find isBackmatterFile files) _ _ w2)
          as [w3 [[]|e3]] eqn:E3; cbn [snd]; [discriminate|].
        intros H. injection H as <-.
        destruct (Hmarker _ _ _ _ _ _ E3) as (f & Hfind & Hin & Hfail).
        exists f. split; [exact Hin|]. split; [|exact Hfail].
        right. now left.
      + cbn [snd]. intros H. injection H as <-.
        apply forOf_rejected in E2
          as (folder & folderFiles & f & Hin & Ht & Hf & Hm & Hfail).
        destruct (groups_member files folder folderFiles f Hin Hf)
          as (Hfiles & Hp).
        exists f. split; [exact Hfiles|]. split; [|exact Hfail].
        right. right. split; [exact Hm|]. now exists folder.
    - cbn [snd]. intros H. injection H as <-.
      destruct (Hmarker _ _ _ _ _ _ E1) as (f & Hfind & Hin & Hfail).
      exists f. split; [exact Hin|]. split; [|exact Hfail]. now left. }
  split; [exact Hrej|].
  intros Hall.
  destruct (importSettled localeCompare files) as [[]|e] eqn:E;
    [reflexivity|].
  destruct (Hrej e eq_refl) as (f & Hin & Hread & Hfail).
  destruct (Hall f Hin Hread) as (txt & Hok). congruence.
Qed.

Lemma import_fails_only_on_files_it_reads_example :
  importSettled codeUnitCompare batchWithUnreadableImage = Fulfilled tt.
Proof.
  apply (import_fails_only_on_files_it_reads
           codeUnitCompare batchWithUnreadableImage).
  intros f [<-|[<-|[]]] Hread.
  - destruct Hread as [H|[H|(H & _)]]; discriminate.
  - now exists "isi".
Defined.

(* ------------------------------------------------------------------ *)
(** ** An upload does not look at the store *)

Lemma shiftSubChapter_add (n m : nat) (sc : SubChapter) :
  shiftSubChapter n (shiftSubChapter m sc) = shiftSubChapter (n + m) sc.
Proof. unfold shiftSubChapter. cbn. f_equal. lia. Qed.

Lemma shiftChapter_add (n m : nat) (c : Chapter) :
  shiftChapter n (shiftChapter m c) = shiftChapter (n + m) c.
Proof.
  unfold shiftChapter. cbn. f_equal; [lia|].
  rewrite map_map. apply map_ext. intros sc. apply shiftSubChapter_add.
Qed.

Lemma shiftChapter_zero (c : Chapter) : shiftChapter 0 c = c.
Proof.
  destruct c as [i t co im ty ind ls subs]. unfold shiftChapter. cbn.
  f_equal. rewrite <- (map_id subs) at 2. apply map_ext.
  now intros [].
Qed.

Lemma after_empty_l (w0 : World) : after emptyWorld w0 = w0.
Proof.
  destruct w0 as [u a]. unfold after. cbn. f_equal.
  rewrite <- (map_id a) at 2. apply map_ext. apply shiftChapter_zero.
Qed.

Lemma after_empty_r (w : World) : after w emptyWorld = w.
Proof.
  destruct w as [u a]. unfold after. cbn.
  now rewrite Nat.add_0_r, app_nil_r.
Qed.

Lemma after_assoc (w w1 w2 : World) :
  after (after w w1) w2 = after w (after w1 w2).
Proof.
  unfold after. cbn [uuids_drawn added]. f_equal; [lia|].
  rewrite <- app_assoc, map_app, map_map. do 2 f_equal.
  apply map_ext. intros c. now rewrite shiftChapter_add.
Qed.

Lemma independent_ret : independent (ret tt).
Proof. intros w. unfold ret. cbn. now rewrite after_empty_r. Qed.

Lemma independent_bind (m1 m2 : Async unit) :
  independent m1 -> independent m2 -> independent (m1 ;; m2).
Proof.
  intros H1 H2 w. unfold bind. rewrite (H1 w).
  destruct (m1 emptyWorld) as [w1 [[]|e]]; cbn [fst snd]; [|reflexivity].
  rewrite (H2 (after w w1)), (H2 w1). cbn [fst snd].
  now rewrite after_assoc.
Qed.

Lemma independent_forOf {X : Type} (body : X -> Async unit) (xs : list X) :
  (forall x, independent (body x)) -> independent (forOf xs body).
Proof.
  intros Hbody. induction xs as [|x xs IH]; [apply independent_ret|].
  cbn [forOf]. now apply independent_bind.
Qed.

Lemma independent_addChapter (c : Chapter) (u : nat) (w : World) :
  addChapter (shiftChapter (uuids_drawn w) c)
             (mkWorld (uuids_drawn w + u) (added w))
  = (after w (mkWorld u [c]), Fulfilled tt).
Proof. reflexivity. Qed.

Lemma independent_processMarker (found : option File) (t : string)
      (ty : ChapterType) :
  independent (processMarker found t ty).
Proof.
  intros w. unfold processMarker.
  destruct found as [file|]; [|apply independent_ret].
  unfold bind, await, randomUUID, addChapter.
  destruct (text file); cbn [fst snd uuids_drawn added emptyWorld];
    [|now rewrite after_empty_r].
  unfold after, shiftChapter. cbn.
  now rewrite Nat.add_0_r, Nat.add_1_r.
Qed.

Lemma independent_handleAddChapter (ty : ChapterType) :
  independent (handleAddChapter ty).
Proof.
  intros w. unfold handleAddChapter, bind, randomUUID, addChapter.
  cbn [fst snd uuids_drawn added emptyWorld].
  unfold after, shiftChapter. cbn.
  now rewrite Nat.add_0_r, Nat.add_1_r.
Qed.

Section Independence.
Variable localeCompare : string -> string -> Z.

(** The loop over the files of a folder draws its identifiers one after the
    other, starting where the world stands. *)
Lemma collect_from (files : list File) :
  forall acc w,
    collectSubChapters files acc w
    = match collectSubChapters files [] emptyWorld with
      | (w0, Fulfilled subs) =>
          (mkWorld (uuids_drawn w + uuids_drawn w0) (added w),
           Fulfilled (acc ++ map (shiftSubChapter (uuids_drawn w)) subs))
      | (w0, Rejected e) =>
          (mkWorld (uuids_drawn w + uuids_drawn w0) (added w), Rejected e)
      end.
Proof.
  induction files as [|file rest IH]; intros acc w.
  - cbn. destruct w. cbn. now rewrite Nat.add_0_r, app_nil_r.
  - cbn [collectSubChapters].
    destruct (Regex.exec subChapterRegex (name file)) as [m|]; [|apply IH].
    unfold bind, await, randomUUID.
    destruct (text file) as [txt|e];
      cbn [fst snd uuids_drawn added emptyWorld];
      [|destruct w; cbn; now rewrite Nat.add_0_r].
    rewrite (IH (acc ++ [mkSubChapter (uuids_drawn w) (Regex.at_ m 2) txt])
                (mkWorld (S (uuids_drawn w)) (added w))).
    rewrite (IH ([] ++ [mkSubChapter 0 (Regex.at_ m 2) txt]) (mkWorld 1 [])).
    destruct (collectSubChapters rest [] emptyWorld) as [w0 [subs|e]];
      cbn [uuids_drawn added app map].
    + f_equal; [f_equal; lia|]. f_equal. rewrite <- app_assoc. f_equal.
      cbn [app]. f_equal.
      * unfold shiftSubChapter. cbn [sub_id sub_title sub_content].
        now rewrite Nat.add_0_r.
      * rewrite map_map. apply map_ext. intros sc.
        rewrite shiftSubChapter_add. now rewrite Nat.add_1_r.
    + f_equal. f_equal. lia.
Qed.

Lemma independent_processFolder (entry : string * list File) :
  independent (processFolder localeCompare entry).
Proof.
  intros w. destruct entry as [folder folderFiles]. unfold processFolder.
  destruct (Regex.exec chapterFolderRegex folder) as [m|];
    [|apply independent_ret].
  unfold bind, randomUUID. cbn [fst snd uuids_drawn added emptyWorld].
  rewrite (collect_from (sortByName localeCompare folderFiles) []
                        (mkWorld (S (uuids_drawn w)) (added w))).
  rewrite (collect_from (sortByName localeCompare folderFiles) []
                        (mkWorld 1 [])).
  destruct (collectSubChapters (sortByName localeCompare folderFiles) []
                               emptyWorld) as [w0 [subs|e]];
    cbn [uuids_drawn added app].
  - rewrite !length_map.
    destruct (0 <? List.length subs)%nat.
    + unfold addChapter, after, shiftChapter. cbn.
      f_equal. f_equal; [lia|]. do 2 f_equal. f_equal; [lia|].
      rewrite map_map. apply map_ext. intros sc.
      rewrite shiftSubChapter_add. f_equal. lia.
    + unfold ret, after. cbn. f_equal. f_equal; [lia|].
      now rewrite app_nil_r.
  - cbn [fst snd]. unfold after. cbn. f_equal. f_equal; [lia|].
    now rewrite app_nil_r.
Qed.

Lemma independent_handleBulkUpload (files : list File) :
  independent (handleBulkUpload localeCompare files).
Proof.
  unfold handleBulkUpload.
  destruct (List.length files =? 0)%nat; [apply independent_ret|].
  apply independent_bind; [apply independent_processMarker|].
  apply independent_bind; [|apply independent_processMarker].
  apply independent_forOf. apply independent_processFolder.
Qed.
End Independence.

(** An upload does not look at the store: from any earlier state it adds
    the chapters it adds from the start, under identifiers drawn afresh,
    and settles the same way.  Nothing is compared with what is stored, so
    uploading a batch a second time adds all its chapters a second time. *)
Theorem upload_does_not_look_at_the_store
        (localeCompare : string -> string -> Z) (files : list File) :
  (forall w,
      added (fst (handleBulkUpload localeCompare files w))
      = added w
        ++ map (shiftChapter (uuids_drawn w)) (importCalls localeCompare files)
      /\ snd (handleBulkUpload localeCompare files w)
         = importSettled localeCompare files)
  /\ (exists n,
         added (afterEvents localeCompare
                            [FilesChosen files; FilesChosen files] emptyWorld)
         = importCalls localeCompare files
           ++ map (shiftChapter n) (importCalls localeCompare files)).
Proof.
  assert (H : forall w,
             added (fst (handleBulkUpload localeCompare files w))
             = added w
               ++ map (shiftChapter (uuids_drawn w))
                      (importCalls localeCompare files)
             /\ snd (handleBulkUpload localeCompare files w)
                = importSettled localeCompare files).
  { intros w. rewrite (independent_handleBulkUpload localeCompare files w).
    now split. }
  split; [exact H|].
  exists (uuids_drawn (fst (importRun localeCompare files))).
  cbn [afterEvents handleEvent]. now rewrite (proj1 (H _)).
Qed.

Example upload_twice :
  map (fun c => (id c, title c, map sub_id (subChapters c)))
      (added (afterEvents codeUnitCompare
                [ FilesChosen batchTwoBeforeOne; FilesChosen batchTwoBeforeOne ]
                emptyWorld))
  = [ (0, "Dua", [1]); (2, "Satu", [3]); (4, "Dua", [5]); (6, "Satu", [7]) ].
Proof. reflexivity. Qed.

(* ------------------------------------------------------------------ *)
(** ** The chapter requests of an import that runs to its end *)

Lemma forOf_requests (localeCompare : string -> string -> Z)
      (files : list File) (keys : list string) :
  forall w w',
    forOf (groupsOf files keys) (processFolder localeCompare) w
    = (w', Fulfilled tt) ->
    exists cs,
      added w' = added w ++ cs
      /\ Forall2 (requestOfFolder localeCompare files)
                 (filter (makesRequest files) keys) cs.
Proof.
  induction keys as [|k keys IH]; intros w w' H.
  - injection H as <-. exists []. rewrite app_nil_r. split; constructor.
  - cbn [groupsOf map forOf] in H. fold (groupsOf files keys) in H.
    unfold bind in H.
    generalize (processFolder_run localeCompare k
                                  (filter (inFolder k) files) w).
    destruct (processFolder localeCompare (k, filter (inFolder k) files) w)
      as [w1 [[]|e]]; [|discriminate].
    cbn [filter]. unfold makesRequest at 1.
    destruct (chapterFolderTitle k) as [t|] eqn:Et.
    + intros (subs & Hrel & _ & ->).
      destruct (IH _ _ H) as (cs & Hadd & Hcs). cbn [added] in Hadd.
      rewrite hasSubChapterFile_group,
        <- (existsb_sortByName localeCompare), existsb_filter_nil.
      destruct subs as [|sc subs].
      * inversion Hrel as [Hnil|]. exists cs.
        rewrite app_nil_r in Hadd. now split.
      * exists (mkChapter (uuids_drawn w) t "" [] chapter 0 (Qmake 3 2)
                          (sc :: subs) :: cs).
        split; [now rewrite Hadd, <- app_assoc|].
        destruct (filter matchesSubChapter
                         (sortByName localeCompare (filter (inFolder k) files)))
          as [|f0 fs0] eqn:Efil; [inversion Hrel|].
        constructor; [|exact Hcs].
        unfold requestOfFolder. cbn [type title subChapters].
        rewrite Efil. now repeat split.
    + intros ->. apply (IH _ _ H).
Qed.

(** When an import runs to its end, its chapter requests are, one for one
    and in this order, those of the chapter folders that have a sub-chapter
    file, in the order in which the batch first shows the folders; the
    request of a folder has the folder's title and exactly one sub-chapter
    for each sub-chapter file beneath it, in the sorted order of the files,
    with the file's title and text. *)
Theorem chapter_requests_of_a_completed_import
        (localeCompare : string -> string -> Z) (files : list File) :
  importSettled localeCompare files = Fulfilled tt ->
  Forall2 (requestOfFolder localeCompare files)
          (filter (makesRequest files) (foldersInOrder files))
          (mainChapters (importCalls localeCompare files)).
Proof.
  unfold importSettled, importCalls, importRun, handleBulkUpload.
  destruct files as [|f0 fs] eqn:Efiles; [intros _; constructor|].
  rewrite <- Efiles.
  replace (List.length files =? 0)%nat with false
    by (rewrite Efiles; reflexivity).
  unfold bind.
  generalize (processMarker_run localeCompare files isFrontmatterFile
                                "Kata Pengantar" frontmatter emptyWorld).
  destruct (processMarker (find isFrontmatterFile files) _ _ emptyWorld)
    as [w1 [[]|e]]; [|discriminate].
  intros (front & Hadd1 & Hfront & _).
  destruct (forOf (groupFiles files) (processFolder localeCompare) w1)
    as [w2 [[]|e]] eqn:Eloop; [|discriminate].
  rewrite groupFiles_groupsOf in Eloop.
  apply forOf_requests in Eloop as (cs & Hadd2 & Hcs).
  generalize (processMarker_run localeCompare files isBackmatterFile
                                "Penutup" backmatter w2).
  destruct (processMarker (find isBackmatterFile files) _ _ w2)
    as [w3 st]. intros (back & Hadd3 & Hback & _) _. cbn [fst].
  rewrite Hadd3, Hadd2, Hadd1. cbn [emptyWorld added app].
  assert (Tf : Forall (fun c => isType chapter c = false) front).
  { destruct (markerRequest_type _ _ _ _ _ Hfront) as (T & _).
    eapply Forall_impl; [|exact T]. intros c (Hty & _).
    unfold isType. now rewrite Hty. }
  assert (Tb : Forall (fun c => isType chapter c = false) back).
  { destruct (markerRequest_type _ _ _ _ _ Hback) as (T & _).
    eapply Forall_impl; [|exact T]. intros c (Hty & _).
    unfold isType. now rewrite Hty. }
  assert (Tc : Forall (fun c => isType chapter c = true) cs).
  { clear - Hcs. induction Hcs as [|k c ks cs (Hty & _) _ IH]; constructor;
      [unfold isType; now rewrite Hty | exact IH]. }
  unfold mainChapters. rewrite !filter_app.
  rewrite (filter_none _ _ Tf), (filter_none _ _ Tb), (filter_all _ _ Tc).
  now rewrite app_nil_r.
Qed.

Lemma chapter_requests_of_a_completed_import_example :
  Forall2 (requestOfFolder codeUnitCompare batchTwoBeforeOne)
          (filter (makesRequest batchTwoBeforeOne)
                  (foldersInOrder batchTwoBeforeOne))
          (mainChapters (importCalls codeUnitCompare batchTwoBeforeOne)).
Proof.
  apply (chapter_requests_of_a_completed_import
           codeUnitCompare batchTwoBeforeOne).
  reflexivity.
Defined.
